(** * aiocoap resource directory ([aiocoap/cli/rd.py]): registry and lookup

    A shallow embedding of the registration registry ([CommonRD],
    [CommonRD.Registration]) and of the two lookup views
    ([EndpointLookupInterface], [ResourceLookupInterface]) of the plain CoAP
    resource directory, followed by the properties established about them.

    Conventions of the embedding:
    - a Python [dict] is an insertion-ordered association list ([Dict]):
      iteration order decides the order of lookup results, the order of the
      attributes of a host link and the values the lookup loops leave in
      their loop variables;
    - a query value is [option string]: [query_split] stores [None] for a
      query option without [=];
    - a Python exception is a value of [exn]; code that can raise returns
      [exc A], and code that also mutates the directory returns the mutated
      state together with the outcome ([M A]), since an exception does not
      undo the assignments made before it;
    - [Registration] objects live in an object store indexed by identity;
      [_by_key] and [_by_path] hold identities, so both maps alias one
      object as in the source;
    - calls that leave [rd.py] (change subscribers, [asyncio] tasks) are
      recorded in a trace. *)

From Stdlib Require Import List String Ascii ZArith Bool Lia Arith.
From Stdlib Require Import DecimalString DecimalNat FinFun.
Import ListNotations.
Open Scope string_scope.
Open Scope list_scope.

Set Implicit Arguments.

(* ------------------------------------------------------------------ *)
(** ** Exceptions *)

(** The exceptions the modelled code can raise.  [BadRequest] is
    [aiocoap.error.BadRequest], [NotFound] is [aiocoap.error.NotFound];
    [CallbackException] stands for whatever a
    change subscriber (code outside [rd.py]) raises; [ReferenceError] is
    the outcome of following a reference that names no object. *)
Inductive exn : Type :=
| BadRequest (msg : string)
| NameError (name : string)
| UnboundLocalError (name : string)
| TypeError
| ValueError
| AttributeError
| KeyError
| IndexError
| NotFound
| ReferenceError
| CallbackException (n : nat).

Inductive exc (A : Type) : Type :=
| Ok (a : A)
| Raise (e : exn).
Arguments Ok {A} a.
Arguments Raise {A} e.

Definition exc_bind {A B} (c : exc A) (k : A -> exc B) : exc B :=
  match c with
  | Ok a => k a
  | Raise e => Raise e
  end.

Declare Scope exc_scope.
Delimit Scope exc_scope with exc.
Notation "'let?' x ':=' c 'in' k" := (exc_bind c (fun x => k))
  (at level 10, x pattern, c at level 100, k at level 200) : exc_scope.

(** [try: body except (classes): handler]. *)
Definition try_except {A} (body : exc A) (classes : exn -> bool) (handler : exc A)
  : exc A :=
  match body with
  | Ok a => Ok a
  | Raise e => if classes e then handler else Raise e
  end.

Definition is_ValueError (e : exn) : bool :=
  match e with ValueError => true | _ => false end.
Definition is_KeyError_or_ValueError (e : exn) : bool :=
  match e with KeyError | ValueError => true | _ => false end.

Definition is_BadRequest {A} (r : exc A) : bool :=
  match r with
  | Raise (BadRequest _) => true
  | _ => false
  end.

(* ------------------------------------------------------------------ *)
(** ** Python built-ins used by the module *)

Module Py.

(** [any(f(x) for x in l)] where [f] may raise: elements are tried in
    order and the first [True] or the first exception ends the scan. *)
Fixpoint any {A} (f : A -> exc bool) (l : list A) : exc bool :=
  match l with
  | [] => Ok false
  | x :: l' =>
      match f x with
      | Ok true => Ok true
      | Ok false => any f l'
      | Raise e => Raise e
      end
  end.

(** [a or b] with a right operand that is only evaluated when needed. *)
Definition or_else (a : exc bool) (b : exc bool) : exc bool :=
  match a with
  | Ok true => Ok true
  | Ok false => b
  | Raise e => Raise e
  end.

(** [[x for x in l if f(x)]] where [f] may raise. *)
Fixpoint filter {A} (f : A -> exc bool) (l : list A) : exc (list A) :=
  match l with
  | [] => Ok []
  | x :: l' =>
      match f x with
      | Ok b =>
          match filter f l' with
          | Ok r => Ok (if b then x :: r else r)
          | Raise e => Raise e
          end
      | Raise e => Raise e
      end
  end.

(** Characters [str.split()] and [int()] treat as white space (ASCII). *)
Definition isspace (c : ascii) : bool :=
  let n := nat_of_ascii c in
  (((9 <=? n) && (n <=? 13)) || ((28 <=? n) && (n <=? 32)))%nat.

Definition isdigit (c : ascii) : bool :=
  let n := nat_of_ascii c in ((48 <=? n) && (n <=? 57))%nat.

(** [s.split()]: the maximal runs of non-space characters, in order. *)
Fixpoint split_aux (cur : string) (s : string) : list string :=
  match s with
  | EmptyString => if (cur =? "")%string then [] else [cur]
  | String c s' =>
      if isspace c
      then (if (cur =? "")%string then split_aux "" s'
            else cur :: split_aux "" s')
      else split_aux (cur ++ String c "")%string s'
  end.
Definition split (s : string) : list string := split_aux "" s.

(** [s.endswith('*')]. *)
Fixpoint endswith_star (s : string) : bool :=
  match s with
  | EmptyString => false
  | String c EmptyString => Ascii.eqb c "*"%char
  | String _ s' => endswith_star s'
  end.

(** [s[:-1]]. *)
Fixpoint drop_last (s : string) : string :=
  match s with
  | EmptyString => EmptyString
  | String _ EmptyString => EmptyString
  | String c s' => String c (drop_last s')
  end.

(** [x.startswith(start)]. *)
Definition startswith (x start : string) : bool := String.prefix start x.

(** [sep.join(l)]. *)
Fixpoint join (sep : string) (l : list string) : string :=
  match l with
  | [] => ""
  | [x] => x
  | x :: l' => (x ++ sep ++ join sep l')%string
  end.

(** [str(i)] for a non-negative integer. *)
Definition str (i : nat) : string := NilEmpty.string_of_uint (Nat.to_uint i).

(** [int(s)] on an ASCII string: surrounding white space is stripped, one
    sign is allowed, and the digits may be grouped by single underscores.
    [parse_int] gives [None] where [int] raises [ValueError]. *)
Fixpoint lstrip (s : string) : string :=
  match s with
  | String c s' => if isspace c then lstrip s' else s
  | EmptyString => EmptyString
  end.

Fixpoint all_space (s : string) : bool :=
  match s with
  | EmptyString => true
  | String c s' => isspace c && all_space s'
  end.

Definition digit_val (c : ascii) : Z := Z.of_nat (nat_of_ascii c - 48).

(** [digits acc prev_digit s]: the digits of [s] read after [acc];
    [prev_digit] tells whether the character before was a digit, the only
    place where an underscore or the end of the literal may follow. *)
Fixpoint digits (acc : Z) (prev_digit : bool) (s : string) : option Z :=
  match s with
  | EmptyString => if prev_digit then Some acc else None
  | String c s' =>
      if isdigit c then digits (10 * acc + digit_val c) true s'
      else if Ascii.eqb c "_"%char
           then (if prev_digit then digits acc false s' else None)
           else if isspace c
                then (if prev_digit && all_space s' then Some acc else None)
                else None
  end.

Definition parse_int (s : string) : option Z :=
  match lstrip s with
  | String "-"%char s' => option_map Z.opp (digits 0 false s')
  | String "+"%char s' => digits 0 false s'
  | s' => digits 0 false s'
  end.

(** [int(v)] for a query value: [int(None)] is a [TypeError]. *)
Definition int (v : option string) : exc Z :=
  match v with
  | None => Raise TypeError
  | Some s =>
      match parse_int s with
      | Some n => Ok n
      | None => Raise ValueError
      end
  end.

(** [l[a:]] and [l[:b]] with Python's treatment of negative and
    out-of-range bounds. *)
Definition slice_from {A} (l : list A) (a : Z) : list A :=
  let n := Z.of_nat (List.length l) in
  let start := if (a <? 0)%Z then Z.max (n + a) 0 else Z.min a n in
  skipn (Z.to_nat start) l.

Definition slice_to {A} (l : list A) (b : Z) : list A :=
  let n := Z.of_nat (List.length l) in
  let stop := if (b <? 0)%Z then Z.max (n + b) 0 else Z.min b n in
  firstn (Z.to_nat stop) l.

End Py.

(* ------------------------------------------------------------------ *)
(** ** Insertion-ordered dictionaries *)

Module Dict.
Section Dict.
Variables K V : Type.
Variable eqb : K -> K -> bool.

Definition t := list (K * V).

Fixpoint get (d : t) (k : K) : option V :=
  match d with
  | [] => None
  | (k', v) :: d' => if eqb k k' then Some v else get d' k
  end.

Definition mem (d : t) (k : K) : bool :=
  match get d k with Some _ => true | None => false end.

(** [d[k] = v]: an existing key keeps its position, a new key goes last. *)
Fixpoint set (d : t) (k : K) (v : V) : t :=
  match d with
  | [] => [(k, v)]
  | (k', v') :: d' =>
      if eqb k k' then (k', v) :: d' else (k', v') :: set d' k v
  end.

(** The dictionary without key [k] (used by [del d[k]] and [d.pop(k)]
    once the key is known to be present). *)
Definition remove (d : t) (k : K) : t :=
  List.filter (fun kv => negb (eqb k (fst kv))) d.

(** [del d[k]]: [KeyError] when the key is absent. *)
Definition del (d : t) (k : K) : exc t :=
  if mem d k then Ok (remove d k) else Raise KeyError.

(** [d.update(other)]. *)
Definition update (d other : t) : t :=
  fold_left (fun acc kv => set acc (fst kv) (snd kv)) other d.

Definition keys (d : t) : list K := map fst d.
Definition values (d : t) : list V := map snd d.
End Dict.
End Dict.

Definition option_eqb {A} (eqb : A -> A -> bool) (a b : option A) : bool :=
  match a, b with
  | Some x, Some y => eqb x y
  | None, None => true
  | _, _ => false
  end.

Fixpoint list_eqb {A} (eqb : A -> A -> bool) (l1 l2 : list A) : bool :=
  match l1, l2 with
  | [], [] => true
  | x :: l1', y :: l2' => eqb x y && list_eqb eqb l1' l2'
  | _, _ => false
  end.

(** A value of a query option or of a link attribute. *)
Definition value := option string.
Definition value_eqb : value -> value -> bool := option_eqb String.eqb.
Definition values_eqb : list value -> list value -> bool := list_eqb value_eqb.

(** The output of [query_split]: key -> list of values, in arrival order. *)
Definition query := Dict.t string (list value).

Definition q_get (q : query) (k : string) := Dict.get String.eqb q k.
Definition q_mem (q : query) (k : string) := Dict.mem String.eqb q k.

(** [k in names] for a tuple of names. *)
Definition in_names (k : string) (names : list string) : bool :=
  existsb (String.eqb k) names.

(* ------------------------------------------------------------------ *)
(** ** [query_split] and [pop_single_arg] *)

(** [q.split('=', 1)] for a [q] known to contain ['=']: the text before
    the first ['='] and the text after it. *)
Fixpoint split_eq (q : string) : option (string * string) :=
  match q with
  | EmptyString => None
  | String c q' =>
      if Ascii.eqb c "="%char then Some ("", q')
      else match split_eq q' with
           | Some (k, v) => Some (String c k, v)
           | None => None
           end
  end.

(** [result.setdefault(k, []).append(v)]. *)
Definition setdefault_append (result : query) (k : string) (v : value) : query :=
  match q_get result k with
  | Some vs => Dict.set String.eqb result k (vs ++ [v])
  | None => Dict.set String.eqb result k [v]
  end.

Definition query_split (uri_query : list string) : query :=
  fold_left
    (fun result q =>
       match split_eq q with
       | None => setdefault_append result q None
       | Some (k, v) => setdefault_append result k (Some v)
       end)
    uri_query [].

(** [pop_single_arg(query, name)].  The function returns the popped value
    and the query it leaves behind.  Its [raise] statement names
    [BadRequest], a name the module never binds (only [error] is imported
    from [aiocoap]), so evaluating it raises [NameError]. *)
Definition pop_single_arg (q : query) (name : string) : exc (value * query) :=
  match q_get q name with
  | None => Ok (None, q)
  | Some vs =>
      if (1 <? List.length vs)%nat then Raise (NameError "BadRequest")
      else match vs with
           | v :: _ => Ok (v, Dict.remove String.eqb q name)
           | [] => Raise IndexError   (* query_split never stores an empty list *)
           end
  end.

(* ------------------------------------------------------------------ *)
(** ** Links *)

Module Link.

(** Modelled from the spec: the class [Link] ([aiocoap.util.linkformat],
    built on the [link_header] package) is defined outside [rd.py].  The
    specification describes it as a pure value, an href with an ordered
    multimap of attributes.  The constructor [Link(href, attr_pairs,
    **kwargs)] is taken to append its keyword arguments, in the order
    written, to the attribute pairs; [name in link] holds when some pair
    has that key, and [link.name] is the value of the first such pair. *)
Record t : Type := mk { href : string; attr_pairs : list (string * value) }.

Definition new (href : string) (attr_pairs kwargs : list (string * value)) : t :=
  mk href (attr_pairs ++ kwargs).

Definition contains (l : t) (name : string) : bool :=
  existsb (fun kv => String.eqb (fst kv) name) (attr_pairs l).

Definition getattr (l : t) (name : string) : exc value :=
  match List.find (fun kv => String.eqb (fst kv) name) (attr_pairs l) with
  | Some kv => Ok (snd kv)
  | None => Raise AttributeError
  end.

End Link.

(* ------------------------------------------------------------------ *)
(** ** The directory state *)

(** "Key" always means an [(ep, d)] tuple; a path is a tuple of segments. *)
Definition Key : Type := string * value.
Definition Path : Type := list string.

Definition key_eqb (a b : Key) : bool :=
  String.eqb (fst a) (fst b) && value_eqb (snd a) (snd b).
Definition path_eqb : Path -> Path -> bool := list_eqb String.eqb.

(** An [asyncio.Task] running [longwait(delay, self.delete)]: the delay it
    sleeps and whether [cancel()] was called on it. *)
Record Task : Type := mkTask { delay : Z; cancelled : bool }.

Module Reg.

(** The attributes of a [CommonRD.Registration] object.  [_delete_cb] is
    the closure [delete] of [initialize_endpoint], represented by the
    [path] and [key] it captured; [_update_cb] is always the bound method
    [_updated_state] of the one directory and needs no field.  [base] and
    [timeout] do not exist before the first [update_params] creates them. *)
Record t : Type := mk {
  path : Path;
  links : list Link.t;
  _delete_cb : Path * Key;
  registration_parameters : query;
  lt : Z;
  base_is_explicit : bool;
  base : option string;
  timeout : option Task
}.

Definition grace_period : Z := 15.

Definition with_lt (s : t) (v : Z) : t :=
  mk (path s) (links s) (_delete_cb s) (registration_parameters s) v
     (base_is_explicit s) (base s) (timeout s).
Definition with_base (s : t) (v : string) : t :=
  mk (path s) (links s) (_delete_cb s) (registration_parameters s) (lt s)
     (base_is_explicit s) (Some v) (timeout s).
Definition with_base_is_explicit (s : t) (v : bool) : t :=
  mk (path s) (links s) (_delete_cb s) (registration_parameters s) (lt s)
     v (base s) (timeout s).
Definition with_registration_parameters (s : t) (v : query) : t :=
  mk (path s) (links s) (_delete_cb s) v (lt s)
     (base_is_explicit s) (base s) (timeout s).
Definition with_timeout (s : t) (v : Task) : t :=
  mk (path s) (links s) (_delete_cb s) (registration_parameters s) (lt s)
     (base_is_explicit s) (base s) (Some v).
Definition with_links (s : t) (v : list Link.t) : t :=
  mk (path s) v (_delete_cb s) (registration_parameters s) (lt s)
     (base_is_explicit s) (base s) (timeout s).

(** The [href] property: ['/' + '/'.join(self.path)]. *)
Definition href (s : t) : string := ("/" ++ Py.join "/" (path s))%string.

End Reg.

(** A change subscriber, as far as the directory can tell: calling it
    either returns or raises. *)
Record callback : Type := mkCallback { cb_id : nat; cb_raises : bool }.

(** Calls that leave the module, in the order they happen. *)
Inductive event : Type :=
| Ev_updated_state                     (* CommonRD._updated_state entered *)
| EvCallback (n : nat)                 (* subscriber [n] called *)
| EvCancel (self : nat)                (* self.timeout.cancel() *)
| EvTask (self : nat) (delay : Z)      (* asyncio.Task(longwait(delay, self.delete)) *)
| EvDelete (path : Path) (key : Key).  (* the closure delete() entered *)

Record CommonRD : Type := mkRD {
  _by_key : Dict.t Key nat;
  _by_path : Dict.t Path nat;
  _updated_state_cb : list callback;
  objects : list Reg.t;         (* every Registration ever constructed *)
  trace : list event
}.

Definition entity_prefix : Path := ["reg"].

(** [CommonRD()]. *)
Definition CommonRD_init : CommonRD := mkRD [] [] [] [] [].

Definition by_key_get (w : CommonRD) (k : Key) := Dict.get key_eqb (_by_key w) k.
Definition by_path_get (w : CommonRD) (p : Path) := Dict.get path_eqb (_by_path w) p.

(* ------------------------------------------------------------------ *)
(** ** The monad of directory operations *)

Definition M (A : Type) : Type := CommonRD -> CommonRD * exc A.

Definition ret {A} (a : A) : M A := fun w => (w, Ok a).
Definition raise {A} (e : exn) : M A := fun w => (w, Raise e).
Definition bind {A B} (c : M A) (k : A -> M B) : M B :=
  fun w =>
    match c w with
    | (w', Ok a) => k a w'
    | (w', Raise e) => (w', Raise e)
    end.
Definition lift {A} (c : exc A) : M A := fun w => (w, c).

Declare Scope rd_scope.
Delimit Scope rd_scope with rd.
Notation "x <- c ;; k" := (bind c (fun x => k))
  (at level 61, c at next level, right associativity) : rd_scope.
Notation "' pat <- c ;; k" := (bind c (fun x => match x with pat => k end))
  (at level 61, pat pattern, c at next level, right associativity) : rd_scope.
Notation "c ;; k" := (bind c (fun _ => k))
  (at level 61, right associativity) : rd_scope.
Open Scope rd_scope.

(** The directory with more events at the end of its trace. *)
Definition log (evs : list event) (w : CommonRD) : CommonRD :=
  mkRD (_by_key w) (_by_path w) (_updated_state_cb w) (objects w) (trace w ++ evs).

Definition emit (e : event) : M unit := fun w => (log [e] w, Ok tt).

Fixpoint list_set {A} (l : list A) (i : nat) (a : A) : list A :=
  match l, i with
  | [], _ => []
  | _ :: l', O => a :: l'
  | x :: l', S i' => x :: list_set l' i' a
  end.

(** Reading and writing the object behind a reference.  A reference that
    names no object cannot arise from the operations below. *)
Definition get_obj (self : nat) : M Reg.t :=
  fun w => match nth_error (objects w) self with
           | Some s => (w, Ok s)
           | None => (w, Raise ReferenceError)
           end.

(** The directory after the object behind [self] has become [s]. *)
Definition store (self : nat) (s : Reg.t) (w : CommonRD) : CommonRD :=
  mkRD (_by_key w) (_by_path w) (_updated_state_cb w)
       (list_set (objects w) self s) (trace w).

Definition put_obj (self : nat) (s : Reg.t) : M unit :=
  fun w => (store self s w, Ok tt).

Definition new_obj (s : Reg.t) : M nat :=
  fun w => (mkRD (_by_key w) (_by_path w) (_updated_state_cb w)
                 (objects w ++ [s]) (trace w), Ok (List.length (objects w))).

Definition set_by_key (d : Dict.t Key nat) : M unit :=
  fun w => (mkRD d (_by_path w) (_updated_state_cb w) (objects w) (trace w), Ok tt).
Definition set_by_path (d : Dict.t Path nat) : M unit :=
  fun w => (mkRD (_by_key w) d (_updated_state_cb w) (objects w) (trace w), Ok tt).
Definition get_rd : M CommonRD := fun w => (w, Ok w).

(* ------------------------------------------------------------------ *)
(** ** Change notification *)

(** [register_change_callback]: the subscriber list is append-only. *)
Definition register_change_callback (cb : callback) : M unit :=
  fun w => (mkRD (_by_key w) (_by_path w) (_updated_state_cb w ++ [cb])
                 (objects w) (trace w), Ok tt).

(** [cb()]. *)
Definition call_callback (cb : callback) : M unit :=
  emit (EvCallback (cb_id cb)) ;;
  if cb_raises cb then raise (CallbackException (cb_id cb)) else ret tt.

(** The loop [for cb in self._updated_state_cb: cb()]: there is no handler
    around the call, so an exception leaves the loop. *)
Fixpoint for_each_callback (cbs : list callback) : M unit :=
  match cbs with
  | [] => ret tt
  | cb :: cbs' => call_callback cb ;; for_each_callback cbs'
  end.

Definition _updated_state : M unit :=
  emit Ev_updated_state ;;
  w <- get_rd ;;
  for_each_callback (_updated_state_cb w).

(* ------------------------------------------------------------------ *)
(** ** [CommonRD.Registration] *)

(** The origin of a request ([network_remote]): [Some uri] when its [.uri]
    property yields a URI, [None] when it raises [AnonymousHost]. *)
Definition remote : Type := option string.

(** [_set_timeout]: a new task sleeping [self.lt + self.grace_period]. *)
Definition _set_timeout (self : nat) : M unit :=
  s <- get_obj self ;;
  let delay := (Reg.lt s + Reg.grace_period)%Z in
  emit (EvTask self delay) ;;
  put_obj self (Reg.with_timeout s (mkTask delay false)).

(** [self.timeout.cancel()]. *)
Definition timeout_cancel (self : nat) : M unit :=
  s <- get_obj self ;;
  match Reg.timeout s with
  | None => raise AttributeError
  | Some t =>
      emit (EvCancel self) ;;
      put_obj self (Reg.with_timeout s (mkTask (delay t) true))
  end.

Definition refresh_timeout (self : nat) : M unit :=
  timeout_cancel self ;;
  _set_timeout self.

(** The closure [delete] of [initialize_endpoint], called through
    [self._delete_cb()]: two [del] statements on the maps of the
    directory, with the [path] and [key] captured at creation. *)
Definition delete_closure (path : Path) (key : Key) : M unit :=
  emit (EvDelete path key) ;;
  w <- get_rd ;;
  by_path' <- lift (Dict.del path_eqb (_by_path w) path) ;;
  set_by_path by_path' ;;
  by_key' <- lift (Dict.del key_eqb (_by_key w) key) ;;
  set_by_key by_key'.

(** [Registration.delete]. *)
Definition delete (self : nat) : M unit :=
  timeout_cancel self ;;
  _updated_state ;;
  s <- get_obj self ;;
  delete_closure (fst (Reg._delete_cb s)) (snd (Reg._delete_cb s)).

(** The end of the sleep of the task in [self.timeout] ([longwait]): a
    cancelled task is never resumed past its [await], any other runs
    [callback()], which is [self.delete]. *)
Definition expire (self : nat) : M unit :=
  s <- get_obj self ;;
  match Reg.timeout s with
  | Some t => if cancelled t then ret tt else delete self
  | None => ret tt
  end.

(** What [update_params] has computed when it starts to act (the text
    above its comment "Don't act while still checking" and the two pops
    after it): [network_base] is [None] while the local variable is
    unbound; [rest] is [registration_parameters] after the pops. *)
Record checked : Type := mkChecked {
  network_base : option string;
  set_lt : option Z;
  set_base : value;
  rest : query
}.

(** [update_params], first part: no attribute of [self] is assigned. *)
Definition update_params_check (s : Reg.t) (network_remote : remote)
    (registration_parameters : query) (is_initial : bool) : exc checked :=
  if existsb (fun k => in_names k ["ep"; "d"]) (Dict.keys registration_parameters)
  then Raise (BadRequest "Parameters 'd' and 'ep' can not be updated")
  else
  if existsb (fun k => in_names k ["page"; "count"; "rt"; "href"; "anchor"])
             (Dict.keys registration_parameters)
  then Raise (BadRequest "Unsuitable parameter for registration")
  else
  (let? network_base :=
     if (is_initial || negb (Reg.base_is_explicit s))
        && negb (q_mem registration_parameters "base")
     then match network_remote with
          | Some uri => Ok (Some uri)
          | None => Raise (BadRequest "explicit base required")
          end
     else Ok None in
   let? (set_lt, registration_parameters) :=
     if q_mem registration_parameters "lt"
     then try_except
            (let? (v, q') := pop_single_arg registration_parameters "lt" in
             let? n := Py.int v in
             Ok (Some n, q'))
            is_ValueError
            (Raise (BadRequest "lt must be numeric"))
     else Ok (None, registration_parameters) in
   let? (set_base, registration_parameters) :=
     if q_mem registration_parameters "base"
     then pop_single_arg registration_parameters "base"
     else Ok (None, registration_parameters) in
   Ok (mkChecked network_base set_lt set_base registration_parameters))%exc.

(** [self.base != other], for a [self.base] that may not exist yet. *)
Definition base_differs (s : Reg.t) (other : string) : exc bool :=
  match Reg.base s with
  | Some b => Ok (negb (String.eqb b other))
  | None => Raise AttributeError
  end.

(** [any(v != self.registration_parameters.get(k) for (k, v) in
    registration_parameters.items())]. *)
Definition params_differ (s : Reg.t) (registration_parameters : query) : bool :=
  existsb (fun kv => negb (option_eqb values_eqb (Some (snd kv))
                             (q_get (Reg.registration_parameters s) (fst kv))))
          registration_parameters.

(** [update_params], second part: the four conditional assignments.  The
    result is the object as the statements leave it, with the final
    [actual_change] or the exception that stopped them. *)
Definition update_params_apply (s : Reg.t) (c : checked) (is_initial : bool)
  : Reg.t * exc bool :=
  let actual_change := is_initial in
  (* if set_lt is not None and self.lt != set_lt *)
  let '(s, actual_change) :=
    match set_lt c with
    | Some n => if negb (Reg.lt s =? n)%Z then (Reg.with_lt s n, true)
                else (s, actual_change)
    | None => (s, actual_change)
    end in
  (* if set_base is not None and (is_initial or self.base != set_base) *)
  match
    match set_base c with
    | Some b =>
        match (if is_initial then Ok true else base_differs s b) with
        | Ok true => Ok (Reg.with_base_is_explicit (Reg.with_base s b) true, true)
        | Ok false => Ok (s, actual_change)
        | Raise e => Raise e
        end
    | None => Ok (s, actual_change)
    end
  with
  | Raise e => (s, Raise e)
  | Ok (s, actual_change) =>
      (* if not self.base_is_explicit and (is_initial or self.base != network_base) *)
      match
        if Reg.base_is_explicit s then Ok (s, actual_change)
        else if is_initial
             then match network_base c with
                  | Some nb => Ok (Reg.with_base s nb, true)
                  | None => Raise (UnboundLocalError "network_base")
                  end
             else match Reg.base s, network_base c with
                  | None, _ => Raise AttributeError
                  | Some _, None => Raise (UnboundLocalError "network_base")
                  | Some b, Some nb =>
                      if negb (String.eqb b nb) then Ok (Reg.with_base s nb, true)
                      else Ok (s, actual_change)
                  end
      with
      | Raise e => (s, Raise e)
      | Ok (s, actual_change) =>
          if params_differ s (rest c)
          then (Reg.with_registration_parameters s
                  (Dict.update String.eqb (Reg.registration_parameters s) (rest c)),
                Ok true)
          else (s, Ok actual_change)
      end
  end.

Definition update_params (self : nat) (network_remote : remote)
    (registration_parameters : query) (is_initial : bool) : M unit :=
  s <- get_obj self ;;
  c <- lift (update_params_check s network_remote registration_parameters is_initial) ;;
  let '(s', r) := update_params_apply s c is_initial in
  put_obj self s' ;;
  actual_change <- lift r ;;
  (if is_initial then _set_timeout self else refresh_timeout self) ;;
  if (actual_change : bool) then _updated_state else ret tt.

(** [Registration.__init__]: the new object and its identity. *)
Definition Registration_new (static_registration_parameters : query) (path : Path)
    (network_remote : remote) (delete_cb : Path * Key)
    (registration_parameters : query) : M nat :=
  self <- new_obj (Reg.mk path [] delete_cb static_registration_parameters
                          90000 false None None) ;;
  update_params self network_remote registration_parameters true ;;
  ret self.

(** [get_host_link]. *)
Definition get_host_link (s : Reg.t) : exc Link.t :=
  let attr_pairs :=
    flat_map (fun kvs => map (fun v => (fst kvs, v)) (snd kvs))
             (Reg.registration_parameters s) in
  match Reg.base s with
  | None => Raise AttributeError
  | Some b =>
      Ok (Link.new (Reg.href s) attr_pairs
                   [("base", Some b); ("rt", Some "coire.rd-ep")])
  end.

(* ------------------------------------------------------------------ *)
(** ** [CommonRD]: path allocation and registration *)

Definition pathtail (i : nat) : Path := [Py.str i; ""].

(** [_new_pathtail]: the first [i] in [itertools.count(1)] whose path is
    free.  The directory holds [length by_path] paths, so the search is
    over after that many occupied candidates; the candidate that follows
    them needs no test. *)
Fixpoint _new_pathtail_from (by_path : Dict.t Path nat) (fuel i : nat) : Path :=
  match fuel with
  | O => pathtail i
  | S fuel' =>
      if Dict.mem path_eqb by_path (pathtail i)
      then _new_pathtail_from by_path fuel' (S i)
      else pathtail i
  end.

Definition _new_pathtail (w : CommonRD) : Path :=
  _new_pathtail_from (_by_path w) (List.length (_by_path w)) 1.

(** [{k: v for (k, v) in registration_parameters.items() if k in ('ep', 'd')}]. *)
Definition ep_and_d_of (registration_parameters : query) : query :=
  List.filter (fun kv => in_names (fst kv) ["ep"; "d"]) registration_parameters.

Definition initialize_endpoint (network_remote : remote)
    (registration_parameters : query) : M nat :=
  let ep_and_d := ep_and_d_of registration_parameters in
  '(ep, registration_parameters) <- lift (pop_single_arg registration_parameters "ep") ;;
  match ep with
  | None => raise (BadRequest "ep argument missing")
  | Some ep =>
      '(d, registration_parameters) <- lift (pop_single_arg registration_parameters "d") ;;
      let key : Key := (ep, d) in
      w <- get_rd ;;
      path <-
        match by_key_get w key with
        | None => ret (_new_pathtail w)
        | Some oldreg =>
            old <- get_obj oldreg ;;
            let path := skipn (List.length entity_prefix) (Reg.path old) in
            delete oldreg ;;
            ret path
        end ;;
      reg <- Registration_new ep_and_d (entity_prefix ++ path) network_remote
                              (path, key) registration_parameters ;;
      w <- get_rd ;;
      set_by_key (Dict.set key_eqb (_by_key w) key reg) ;;
      w <- get_rd ;;
      set_by_path (Dict.set path_eqb (_by_path w) path reg) ;;
      ret reg
  end.

(** [get_endpoints]: the objects behind [self._by_key.values()]. *)
Definition get_endpoints (w : CommonRD) : list Reg.t :=
  flat_map (fun r => match nth_error (objects w) r with
                     | Some s => [s]
                     | None => []
                     end)
           (Dict.values (_by_key w)).

(** [regresource.links = links], as [DirectoryResource.render_post] and
    [RegistrationResource.render_put] do after registering. *)
Definition set_links (self : nat) (links : list Link.t) : M unit :=
  s <- get_obj self ;;
  put_obj self (Reg.with_links s links).

(** [RegistrationDispatchSite.render]: the object registered at a path. *)
Definition dispatch (uri_path : Path) : M nat :=
  w <- get_rd ;;
  match by_path_get w uri_path with
  | Some r => ret r
  | None => raise NotFound
  end.

(* ------------------------------------------------------------------ *)
(** ** Lookup *)

Section Lookup.

(** [urllib.parse.urljoin] on two strings (with the [coap] schemes
    registered as relative-capable, as [aiocoap] does on import): the
    standard resolution of a URI reference against a base.  The library
    function is a parameter of the development. *)
Variable urljoin : string -> string -> string.

(** [urljoin(base, url)] for an attribute value: a [url] of [None] is
    falsy and makes the function answer [base] (or the [url] itself when
    [base] is empty) without resolving anything. *)
Definition urljoin_value (base : string) (url : value) : value :=
  match url with
  | Some u => Some (urljoin base u)
  | None => if String.eqb base "" then None else Some base
  end.

(** One round of the loop of [get_based_links]. *)
Definition based_link (base : string) (l : Link.t) : exc Link.t :=
  (let? data :=
     if Link.contains l "anchor"
     then (let? anchor := Link.getattr l "anchor" in
           let absanchor := urljoin_value base anchor in
           Ok (List.filter (fun kv => negb (String.eqb (fst kv) "anchor"))
                           (Link.attr_pairs l)
               ++ [("anchor", absanchor)]))
     else Ok (Link.attr_pairs l ++ [("anchor", Some base)]) in
   let href := urljoin base (Link.href l) in
   Ok (Link.new href data []))%exc.

Fixpoint map_exc {A B} (f : A -> exc B) (l : list A) : exc (list B) :=
  match l with
  | [] => Ok []
  | x :: l' =>
      (let? y := f x in
       let? r := map_exc f l' in
       Ok (y :: r))%exc
  end.

(** [get_based_links]: [self.base] is first read inside the loop. *)
Definition get_based_links (s : Reg.t) : exc (list Link.t) :=
  match Reg.links s with
  | [] => Ok []
  | ls =>
      match Reg.base s with
      | None => Raise AttributeError
      | Some b => map_exc (based_link b) ls
      end
  end.

(** *** The filter loop

    Both [render_get] methods run the same two nested loops.  Each round
    of the inner loop binds [matches] to a new function and wraps
    [candidates] in one more generator expression.  Nothing is evaluated
    until [_paginate] calls [list(candidates)], after the loops: a
    generator condition reads [matches] and [search_key] from the
    enclosing frame whenever it runs, and the function [lambda x: x ==
    search_value] reads [search_value] the same way.  Only the outermost
    iterable of a generator expression and the default arguments of a
    lambda ([start], [original_matches]) are evaluated where they are
    written.  The model therefore keeps the frame variables and the list
    of generator expressions created, and evaluates the conditions
    against the frame as the loops leave it. *)

(** The functions bound to [matches]. *)
Inductive matcher : Type :=
| Startswith (start : string)              (* lambda x, start=search_value[:-1]: x.startswith(start) *)
| Equals_search_value                      (* lambda x: x == search_value *)
| Any_token (original_matches : matcher).  (* lambda x, original_matches=matches: any(original_matches(v) for v in x.split()) *)

(** The loop variables of [render_get]; [None] while unbound. *)
Record frame : Type := mkFrame {
  search_key : option string;
  search_value : option value;
  matches : option matcher
}.

(** The two generator expressions a round can add. *)
Inductive stage : Type :=
| Stage_href     (* the one under [if search_key == 'href'] *)
| Stage_attr.    (* the one at the end of the loop body *)

Definition frame0 : frame := mkFrame None None None.

(** One round of [for search_value in search_values], for the current
    [search_key]. *)
Definition value_round (key : string) (st : frame * list stage) (sv : value)
  : frame * list stage :=
  let m :=
    match sv with
    | Some txt => if Py.endswith_star txt then Startswith (Py.drop_last txt)
                  else Equals_search_value
    | None => Equals_search_value
    end in
  let m := if in_names key ["if"; "rt"] then Any_token m else m in
  let f := mkFrame (Some key) (Some sv) (Some m) in
  if String.eqb key "href"
  then (f, snd st ++ [Stage_href])
  else (f, snd st ++ [Stage_attr]).

(** One round of [for search_key, search_values in query.items()]. *)
Definition key_round (st : frame * list stage) (kv : string * list value)
  : frame * list stage :=
  let f := mkFrame (Some (fst kv)) (search_value (fst st)) (matches (fst st)) in
  if in_names (fst kv) ["page"; "count"]
  then (f, snd st)                          (* continue: filtered last *)
  else fold_left (value_round (fst kv)) (snd kv) (f, snd st).

Definition filter_loop (q : query) : frame * list stage :=
  fold_left key_round q (frame0, []).

(** Calling a function bound to [matches], in the frame [f]. *)
Fixpoint call (f : frame) (m : matcher) (x : value) : exc bool :=
  match m with
  | Startswith start =>
      match x with
      | Some s => Ok (Py.startswith s start)
      | None => Raise AttributeError
      end
  | Equals_search_value =>
      match search_value f with
      | Some sv => Ok (value_eqb x sv)
      | None => Raise (NameError "search_value")
      end
  | Any_token original_matches =>
      match x with
      | Some s => Py.any (fun v => call f original_matches (Some v)) (Py.split s)
      | None => Raise AttributeError
      end
  end.

(** [matches(x)] and [search_key] as a generator condition reads them. *)
Definition call_matches (f : frame) (x : value) : exc bool :=
  match matches f with
  | Some m => call f m x
  | None => Raise (NameError "matches")
  end.

Definition read_search_key (f : frame) : exc string :=
  match search_key f with
  | Some k => Ok k
  | None => Raise (NameError "search_key")
  end.

(** [_link_matches(link, key, condition)]. *)
Definition _link_matches (link : Link.t) (key : string)
    (condition : value -> exc bool) : exc bool :=
  Py.any (fun kv => if String.eqb (fst kv) key then condition (snd kv)
                    else Ok false)
         (Link.attr_pairs link).

(** [search_key in c.registration_parameters and
     any(matches(x) for x in c.registration_parameters[search_key])]. *)
Definition params_match (f : frame) (c : Reg.t) : exc bool :=
  (let? k := read_search_key f in
   match q_get (Reg.registration_parameters c) k with
   | Some vs => Py.any (call_matches f) vs
   | None => Ok false
   end)%exc.

(** The conditions of the generator expressions of
    [EndpointLookupInterface.render_get]. *)
Definition ep_condition (f : frame) (st : stage) (c : Reg.t) : exc bool :=
  match st with
  | Stage_href =>
      Py.or_else
        (call_matches f (Some (Reg.href c)))
        (let? ls := get_based_links c in
         Py.any (fun r => call_matches f (Some (Link.href r))) ls)%exc
  | Stage_attr =>
      Py.or_else
        (params_match f c)
        (let? ls := get_based_links c in
         Py.any (fun r => let? k := read_search_key f in
                          _link_matches r k (call_matches f)) ls)%exc
  end.


(** A candidate pulled through the chain of generators: the conditions
    run in the order the generators were created, up to the first that
    rejects the candidate or raises. *)
Fixpoint passes {A} (cond : stage -> A -> exc bool) (stages : list stage) (c : A)
  : exc bool :=
  match stages with
  | [] => Ok true
  | st :: stages' =>
      match cond st c with
      | Ok true => passes cond stages' c
      | Ok false => Ok false
      | Raise e => Raise e
      end
  end.

(** [_paginate].  [candidates] is the outcome of running the generators,
    which happens at [list(candidates)], inside the [try]. *)
Definition _paginate {A} (candidates : exc (list A)) (q : query) : exc (list A) :=
  (let? (page, q) := pop_single_arg q "page" in
   let? (count, q) := pop_single_arg q "count" in
   try_except
     (let? candidates := candidates in
      let? candidates :=
        match page with
        | Some _ =>
            let? p := Py.int page in
            let? c := Py.int count in
            Ok (Py.slice_from candidates (p * c))
        | None => Ok candidates
        end in
      let? candidates :=
        match count with
        | Some _ => let? c := Py.int count in Ok (Py.slice_to candidates c)
        | None => Ok candidates
        end in
      Ok candidates)
     is_KeyError_or_ValueError
     (Raise (BadRequest "page requires count, and both must be ints")))%exc.

(** The endpoints that survive the filter of the endpoint view, before
    pagination. *)
Definition ep_filter (w : CommonRD) (q : query) : exc (list Reg.t) :=
  let (f, stages) := filter_loop q in
  Py.filter (passes (ep_condition f) stages) (get_endpoints w).

(** [EndpointLookupInterface.render_get], from the parsed query on; the
    result is the list handed to [LinkFormat]. *)
Definition ep_lookup (w : CommonRD) (q : query) : exc (list Link.t) :=
  (let? candidates := _paginate (ep_filter w q) q in
   map_exc get_host_link candidates)%exc.





End Lookup.

(* ------------------------------------------------------------------ *)
(** ** Vocabulary of the statements *)

(** [l1] is [l2] with some elements left out. *)
Inductive subseq {A} : list A -> list A -> Prop :=
| subseq_nil : subseq [] []
| subseq_skip x l1 l2 : subseq l1 l2 -> subseq l1 (x :: l2)
| subseq_keep x l1 l2 : subseq l1 l2 -> subseq (x :: l1) (x :: l2).

(** The events of calling the subscribers [cbs] one after the other. *)
Definition callback_events (cbs : list callback) : list event :=
  map (fun c => EvCallback (cb_id c)) cbs.

(** An operation that never ends in [BadRequest], whatever the directory. *)
Definition never_BadRequest {A} (c : M A) : Prop :=
  forall w, is_BadRequest (snd (c w)) = false.

(** A registration as [initialize_endpoint] installs it: the key and the
    path tail both lead to the object [r], whose path is the tail under
    the entity prefix, whose delete closure captured this tail and key,
    and whose base and task exist. *)
Definition installed (w : CommonRD) (key : Key) (tail : Path) (r : nat) : Prop :=
  by_key_get w key = Some r
  /\ by_path_get w tail = Some r
  /\ exists s, nth_error (objects w) r = Some s
               /\ Reg.path s = entity_prefix ++ tail
               /\ Reg._delete_cb s = (tail, key)
               /\ Reg.timeout s <> None
               /\ Reg.base s <> None.

(** The invariant of the directory: every entry of either map belongs to
    an installed registration, so that the two maps describe the same
    registrations. *)
Definition consistent (w : CommonRD) : Prop :=
  (forall key r, by_key_get w key = Some r -> exists tail, installed w key tail r)
  /\ (forall tail r, by_path_get w tail = Some r -> exists key, installed w key tail r).

(** What every step short of the two map updates preserves: the maps, and
    the identity of every object (its path and delete closure; a task and
    a base once they exist). *)
Definition keeps_identity (s s' : Reg.t) : Prop :=
  Reg.path s' = Reg.path s
  /\ Reg._delete_cb s' = Reg._delete_cb s
  /\ (Reg.timeout s <> None -> Reg.timeout s' <> None)
  /\ (Reg.base s <> None -> Reg.base s' <> None).

Definition extends (w w' : CommonRD) : Prop :=
  _by_key w' = _by_key w
  /\ _by_path w' = _by_path w
  /\ forall i s, nth_error (objects w) i = Some s ->
                 exists s', nth_error (objects w') i = Some s' /\ keeps_identity s s'.

Definition framed {A} (c : M A) : Prop :=
  forall w w' r, c w = (w', r) -> extends w w'.


(** The match of one search value against one string, in the words of the
    specification: a value ending in [*] is a prefix match on the stripped
    prefix, any other value is string equality; under the keys [if] and
    [rt] the string matches when one of its white-space separated tokens
    does. *)
Definition value_matchesb (sv x : string) : bool :=
  if Py.endswith_star sv then Py.startswith x (Py.drop_last sv)
  else String.eqb x sv.

Definition attribute_matchesb (k sv x : string) : bool :=
  if in_names k ["if"; "rt"] then existsb (value_matchesb sv) (Py.split x)
  else value_matchesb sv x.

Section Matching.
Variable urljoin : string -> string -> string.

(** An endpoint matches [k=sv]: under [href], its own href or the href
    of one of its resolved links matches; under another key, one of its
    registration parameter values for the key, or an attribute with
    that key of one of its resolved links. *)
Definition endpoint_matches (k sv : string) (c : Reg.t) : Prop :=
  if String.eqb k "href"
  then attribute_matchesb k sv (Reg.href c) = true
       \/ exists ls r, get_based_links urljoin c = Ok ls /\ In r ls
                       /\ attribute_matchesb k sv (Link.href r) = true
  else (exists vs x, q_get (Reg.registration_parameters c) k = Some vs
                     /\ In (Some x) vs /\ attribute_matchesb k sv x = true)
       \/ exists ls r x, get_based_links urljoin c = Ok ls /\ In r ls
                         /\ In (k, Some x) (Link.attr_pairs r)
                         /\ attribute_matchesb k sv x = true.

End Matching.

(* ------------------------------------------------------------------ *)
(** ** Sample directories and requests used by the closed statements *)

Module Sample.

(** A stand-in for [urljoin] that is right on the references used below:
    a reference starting with ["/"] replaces the path of a base of the
    form [scheme://authority/], any other reference is appended. *)
Definition urljoin (base ref : string) : string :=
  match ref with
  | String "/"%char ref' => (base ++ ref')%string
  | _ => (base ++ ref)%string
  end.

Definition node1 : remote := Some "coap://node1/".

(** Run an operation and keep the directory it leaves. *)
Definition after {A} (c : M A) (w : CommonRD) : CommonRD := fst (c w).

(** [POST /resourcedirectory/?ep=a&et=x] from node1, onto an empty
    directory. *)
Definition rd1 : CommonRD :=
  after (initialize_endpoint node1 (query_split ["ep=a"; "et=x"])) CommonRD_init.

(** The registration object of [rd1]. *)
Definition reg1 : Reg.t :=
  nth 0 (objects rd1) (Reg.mk [] [] ([], ("", None)) [] 0 false None None).

(** The same endpoint registers again. *)
Definition rd2 : CommonRD :=
  after (initialize_endpoint node1 (query_split ["ep=a"; "et=y"])) rd1.






(** A directory with one endpoint registered as [?ep=b&et=q&foo=z], and
    a query with two keys of which the endpoint matches the second
    only. *)
Definition rd_b : CommonRD :=
  after (initialize_endpoint node1 (query_split ["ep=b"; "et=q"; "foo=z"]))
        CommonRD_init.
Definition et_x_foo_z : query := [("et", [Some "x"]); ("foo", [Some "z"])].

(** A directory with two subscribers, the first of which raises. *)
Definition rd_subs : CommonRD :=
  after (register_change_callback (mkCallback 0 true) ;;
         register_change_callback (mkCallback 1 false)) CommonRD_init.

(** Two registration updates on [rd1]: a new lifetime from the same
    origin, and the stored lifetime from another origin. *)
Definition lt60 : query := [("lt", [Some "60"])].
Definition lt90000 : query := [("lt", [Some "90000"])].
Definition node2 : remote := Some "coap://node2/".
Definition rd1_lt60 : CommonRD := after (update_params 0 node1 lt60 false) rd1.
Definition rd1_moved : CommonRD := after (update_params 0 node2 lt90000 false) rd1.

End Sample.

From Stdlib Require DecimalZ DecimalPos.

(* ------------------------------------------------------------------ *)
(** ** The resources of the site *)

(** The content formats [link_format_from_message] tells apart: the three
    entries of [media_types_rev] it names, and any other number. *)
Inductive content_format : Type :=
| Link_format          (* media_types_rev['application/link-format'] *)
| Link_format_json     (* media_types_rev['application/link-format+json'] *)
| Link_format_cbor     (* media_types_rev['application/link-format+cbor'] *)
| Other_format.

(** The request codes for which [RegistrationResource] defines a
    [render_] method; [Resource.render] ([aiocoap.resource]) calls the
    method named after the code of the request. *)
Inductive method : Type := GET | POST | PUT | DELETE.

Module Message.

(** A request, as far as the handlers read it. *)
Record t : Type := mk {
  code : method;
  remote : remote;                          (* message.remote, through its .uri *)
  uri_path : Path;                          (* message.opt.uri_path *)
  uri_query : list string;                  (* message.opt.uri_query *)
  content_format : option content_format;   (* message.opt.content_format *)
  payload : string                          (* message.payload *)
}.

(** [request.copy(uri_path=path)]. *)
Definition copy_uri_path (m : t) (path : Path) : t :=
  mk (code m) (remote m) path (uri_query m) (content_format m) (payload m).

End Message.

(** The responses the handlers build:
    [aiocoap.Message(code=CREATED, location_path=...)],
    [aiocoap.Message(code=CHANGED)] and [aiocoap.Message(code=DELETED)]. *)
Inductive reply : Type :=
| CREATED (location_path : Path)
| CHANGED
| DELETED.

(** What a handler can raise: an exception of the registry, or
    [aiocoap.error.UnsupportedMediaType]. *)
Inductive raised : Type :=
| Exn (e : exn)
| UnsupportedMediaType.

Inductive result (A : Type) : Type :=
| Returned (a : A)
| Raised (e : raised).
Arguments Returned {A} a.
Arguments Raised {A} e.

(** A handler runs on the directory and leaves it as it is when it
    returns or raises. *)
Definition Handler (A : Type) : Type := CommonRD -> CommonRD * result A.

Definition hret {A} (a : A) : Handler A := fun w => (w, Returned a).
Definition hraise {A} (e : raised) : Handler A := fun w => (w, Raised e).
Definition hlift {A} (r : result A) : Handler A := fun w => (w, r).
Definition hbind {A B} (c : Handler A) (k : A -> Handler B) : Handler B :=
  fun w =>
    match c w with
    | (w', Returned a) => k a w'
    | (w', Raised e) => (w', Raised e)
    end.

(** A call into the registry from a handler. *)
Definition run {A} (c : M A) : Handler A :=
  fun w =>
    match c w with
    | (w', Ok a) => (w', Returned a)
    | (w', Raise e) => (w', Raised (Exn e))
    end.

Declare Scope site_scope.
Delimit Scope site_scope with site.
Notation "x <- c ;; k" := (hbind c (fun x => k))
  (at level 61, c at next level, right associativity) : site_scope.
Notation "c ;; k" := (hbind c (fun _ => k))
  (at level 61, right associativity) : site_scope.

Section Site.

(** The decoders of the three link formats ([parse],
    [LinkFormat.from_json_string] and [LinkFormat.from_cbor_bytes], all
    outside [rd.py]) on a payload; [None] when the decoder raises
    [UnicodeDecodeError] or [link_header.ParseException].  The decoders
    are a parameter of the development. *)
Variable decode : content_format -> string -> option (list Link.t).

(** [link_format_from_message]: the [except] clause turns the two decoding
    errors into [BadRequest()]; the [UnsupportedMediaType] of the [else]
    branch passes through it. *)
Definition link_format_from_message (message : Message.t) : result (list Link.t) :=
  match Message.content_format message with
  | Some Link_format =>
      match decode Link_format (Message.payload message) with
      | Some links => Returned links
      | None => Raised (Exn (BadRequest ""))
      end
  | Some Link_format_json =>
      match decode Link_format_json (Message.payload message) with
      | Some links => Returned links
      | None => Raised (Exn (BadRequest ""))
      end
  | Some Link_format_cbor =>
      match decode Link_format_cbor (Message.payload message) with
      | Some links => Returned links
      | None => Raised (Exn (BadRequest ""))
      end
  | _ => Raised UnsupportedMediaType
  end.

(** [DirectoryResource.render_post]. *)
Definition DirectoryResource_render_post (request : Message.t) : Handler reply :=
  (links <- hlift (link_format_from_message request) ;;
   let registration_parameters := query_split (Message.uri_query request) in
   regresource <- run (initialize_endpoint (Message.remote request)
                                           registration_parameters) ;;
   run (set_links regresource links) ;;
   s <- run (get_obj regresource) ;;
   hret (CREATED (Reg.path s)))%site.

(** [RegistrationResource._update_params]. *)
Definition RegistrationResource__update_params (reg : nat) (msg : Message.t)
  : M unit :=
  let query := query_split (Message.uri_query msg) in
  update_params reg (Message.remote msg) query false.

(** [RegistrationResource.render_get]: the call
    [link_format_from_message(request, self.reg.links)] passes two
    arguments to a function of one parameter. *)
Definition RegistrationResource_render_get (reg : nat) (request : Message.t)
  : Handler reply :=
  hraise (Exn TypeError).

(** [request.opt.content_format is not None or request.payload]. *)
Definition has_body (request : Message.t) : bool :=
  match Message.content_format request with
  | Some _ => true
  | None => negb (String.eqb (Message.payload request) "")
  end.

(** [RegistrationResource.render_post]: the update comes first, the test
    for a body second. *)
Definition RegistrationResource_render_post (reg : nat) (request : Message.t)
  : Handler reply :=
  (run (RegistrationResource__update_params reg request) ;;
   if has_body request
   then hraise (Exn (BadRequest "Registration update with body not specified"))
   else hret CHANGED)%site.

(** [RegistrationResource.render_put]. *)
Definition RegistrationResource_render_put (reg : nat) (request : Message.t)
  : Handler reply :=
  (links <- hlift (link_format_from_message request) ;;
   run (RegistrationResource__update_params reg request) ;;
   run (set_links reg links) ;;
   hret CHANGED)%site.

(** [RegistrationResource.render_delete]. *)
Definition RegistrationResource_render_delete (reg : nat) (request : Message.t)
  : Handler reply :=
  (run (delete reg) ;;
   hret DELETED)%site.

(** [entity.render(request)] on a [RegistrationResource]. *)
Definition RegistrationResource_render (reg : nat) (request : Message.t) : Handler reply :=
  match Message.code request with
  | GET => RegistrationResource_render_get reg request
  | POST => RegistrationResource_render_post reg request
  | PUT => RegistrationResource_render_put reg request
  | DELETE => RegistrationResource_render_delete reg request
  end.

(** [RegistrationDispatchSite.render]. *)
Definition RegistrationDispatchSite_render (request : Message.t) : Handler reply :=
  (entity <- run (dispatch (Message.uri_path request)) ;;
   RegistrationResource_render entity (Message.copy_uri_path request []))%site.

End Site.

(* ------------------------------------------------------------------ *)
(** ** Utilities ([aiocoap/util/__init__.py]) *)

Module Util.

(** [':' in host]. *)
Fixpoint has_colon (s : string) : bool :=
  match s with
  | EmptyString => false
  | String c s' => Ascii.eqb c ":"%char || has_colon s'
  end.

(** ["%d" % n], which is also [int.__str__(n)]: the decimal digits of an
    integer, after a minus sign when it is negative. *)
Definition format_d (n : Z) : string := NilZero.string_of_int (Z.to_int n).

(** [hostportjoin(host, port=None)]. *)
Definition hostportjoin (host : string) (port : option Z) : string :=
  let host := if has_colon host then ("[" ++ host ++ "]")%string else host in
  match port with
  | None => host
  | Some port => (host ++ ":" ++ format_d port)%string
  end.

(** *** [ExtensibleEnumMeta] and [ExtensibleIntEnum]

    The instances of a class live in a store indexed by identity, like
    the registrations of the directory: [_value2member_map_] and the
    attributes of the class hold identities. *)

(** An instance: its integer value and its [name] attribute, which does
    not exist until [ExtensibleEnumMeta.__init__] sets it. *)
Record member : Type := mkMember { value_of : Z; name : option string }.

(** A class whose metaclass is [ExtensibleEnumMeta]. *)
Record enum : Type := mkEnum {
  _value2member_map_ : Dict.t Z nat;
  attributes : Dict.t string nat;      (* what setattr(self, k, instance) has bound *)
  members : list member                (* every instance ever constructed *)
}.

(** The argument of a call of the class: an integer, or an instance of
    the class. *)
Inductive argument : Type :=
| Int (n : Z)
| Instance (m : nat).

(** [ExtensibleEnumMeta.__call__]: the class after the call and the
    instance returned. *)
Definition __call__ (self : enum) (value : argument) : enum * nat :=
  match value with
  | Instance m => (self, m)                     (* isinstance(value, self) *)
  | Int n =>
      match Dict.get Z.eqb (_value2member_map_ self) n with
      | Some m => (self, m)
      | None =>
          let m := List.length (members self) in
          (mkEnum (Dict.set Z.eqb (_value2member_map_ self) n m)
                  (attributes self)
                  (members self ++ [mkMember n None]), m)
      end
  end.

(** An entry of the class body, as the loop of
    [ExtensibleEnumMeta.__init__] tells them apart: a callable, a
    property, or a value the class is called on, here an integer. *)
Inductive entry : Type :=
| Callable
| Property
| Number (n : Z).

(** One round of the loop of [ExtensibleEnumMeta.__init__]. *)
Definition __init___round (self : enum) (kv : string * entry) : enum :=
  let (k, v) := kv in
  if Py.startswith k "_" then self
  else match v with
       | Callable => self
       | Property => self
       | Number n =>
           let (self, instance) := __call__ self (Int n) in
           (* instance.name = k *)
           let members' :=
             match nth_error (members self) instance with
             | Some i => list_set (members self) instance (mkMember (value_of i) (Some k))
             | None => members self
             end in
           (* setattr(self, k, instance) *)
           mkEnum (_value2member_map_ self)
                  (Dict.set String.eqb (attributes self) k instance)
                  members'
       end.

(** [ExtensibleEnumMeta.__init__] on the body of a new class. *)
Definition __init__ (dict : list (string * entry)) : enum :=
  fold_left __init___round dict (mkEnum [] [] []).

(** [ExtensibleIntEnum.__add__]: [type(self)(int(self) + delta)]. *)
Definition __add__ (cls : enum) (self : nat) (delta : Z) : exc (enum * nat) :=
  match nth_error (members cls) self with
  | Some i => Ok (__call__ cls (Int (value_of i + delta)))
  | None => Raise ReferenceError
  end.


End Util.

(* ------------------------------------------------------------------ *)
(** ** Vocabulary of the further properties *)

(** The key and the value [query_split] reads from one query option. *)
Definition option_pair (q : string) : string * value :=
  match split_eq q with
  | None => (q, None)
  | Some (k, v) => (k, Some v)
  end.

(** The values the options of a request give for the key [k], in the
    order of the options. *)
Definition values_of (k : string) (uri_query : list string) : list value :=
  map snd (List.filter (fun kv => String.eqb k (fst kv)) (map option_pair uri_query)).

(** The keys of a sequence in the order of their first occurrence, left
    of the keys already [seen]. *)
Fixpoint first_seen (seen : list string) (ks : list string) : list string :=
  match ks with
  | [] => []
  | k :: ks' =>
      if in_names k seen then first_seen seen ks'
      else k :: first_seen (seen ++ [k]) ks'
  end.

(** No subscriber of the directory raises. *)
Definition quiet (w : CommonRD) : bool :=
  forallb (fun cb => negb (cb_raises cb)) (_updated_state_cb w).

(** The task of a registration is pending: it exists and has not been
    cancelled. *)
Definition live (s : Reg.t) : bool :=
  match Reg.timeout s with
  | Some t => negb (cancelled t)
  | None => false
  end.

(** The second half of [initialize_endpoint], from the construction of
    the [Registration] on, for the key and path the first half has
    chosen. *)
Definition install (ep_and_d : query) (network_remote : remote)
    (registration_parameters : query) (path : Path) (key : Key) : M nat :=
  reg <- Registration_new ep_and_d (entity_prefix ++ path) network_remote
                          (path, key) registration_parameters ;;
  w <- get_rd ;;
  set_by_key (Dict.set key_eqb (_by_key w) key reg) ;;
  w <- get_rd ;;
  set_by_path (Dict.set path_eqb (_by_path w) path reg) ;;
  ret reg.

(** The directory with other objects and another trace. *)
Definition with_objects (w : CommonRD) (objs : list Reg.t) (tr : list event)
  : CommonRD :=
  mkRD (_by_key w) (_by_path w) (_updated_state_cb w) objs tr.

(** The invariant of a directory whose subscribers do not raise: the two
    maps are consistent and hold every key and path once, and the
    registrations they hold are exactly the objects whose task is
    pending, each under the path and key its delete closure captured. *)
Definition healthy (w : CommonRD) : Prop :=
  consistent w
  /\ NoDup (Dict.keys (_by_key w))
  /\ NoDup (Dict.keys (_by_path w))
  /\ (forall i s, nth_error (objects w) i = Some s -> live s = true ->
                  installed w (snd (Reg._delete_cb s)) (fst (Reg._delete_cb s)) i)
  /\ (forall key tail r, installed w key tail r ->
                         exists s, nth_error (objects w) r = Some s /\ live s = true)
  /\ quiet w = true.

(** A change of the directory that leaves the maps and the subscribers
    alone, keeps the path, the delete closure and the state of the task of
    every object, never removes a task or a base, and adds only objects
    without a pending task. *)
Definition same_tasks (w w' : CommonRD) : Prop :=
  _by_key w' = _by_key w
  /\ _by_path w' = _by_path w
  /\ _updated_state_cb w' = _updated_state_cb w
  /\ (forall i s, nth_error (objects w) i = Some s ->
                  exists s', nth_error (objects w') i = Some s'
                             /\ Reg.path s' = Reg.path s
                             /\ Reg._delete_cb s' = Reg._delete_cb s
                             /\ live s' = live s
                             /\ (Reg.timeout s <> None -> Reg.timeout s' <> None)
                             /\ (Reg.base s <> None -> Reg.base s' <> None))
  /\ (forall i s', nth_error (objects w') i = Some s' ->
                   nth_error (objects w) i = None -> live s' = false).

(** What the assignments of a returning [update_params] have
    established. *)
Definition settled (s1 : Reg.t) (c : checked) : Prop :=
  (forall n, set_lt c = Some n -> Reg.lt s1 = n)
  /\ (forall b, set_base c = Some b -> Reg.base s1 = Some b)
  /\ (Reg.base_is_explicit s1 = false ->
      exists nb, network_base c = Some nb /\ Reg.base s1 = Some nb)
  /\ params_differ s1 (rest c) = false.

Section Reachable.
Variable decode : content_format -> string -> option (list Link.t).

(** One step of the site: a subscriber that does not raise is added, a
    request is handled by the directory resource or by the registration
    site, or the sleep of the task of some registration ends. *)
Inductive site_step (w : CommonRD) : CommonRD -> Prop :=
| step_subscribe cb :
    cb_raises cb = false ->
    site_step w (fst (register_change_callback cb w))
| step_register request :
    site_step w (fst (DirectoryResource_render_post decode request w))
| step_entity request :
    site_step w (fst (RegistrationDispatchSite_render decode request w))
| step_expire self :
    site_step w (fst (expire self w)).

(** The directories the site can get into, from [CommonRD()]. *)
Inductive reachable : CommonRD -> Prop :=
| reachable_init : reachable CommonRD_init
| reachable_step w w' : reachable w -> site_step w w' -> reachable w'.

End Reachable.

(** Every character of [s] satisfies [P]. *)
Fixpoint every_char (P : ascii -> bool) (s : string) : bool :=
  match s with
  | EmptyString => true
  | String c s' => P c && every_char P s'
  end.

(** The characters of ["%d" % n]: digits and the minus sign. *)
Definition decimal_char (c : ascii) : bool := Py.isdigit c || Ascii.eqb c "-"%char.

(** The invariant of a class of [ExtensibleEnumMeta]: an entry of
    [_value2member_map_] leads to an instance with the value of the
    entry, and every instance is the entry of its value. *)
Definition interned (c : Util.enum) : Prop :=
  (forall n m, Dict.get Z.eqb (Util._value2member_map_ c) n = Some m ->
               exists i, nth_error (Util.members c) m = Some i /\ Util.value_of i = n)
  /\ (forall m i, nth_error (Util.members c) m = Some i ->
                  Dict.get Z.eqb (Util._value2member_map_ c) (Util.value_of i) = Some m).

(** The last name a class body gives to the number [n], among the names
    without a leading underscore. *)
Definition last_name (dict : list (string * Util.entry)) (n : Z) : option string :=
  fold_left
    (fun acc kv =>
       match snd kv with
       | Util.Number n' =>
           if negb (Py.startswith (fst kv) "_") && (n' =? n)%Z then Some (fst kv)
           else acc
       | _ => acc
       end)
    dict None.

(* ------------------------------------------------------------------ *)
(** ** Sample requests used by the closed statements *)

Module Scenario.

(** A stand-in for the decoders: the payload ["</sensor>"] in link format
    is the one link [/sensor], the empty payload is no link, anything
    else is rejected. *)
Definition decode (cf : content_format) (payload : string) : option (list Link.t) :=
  match cf with
  | Link_format =>
      if String.eqb payload "</sensor>" then Some [Link.mk "/sensor" []]
      else if String.eqb payload "" then Some []
      else None
  | _ => None
  end.

(** [POST /resourcedirectory/?ep=a&et=x] from node1 with the payload
    ["</sensor>"]. *)
Definition register_a : Message.t :=
  Message.mk POST Sample.node1 [] ["ep=a"; "et=x"] (Some Link_format) "</sensor>".

(** The directory after this request on an empty directory. *)
Definition rd_a : CommonRD :=
  fst (DirectoryResource_render_post decode register_a CommonRD_init).

(** Requests on the registration resource [/reg/1/]. *)
Definition update_lt60 : Message.t :=
  Message.mk POST Sample.node1 ["1"; ""] ["lt=60"] None "".
Definition update_lt60_with_body : Message.t :=
  Message.mk POST Sample.node1 ["1"; ""] ["lt=60"] (Some Link_format) "</sensor>".
Definition put_no_links : Message.t :=
  Message.mk PUT Sample.node1 ["1"; ""] [] (Some Link_format) "".
Definition delete_1 : Message.t :=
  Message.mk DELETE Sample.node1 ["1"; ""] [] None "".

(** [Sample.rd1] after a subscriber that raises has been added. *)
Definition rd1_faulty : CommonRD :=
  fst (register_change_callback (mkCallback 0 true) Sample.rd1).

(** A registration update on [Sample.rd1] that repeats the base the
    directory had derived from the origin of the registration. *)
Definition lt60_same_base : query := query_split ["lt=60"; "base=coap://node1/"].

(** The body of a class of [ExtensibleIntEnum] with a private number, two
    names for the number 3 and a method. *)
Definition numbers : list (string * Util.entry) :=
  [("_reserved", Util.Number 0); ("IF_MATCH", Util.Number 1);
   ("URI_HOST", Util.Number 3); ("is_critical", Util.Callable);
   ("HOST", Util.Number 3)].

End Scenario.

(* ================================================================== *)
(** * Properties *)

Unset Implicit Arguments.

(** ** Equality tests *)

Lemma option_eqb_eq {A} (eqb : A -> A -> bool)
  (eqb_eq : forall a b, eqb a b = true <-> a = b) (x y : option A) :
  option_eqb eqb x y = true <-> x = y.
Proof.
  destruct x as [a|], y as [b|]; simpl; try (split; congruence).
  rewrite eqb_eq. split; congruence.
Qed.

Lemma list_eqb_eq {A} (eqb : A -> A -> bool)
  (eqb_eq : forall a b, eqb a b = true <-> a = b) (l1 l2 : list A) :
  list_eqb eqb l1 l2 = true <-> l1 = l2.
Proof.
  revert l2. induction l1 as [|a l1 IH]; intros [|b l2]; simpl;
    try (split; congruence).
  rewrite andb_true_iff, eqb_eq, IH. split.
  - intros [-> ->]. reflexivity.
  - intros H. injection H as -> ->. auto.
Qed.

Lemma value_eqb_eq (x y : value) : value_eqb x y = true <-> x = y.
Proof. apply option_eqb_eq, String.eqb_eq. Qed.

Lemma values_eqb_eq (x y : list value) : values_eqb x y = true <-> x = y.
Proof. apply list_eqb_eq, value_eqb_eq. Qed.

Lemma key_eqb_eq (a b : Key) : key_eqb a b = true <-> a = b.
Proof.
  destruct a as [e1 d1], b as [e2 d2]. unfold key_eqb. simpl.
  rewrite andb_true_iff, String.eqb_eq, value_eqb_eq. split.
  - intros [-> ->]. reflexivity.
  - intros H. injection H as -> ->. auto.
Qed.

Lemma path_eqb_eq (a b : Path) : path_eqb a b = true <-> a = b.
Proof. apply list_eqb_eq, String.eqb_eq. Qed.

(** ** Dictionaries *)

Section DictFacts.
Variables K V : Type.
Variable eqb : K -> K -> bool.
Hypothesis eqb_eq : forall a b, eqb a b = true <-> a = b.

Lemma eqb_refl k : eqb k k = true.
Proof. apply eqb_eq. reflexivity. Qed.

Lemma eqb_neq a b : a <> b -> eqb a b = false.
Proof.
  intros H. destruct (eqb a b) eqn:E; [|reflexivity].
  apply eqb_eq in E. contradiction.
Qed.

Lemma get_remove_same (d : Dict.t K V) k :
  Dict.get eqb (Dict.remove eqb d k) k = None.
Proof.
  induction d as [|[k' v] d IH]; simpl; [reflexivity|].
  destruct (eqb k k') eqn:E; simpl; [exact IH|].
  rewrite E. exact IH.
Qed.

Lemma get_remove_other (d : Dict.t K V) k k' :
  k <> k' -> Dict.get eqb (Dict.remove eqb d k) k' = Dict.get eqb d k'.
Proof.
  intros Hne. induction d as [|[k0 v] d IH]; simpl; [reflexivity|].
  destruct (eqb k k0) eqn:E; simpl.
  - apply eqb_eq in E. subst k0.
    rewrite (eqb_neq _ _ (not_eq_sym Hne)). exact IH.
  - destruct (eqb k' k0); [reflexivity|exact IH].
Qed.

Lemma get_set_same (d : Dict.t K V) k v :
  Dict.get eqb (Dict.set eqb d k v) k = Some v.
Proof.
  induction d as [|[k' v'] d IH]; simpl.
  - rewrite eqb_refl. reflexivity.
  - destruct (eqb k k') eqn:E; simpl; rewrite E; [reflexivity|exact IH].
Qed.

Lemma get_set_other (d : Dict.t K V) k k' v :
  k <> k' -> Dict.get eqb (Dict.set eqb d k v) k' = Dict.get eqb d k'.
Proof.
  intros Hne. induction d as [|[k0 v0] d IH]; simpl.
  - rewrite (eqb_neq _ _ (not_eq_sym Hne)). reflexivity.
  - destruct (eqb k k0) eqn:E; simpl.
    + apply eqb_eq in E. subst k0.
      rewrite (eqb_neq _ _ (not_eq_sym Hne)). reflexivity.
    + destruct (eqb k' k0); [reflexivity|exact IH].
Qed.

Lemma get_In (d : Dict.t K V) k v : Dict.get eqb d k = Some v -> In (k, v) d.
Proof.
  induction d as [|[k' v'] d IH]; simpl; [discriminate|].
  destruct (eqb k k') eqn:E.
  - apply eqb_eq in E. subst k'. intros [= ->]. left. reflexivity.
  - intros H. right. auto.
Qed.

Lemma mem_keys (d : Dict.t K V) k :
  Dict.mem eqb d k = true <-> In k (Dict.keys d).
Proof.
  unfold Dict.mem. induction d as [|[k' v'] d IH]; simpl.
  - split; [discriminate|contradiction].
  - destruct (eqb k k') eqn:E.
    + apply eqb_eq in E. subst k'. split; auto.
    + rewrite IH. split; [auto|].
      intros [->|H]; [|exact H]. rewrite eqb_refl in E. discriminate.
Qed.

Lemma In_remove (d : Dict.t K V) k k' v :
  In (k', v) (Dict.remove eqb d k) <-> In (k', v) d /\ k <> k'.
Proof.
  unfold Dict.remove. rewrite filter_In. simpl. split.
  - intros [H E]. split; [exact H|]. intros ->.
    rewrite eqb_refl in E. discriminate.
  - intros [H E]. split; [exact H|]. rewrite (eqb_neq _ _ E). reflexivity.
Qed.

(** After [d[k] = v] on a dictionary without [k], the only entry under
    [k] is the new one. *)
Lemma In_set_fresh (d : Dict.t K V) k v v' :
  Dict.get eqb d k = None -> In (k, v') (Dict.set eqb d k v) -> v' = v.
Proof.
  induction d as [|[k0 v0] d IH]; simpl.
  - intros _ [[= ->]|[]]. reflexivity.
  - destruct (eqb k k0) eqn:E; [discriminate|].
    intros Hget [[= -> ->]|H].
    + rewrite eqb_refl in E. discriminate.
    + auto.
Qed.
End DictFacts.

(** ** Single-valued arguments *)

Lemma pop_single_arg_absent (q : query) name :
  q_get q name = None -> pop_single_arg q name = Ok (None, q).
Proof. unfold pop_single_arg. intros ->. reflexivity. Qed.

Lemma pop_single_arg_single (q : query) name v :
  q_get q name = Some [v] ->
  pop_single_arg q name = Ok (v, Dict.remove String.eqb q name).
Proof. unfold pop_single_arg. intros ->. reflexivity. Qed.

(** Whenever a key holds more than one value, [pop_single_arg] ends in the
    [NameError] of its [raise] statement and pops nothing. *)
Lemma pop_single_arg_multiple (q : query) name v1 v2 vs :
  q_get q name = Some (v1 :: v2 :: vs) ->
  pop_single_arg q name = Raise (NameError "BadRequest").
Proof. unfold pop_single_arg. intros ->. reflexivity. Qed.

(** The only exceptions [pop_single_arg] can raise. *)
Lemma pop_single_arg_not_BadRequest (q : query) name :
  is_BadRequest (pop_single_arg q name) = false.
Proof.
  unfold pop_single_arg. destruct (q_get q name) as [[|v [|v' vs]]|]; reflexivity.
Qed.

(** C10: a single-valued parameter carrying two values makes the operation
    fail before any state change, but the failure is the [NameError] of
    [pop_single_arg] (the module never binds the name [BadRequest]), not a
    [BadRequest]: shown for [ep] in [initialize_endpoint], [lt] in
    [update_params] and [count] in [_paginate]. *)
Theorem multiple_values_raise_NameError :
  initialize_endpoint Sample.node1 (query_split ["ep=a"; "ep=b"]) CommonRD_init
    = (CommonRD_init, Raise (NameError "BadRequest"))
  /\ update_params 0 Sample.node1 (query_split ["lt=60"; "lt=61"]) false Sample.rd1
    = (Sample.rd1, Raise (NameError "BadRequest"))
  /\ _paginate (Ok [1; 2; 3]%nat) (query_split ["count=1"; "count=2"])
    = Raise (NameError "BadRequest").
Proof. repeat apply conj; vm_compute; reflexivity. Qed.

(** ** Pagination *)

Section Paginate.
Variable A : Type.
Variable candidates : list A.

(** [count] alone, a non-negative integer: the first [count] candidates. *)
Lemma paginate_count_only (q : query) txt n :
  q_get q "page" = None ->
  q_get q "count" = Some [Some txt] ->
  Py.parse_int txt = Some n -> (0 <= n)%Z ->
  _paginate (Ok candidates) q = Ok (firstn (Z.to_nat n) candidates).
Proof.
  intros Hp Hc Hn Hpos. unfold _paginate.
  rewrite (pop_single_arg_absent _ _ Hp). simpl.
  rewrite (pop_single_arg_single _ _ _ Hc). simpl. rewrite Hn. simpl.
  unfold Py.slice_to.
  destruct (n <? 0)%Z eqn:E; [apply Z.ltb_lt in E; lia|].
  f_equal.
  destruct (Z.min_spec n (Z.of_nat (List.length candidates))) as [[_ ->]|[H ->]].
  - reflexivity.
  - rewrite Nat2Z.id, firstn_all.
    symmetry. apply firstn_all2. lia.
Qed.

(** [page] and [count], both non-negative integers: the slice
    [[page*count, page*count+count)]. *)
Lemma paginate_page_count (q : query) ptxt ctxt p c :
  q_get q "page" = Some [Some ptxt] ->
  q_get q "count" = Some [Some ctxt] ->
  Py.parse_int ptxt = Some p -> Py.parse_int ctxt = Some c ->
  (0 <= p)%Z -> (0 <= c)%Z ->
  _paginate (Ok candidates) q
  = Ok (firstn (Z.to_nat c) (skipn (Z.to_nat (p * c)) candidates)).
Proof.
  intros Hp Hc Hpn Hcn Hp0 Hc0. unfold _paginate.
  rewrite (pop_single_arg_single _ _ _ Hp). simpl.
  assert (Hc' : q_get (Dict.remove String.eqb q "page") "count" = Some [Some ctxt]).
  { unfold q_get. rewrite (get_remove_other _ _ _ String.eqb_eq); [exact Hc|discriminate]. }
  rewrite (pop_single_arg_single _ _ _ Hc'). simpl. rewrite Hpn, Hcn. simpl.
  f_equal. unfold Py.slice_to, Py.slice_from.
  destruct (p * c <? 0)%Z eqn:E; [apply Z.ltb_lt in E; nia|].
  destruct (c <? 0)%Z eqn:E'; [apply Z.ltb_lt in E'; lia|].
  set (n := List.length candidates).
  assert (Hskip : skipn (Z.to_nat (Z.min (p * c) (Z.of_nat n))) candidates
                  = skipn (Z.to_nat (p * c)) candidates).
  { destruct (Z.min_spec (p * c) (Z.of_nat n)) as [[_ ->]|[H ->]]; [reflexivity|].
    rewrite Nat2Z.id. unfold n. rewrite skipn_all.
    symmetry. apply skipn_all2. lia. }
  rewrite Hskip.
  set (l := skipn (Z.to_nat (p * c)) candidates).
  destruct (Z.min_spec c (Z.of_nat (List.length l))) as [[_ ->]|[H ->]].
  - reflexivity.
  - rewrite Nat2Z.id, firstn_all. symmetry. apply firstn_all2. lia.
Qed.

(** A [page] or [count] that is given but is not an integer:
    [BadRequest]. *)
Lemma paginate_count_not_int (q : query) txt :
  q_get q "page" = None ->
  q_get q "count" = Some [Some txt] ->
  Py.parse_int txt = None ->
  _paginate (Ok candidates) q
  = Raise (BadRequest "page requires count, and both must be ints").
Proof.
  intros Hp Hc Hn. unfold _paginate.
  rewrite (pop_single_arg_absent _ _ Hp). simpl.
  rewrite (pop_single_arg_single _ _ _ Hc). simpl. rewrite Hn. reflexivity.
Qed.

Lemma paginate_page_not_int (q : query) txt count q' :
  q_get q "page" = Some [Some txt] ->
  pop_single_arg (Dict.remove String.eqb q "page") "count" = Ok (count, q') ->
  Py.parse_int txt = None ->
  _paginate (Ok candidates) q
  = Raise (BadRequest "page requires count, and both must be ints").
Proof.
  intros Hp Hc Hn. unfold _paginate.
  rewrite (pop_single_arg_single _ _ _ Hp). simpl.
  rewrite Hc. simpl. rewrite Hn. reflexivity.
Qed.

(** An integer [page] without [count]: [int(count)] is [int(None)], a
    [TypeError], which the handler for [KeyError] and [ValueError] lets
    through. *)
Lemma paginate_page_without_count (q : query) txt p :
  q_get q "page" = Some [Some txt] ->
  q_get q "count" = None ->
  Py.parse_int txt = Some p ->
  _paginate (Ok candidates) q = Raise TypeError.
Proof.
  intros Hp Hc Hn. unfold _paginate.
  rewrite (pop_single_arg_single _ _ _ Hp). simpl.
  assert (Hc' : q_get (Dict.remove String.eqb q "page") "count" = None).
  { unfold q_get. rewrite (get_remove_other _ _ _ String.eqb_eq); [exact Hc|discriminate]. }
  rewrite (pop_single_arg_absent _ _ Hc'). simpl. rewrite Hn. reflexivity.
Qed.
End Paginate.

(** C2: with five candidates, [page=1] and no [count], [_paginate] raises
    [TypeError] where the specification (and the text of the handler,
    "page requires count") calls for [BadRequest]. *)
Theorem page_without_count_raises_TypeError :
  _paginate (Ok [0; 1; 2; 3; 4]%nat) (query_split ["page=1"]) = Raise TypeError.
Proof. vm_compute. reflexivity. Qed.

(** The five candidates of the specification: [page=1&count=2] gives the
    indices 2 and 3, [count=2] the indices 0 and 1.  A negative [count]
    is a slice bound counted from the end. *)
Lemma paginate_examples :
  _paginate (Ok [0; 1; 2; 3; 4]%nat) (query_split ["page=1"; "count=2"]) = Ok [2; 3]%nat
  /\ _paginate (Ok [0; 1; 2; 3; 4]%nat) (query_split ["count=2"]) = Ok [0; 1]%nat
  /\ _paginate (Ok [0; 1; 2; 3; 4]%nat) (query_split ["count=-1"])
     = Ok [0; 1; 2; 3]%nat.
Proof. repeat apply conj; vm_compute; reflexivity. Qed.

(** ** The trace *)

Lemma log_log evs1 evs2 w : log evs2 (log evs1 w) = log (evs1 ++ evs2) w.
Proof. unfold log. simpl. rewrite app_assoc. reflexivity. Qed.

Lemma log_nil w : log [] w = w.
Proof. destruct w. unfold log. simpl. rewrite app_nil_r. reflexivity. Qed.

(** ** Host links *)

(** What [get_host_link] builds for a registration with a base: the href
    of the registration, one pair per value per key of the registration
    parameters in dictionary order, then [base] and the [rt] written in the
    source, ["coire.rd-ep"]. *)
Lemma get_host_link_spec (s : Reg.t) b :
  Reg.base s = Some b ->
  get_host_link s
  = Ok (Link.mk (Reg.href s)
          (flat_map (fun kvs => map (fun v => (fst kvs, v)) (snd kvs))
                    (Reg.registration_parameters s)
           ++ [("base", Some b); ("rt", Some "coire.rd-ep")])).
Proof. unfold get_host_link. intros ->. reflexivity. Qed.

(** C4: the host link of the registration made by
    [?ep=a&et=x] from [coap://node1/] has the href, the attribute pairs and
    the base the specification describes, but its [rt] is ["coire.rd-ep"];
    no attribute [rt="core.rd-ep"] is present. *)
Theorem host_link_rt_is_misspelled :
  exists s l,
    nth_error (objects Sample.rd1) 0 = Some s
    /\ get_host_link s = Ok l
    /\ l = Link.mk "/reg/1/"
             [("ep", Some "a"); ("et", Some "x");
              ("base", Some "coap://node1/"); ("rt", Some "coire.rd-ep")]
    /\ ~ In ("rt", Some "core.rd-ep") (Link.attr_pairs l).
Proof.
  eexists. eexists. split; [vm_compute; reflexivity|].
  split; [vm_compute; reflexivity|]. split; [reflexivity|].
  simpl. intros H. repeat (destruct H as [H|H]; [discriminate H|]). exact H.
Qed.

(** ** Change notification *)

Lemma for_each_callback_all_return cbs w :
  forallb (fun c => negb (cb_raises c)) cbs = true ->
  for_each_callback cbs w = (log (callback_events cbs) w, Ok tt).
Proof.
  revert w. induction cbs as [|cb cbs IH]; intros w H; simpl.
  - rewrite log_nil. reflexivity.
  - simpl in H. apply andb_true_iff in H. destruct H as [Hcb H].
    unfold bind, call_callback, bind, emit.
    destruct (cb_raises cb); [discriminate|]. simpl.
    rewrite (IH _ H), log_log. reflexivity.
Qed.

Lemma for_each_callback_first_failure pre cb post w :
  forallb (fun c => negb (cb_raises c)) pre = true ->
  cb_raises cb = true ->
  for_each_callback (pre ++ cb :: post) w
  = (log (callback_events (pre ++ [cb])) w, Raise (CallbackException (cb_id cb))).
Proof.
  revert w. induction pre as [|c pre IH]; intros w H Hcb; simpl.
  - unfold bind, call_callback, bind, emit. rewrite Hcb. reflexivity.
  - simpl in H. apply andb_true_iff in H. destruct H as [Hc H].
    unfold bind at 1. unfold call_callback, bind, emit.
    destruct (cb_raises c); [discriminate|]. simpl.
    rewrite (IH _ H Hcb), log_log. reflexivity.
Qed.

(** When no subscriber raises, [_updated_state] calls all of them, in the
    order they were registered. *)
Lemma _updated_state_all_return w :
  forallb (fun c => negb (cb_raises c)) (_updated_state_cb w) = true ->
  _updated_state w
  = (log (Ev_updated_state :: callback_events (_updated_state_cb w)) w, Ok tt).
Proof.
  intros H. unfold _updated_state, bind, emit, get_rd. simpl.
  rewrite (for_each_callback_all_return _ _ H), log_log. reflexivity.
Qed.

(** C5, as the code has it: the subscribers are called in registration
    order up to and including the first one that raises; its exception
    ends the loop and is the outcome of the notification, and no
    subscriber after it is called. *)
Theorem _updated_state_stops_at_first_failure w pre cb post :
  _updated_state_cb w = pre ++ cb :: post ->
  forallb (fun c => negb (cb_raises c)) pre = true ->
  cb_raises cb = true ->
  _updated_state w
  = (log (Ev_updated_state :: callback_events (pre ++ [cb])) w,
     Raise (CallbackException (cb_id cb))).
Proof.
  intros Hcbs Hpre Hcb. unfold _updated_state, bind, emit, get_rd. simpl.
  rewrite Hcbs, (for_each_callback_first_failure _ _ _ _ Hpre Hcb), log_log.
  reflexivity.
Qed.

Lemma _updated_state_stops_at_first_failure_witness :
  _updated_state Sample.rd_subs
  = (log [Ev_updated_state; EvCallback 0] Sample.rd_subs,
     Raise (CallbackException 0)).
Proof.
  apply (_updated_state_stops_at_first_failure Sample.rd_subs
           [] (mkCallback 0 true) [mkCallback 1 false]); reflexivity.
Defined.

(** C5 as stated fails: with a first subscriber that raises, the second
    subscriber, although registered, is never called. *)
Lemma failing_subscriber_blocks_the_rest :
  In (mkCallback 1 false) (_updated_state_cb Sample.rd_subs)
  /\ snd (_updated_state Sample.rd_subs) = Raise (CallbackException 0)
  /\ ~ In (EvCallback 1) (trace (fst (_updated_state Sample.rd_subs))).
Proof.
  split; [right; left; reflexivity|]. split; [vm_compute; reflexivity|].
  vm_compute. intros H. repeat (destruct H as [H|H]; [discriminate H|]). exact H.
Qed.

(** ** Which operations can raise [BadRequest] *)

(** Case analysis on a scrutinee of the goal that contains no other
    [match]. *)
Ltac case_innermost :=
  match goal with
  | |- context [match ?x with _ => _ end] =>
      lazymatch x with
      | context [match _ with _ => _ end] => fail
      | _ => destruct x eqn:?
      end
  end.

Lemma never_ret {A} (a : A) : never_BadRequest (ret a).
Proof. intros w. reflexivity. Qed.

Lemma never_bind {A B} (c : M A) (k : A -> M B) :
  never_BadRequest c -> (forall a, never_BadRequest (k a)) ->
  never_BadRequest (bind c k).
Proof.
  intros Hc Hk w. unfold bind. specialize (Hc w).
  destruct (c w) as [w1 [a|e]]; simpl in *; [apply Hk|exact Hc].
Qed.

Lemma never_lift {A} (c : exc A) :
  is_BadRequest c = false -> never_BadRequest (lift c).
Proof. intros H w. exact H. Qed.

Lemma never_emit e : never_BadRequest (emit e).
Proof. intros w. reflexivity. Qed.

Lemma never_get_obj self : never_BadRequest (get_obj self).
Proof. intros w. unfold get_obj. destruct (nth_error _ _); reflexivity. Qed.

Lemma never_put_obj self s : never_BadRequest (put_obj self s).
Proof. intros w. reflexivity. Qed.

Lemma never_set_timeout self : never_BadRequest (_set_timeout self).
Proof.
  apply never_bind; [apply never_get_obj|]. intros s.
  apply never_bind; [apply never_emit|]. intros _. apply never_put_obj.
Qed.

Lemma never_timeout_cancel self : never_BadRequest (timeout_cancel self).
Proof.
  apply never_bind; [apply never_get_obj|]. intros s.
  destruct (Reg.timeout s).
  - apply never_bind; [apply never_emit|]. intros _. apply never_put_obj.
  - intros w. reflexivity.
Qed.

Lemma never_refresh_timeout self : never_BadRequest (refresh_timeout self).
Proof.
  apply never_bind; [apply never_timeout_cancel|]. intros _. apply never_set_timeout.
Qed.

Lemma never_for_each_callback cbs : never_BadRequest (for_each_callback cbs).
Proof.
  induction cbs as [|cb cbs IH]; simpl; [apply never_ret|].
  apply never_bind; [|intros _; exact IH].
  apply never_bind; [apply never_emit|]. intros _.
  destruct (cb_raises cb); intros w; reflexivity.
Qed.

Lemma never_updated_state : never_BadRequest _updated_state.
Proof.
  apply never_bind; [apply never_emit|]. intros _.
  apply never_bind; [intros w; reflexivity|]. intros w.
  apply never_for_each_callback.
Qed.

(** The assignments of [update_params] raise nothing but
    [AttributeError] and [UnboundLocalError]. *)
Lemma update_params_apply_not_BadRequest s c init :
  is_BadRequest (snd (update_params_apply s c init)) = false.
Proof.
  unfold update_params_apply, base_differs.
  repeat (case_innermost; simpl; try reflexivity).
Qed.

(** ** [update_params]: validation precedes mutation *)

(** C6: whenever [update_params] ends in [BadRequest], the directory, and
    with it the registration ([lt], [base], [base_is_explicit],
    [registration_parameters], [links], [timeout]), is exactly what it was
    before the call. *)
Theorem update_params_BadRequest_leaves_state self nr rp init w w' msg :
  update_params self nr rp init w = (w', Raise (BadRequest msg)) -> w' = w.
Proof.
  unfold update_params. unfold bind at 1. unfold get_obj.
  destruct (nth_error (objects w) self) as [s|]; [|intros [= <- _]; reflexivity].
  unfold bind at 1. unfold lift at 1.
  destruct (update_params_check s nr rp init) as [c|e]; [|intros [= <- _]; reflexivity].
  intros H. exfalso.
  assert (N : never_BadRequest
                (let '(s', r) := update_params_apply s c init in
                 put_obj self s' ;;
                 actual_change <- lift r ;;
                 (if init then _set_timeout self else refresh_timeout self) ;;
                 if (actual_change : bool) then _updated_state else ret tt)).
  { pose proof (update_params_apply_not_BadRequest s c init) as Hr.
    destruct (update_params_apply s c init) as [s' r]. simpl in Hr.
    apply never_bind; [apply never_put_obj|]. intros _.
    apply never_bind; [apply never_lift; exact Hr|]. intros ac.
    apply never_bind.
    - destruct init; [apply never_set_timeout|apply never_refresh_timeout].
    - intros _. destruct ac; [apply never_updated_state|apply never_ret]. }
  specialize (N w). rewrite H in N. discriminate N.
Qed.

(** The four causes of [BadRequest], for a registration [s] behind [self]. *)
Lemma update_params_rejects self nr rp init w s :
  nth_error (objects w) self = Some s ->
  existsb (fun k => in_names k ["ep"; "d"; "page"; "count"; "rt"; "href"; "anchor"])
          (Dict.keys rp) = true
  \/ (nr = None /\ q_mem rp "base" = false
      /\ (init = true \/ Reg.base_is_explicit s = false))
  \/ (existsb (fun k => in_names k ["ep"; "d"; "page"; "count"; "rt"; "href"; "anchor"])
              (Dict.keys rp) = false
      /\ (exists txt, q_get rp "lt" = Some [Some txt] /\ Py.parse_int txt = None)
      /\ (nr <> None \/ q_mem rp "base" = true
          \/ (init = false /\ Reg.base_is_explicit s = true))) ->
  exists msg, update_params self nr rp init w = (w, Raise (BadRequest msg)).
Proof.
  intros Hs H. unfold update_params. unfold bind at 1. unfold get_obj. rewrite Hs.
  unfold bind at 1. unfold lift at 1.
  assert (Hc : exists msg, update_params_check s nr rp init = Raise (BadRequest msg)).
  { unfold update_params_check.
    destruct (existsb (fun k => in_names k ["ep"; "d"]) (Dict.keys rp)) eqn:E1;
      [eexists; reflexivity|].
    destruct (existsb (fun k => in_names k ["page"; "count"; "rt"; "href"; "anchor"])
                      (Dict.keys rp)) eqn:E2; [eexists; reflexivity|].
    assert (E : existsb (fun k => in_names k
                  ["ep"; "d"; "page"; "count"; "rt"; "href"; "anchor"]) (Dict.keys rp)
                = false).
    { clear - E1 E2. induction (Dict.keys rp) as [|k ks IH]; [reflexivity|].
      simpl in *. apply orb_false_iff in E1, E2.
      destruct E1 as [E1 E1'], E2 as [E2 E2'].
      rewrite (IH E1' E2'). apply orb_false_iff in E1. destruct E1 as [-> E1].
      apply orb_false_iff in E1. destruct E1 as [-> _].
      simpl. rewrite E2. reflexivity. }
    destruct H as [H|[(-> & Hb & Hi)|(_ & (txt & Hlt & Hn) & Hok)]].
    - rewrite E in H. discriminate.
    - rewrite Hb. simpl.
      replace (init || negb (Reg.base_is_explicit s)) with true
        by (destruct Hi as [->| ->]; [reflexivity|rewrite orb_true_r; reflexivity]).
      eexists. reflexivity.
    - assert (Hm : q_mem rp "lt" = true).
      { unfold q_mem, Dict.mem. fold (q_get rp "lt"). rewrite Hlt. reflexivity. }
      destruct ((init || negb (Reg.base_is_explicit s)) && negb (q_mem rp "base")) eqn:Eb.
      + destruct nr as [uri|].
        * simpl. rewrite Hm. rewrite (pop_single_arg_single _ _ _ Hlt).
          simpl. rewrite Hn. simpl. eexists. reflexivity.
        * eexists. reflexivity.
      + simpl. rewrite Hm. rewrite (pop_single_arg_single _ _ _ Hlt).
        simpl. rewrite Hn. simpl. eexists. reflexivity. }
  destruct Hc as [msg ->]. exists msg. reflexivity.
Qed.

Lemma update_params_BadRequest_leaves_state_witness :
  fst (update_params 0 None [("lt", [Some "soon"])] false Sample.rd1) = Sample.rd1.
Proof.
  apply (update_params_BadRequest_leaves_state 0 None [("lt", [Some "soon"])]
           false Sample.rd1 _ "explicit base required").
  vm_compute. reflexivity.
Defined.

(** ** Running the steps of [update_params] *)

Lemma list_set_length {A} (l : list A) i a :
  List.length (list_set l i a) = List.length l.
Proof.
  revert i. induction l as [|x l IH]; intros [|i]; simpl; try reflexivity.
  rewrite IH. reflexivity.
Qed.

Lemma nth_error_list_set_same {A} (l : list A) i a x :
  nth_error l i = Some x -> nth_error (list_set l i a) i = Some a.
Proof.
  revert i. induction l as [|y l IH]; intros [|i]; simpl; try discriminate.
  - reflexivity.
  - apply IH.
Qed.

Lemma nth_error_list_set_other {A} (l : list A) i j a :
  i <> j -> nth_error (list_set l i a) j = nth_error l j.
Proof.
  revert i j. induction l as [|y l IH]; intros [|i] [|j] H; simpl;
    try reflexivity; try congruence.
  apply IH. congruence.
Qed.

Lemma get_obj_run self w s :
  nth_error (objects w) self = Some s -> get_obj self w = (w, Ok s).
Proof. unfold get_obj. intros ->. reflexivity. Qed.

Lemma _set_timeout_run self w s :
  nth_error (objects w) self = Some s ->
  _set_timeout self w
  = (store self (Reg.with_timeout s (mkTask (Reg.lt s + Reg.grace_period) false))
           (log [EvTask self (Reg.lt s + Reg.grace_period)] w), Ok tt).
Proof.
  intros Hs. unfold _set_timeout, bind. rewrite (get_obj_run _ _ _ Hs). reflexivity.
Qed.

Lemma timeout_cancel_run self w s t :
  nth_error (objects w) self = Some s -> Reg.timeout s = Some t ->
  timeout_cancel self w
  = (store self (Reg.with_timeout s (mkTask (delay t) true)) (log [EvCancel self] w),
     Ok tt).
Proof.
  intros Hs Ht. unfold timeout_cancel, bind. rewrite (get_obj_run _ _ _ Hs), Ht.
  reflexivity.
Qed.

Lemma timeout_cancel_success self w w' :
  timeout_cancel self w = (w', Ok tt) ->
  exists s t, nth_error (objects w) self = Some s /\ Reg.timeout s = Some t.
Proof.
  unfold timeout_cancel, bind, get_obj.
  destruct (nth_error (objects w) self) as [s|]; [|discriminate].
  destruct (Reg.timeout s) as [t|] eqn:Et; [|discriminate].
  intros _. exists s, t. auto.
Qed.

(** The task a successful [_set_timeout] or [refresh_timeout] leaves on an
    object [s]: it sleeps [lt + grace_period] and is not cancelled; the
    events are the cancellation of the previous task, if any, and the new
    task. *)
Lemma arm_timeout_success (init : bool) self w w1 s :
  nth_error (objects w) self = Some s ->
  (if init then _set_timeout self else refresh_timeout self) w = (w1, Ok tt) ->
  let d := (Reg.lt s + Reg.grace_period)%Z in
  nth_error (objects w1) self = Some (Reg.with_timeout s (mkTask d false))
  /\ trace w1 = trace w ++ (if init then [] else [EvCancel self]) ++ [EvTask self d]
  /\ _updated_state_cb w1 = _updated_state_cb w
  /\ _by_key w1 = _by_key w /\ _by_path w1 = _by_path w
  /\ (forall i, i <> self -> nth_error (objects w1) i = nth_error (objects w) i).
Proof.
  intros Hs. destruct init.
  - rewrite (_set_timeout_run _ _ _ Hs). intros [= <-]. simpl.
    repeat split.
    + apply (nth_error_list_set_same _ _ _ _ Hs).
    + intros i Hi. apply nth_error_list_set_other. auto.
  - intros H. unfold refresh_timeout, bind in H.
    destruct (timeout_cancel self w) as [w0 [[]|e]] eqn:Ec; [|discriminate].
    destruct (timeout_cancel_success _ _ _ Ec) as (s0 & t & Hs0 & Ht).
    rewrite Hs in Hs0. injection Hs0 as <-.
    rewrite (timeout_cancel_run _ _ _ _ Hs Ht) in Ec. injection Ec as <-.
    rewrite (_set_timeout_run self _ (Reg.with_timeout s (mkTask (delay t) true))) in H.
    2:{ simpl. apply (nth_error_list_set_same _ _ _ _ Hs). }
    injection H as <-. simpl. repeat split.
    + set (l1 := list_set (objects w) self _).
      assert (H1 : nth_error l1 self = Some (Reg.with_timeout s (mkTask (delay t) true)))
        by apply (nth_error_list_set_same _ _ _ _ Hs).
      apply (nth_error_list_set_same _ _ _ _ H1).
    + rewrite <- app_assoc. reflexivity.
    + intros i Hi. rewrite !nth_error_list_set_other by auto. reflexivity.
Qed.

(** A notification changes nothing but the trace, and starts it with
    [Ev_updated_state]. *)
Lemma for_each_callback_logs cbs w w' (r : exc unit) :
  for_each_callback cbs w = (w', r) ->
  exists evs, w' = log evs w /\ ~ In Ev_updated_state evs.
Proof.
  revert w. induction cbs as [|cb cbs IH]; intros w; simpl.
  - intros [= <- _]. exists []. rewrite log_nil. auto.
  - unfold bind at 1. unfold call_callback, bind, emit.
    destruct (cb_raises cb); simpl.
    + intros [= <- _]. exists [EvCallback (cb_id cb)]. split; [reflexivity|].
      intros [H|[]]. discriminate.
    + intros H. destruct (IH _ H) as (evs & -> & Hn).
      exists (EvCallback (cb_id cb) :: evs). rewrite log_log. split; [reflexivity|].
      intros [E|E]; [discriminate|auto].
Qed.

Lemma _updated_state_logs w w' (r : exc unit) :
  _updated_state w = (w', r) ->
  exists evs, w' = log (Ev_updated_state :: evs) w.
Proof.
  unfold _updated_state, bind, emit, get_rd. simpl. intros H.
  destruct (for_each_callback_logs _ _ _ _ H) as (evs & -> & _).
  exists evs. rewrite log_log. reflexivity.
Qed.

(** The steps of a successful [update_params]. *)
Lemma update_params_success self nr rp init w w' :
  update_params self nr rp init w = (w', Ok tt) ->
  exists s c s1 ac w1,
    nth_error (objects w) self = Some s
    /\ update_params_check s nr rp init = Ok c
    /\ update_params_apply s c init = (s1, Ok ac)
    /\ (if init then _set_timeout self else refresh_timeout self) (store self s1 w)
       = (w1, Ok tt)
    /\ (if ac then _updated_state else ret tt) w1 = (w', Ok tt).
Proof.
  unfold update_params. unfold bind at 1. unfold get_obj.
  destruct (nth_error (objects w) self) as [s|]; [|discriminate].
  unfold bind at 1. unfold lift at 1.
  destruct (update_params_check s nr rp init) as [c|e] eqn:Ec; [|discriminate].
  destruct (update_params_apply s c init) as [s1 [ac|e]] eqn:Ea.
  - unfold bind at 1. unfold put_obj. unfold bind at 1. unfold lift at 1.
    unfold bind at 1.
    destruct ((if init then _set_timeout self else refresh_timeout self)
                (store self s1 w)) as [w1 [[]|e]] eqn:Et; [|discriminate].
    intros H. exists s, c, s1, ac, w1. auto.
  - unfold bind, put_obj, lift. discriminate.
Qed.

(** ** [update_params]: when the change notification fires *)

Lemma params_differ_iff s (q : query) :
  params_differ s q = true
  <-> exists k vs, In (k, vs) q /\ q_get (Reg.registration_parameters s) k <> Some vs.
Proof.
  unfold params_differ. rewrite existsb_exists. split.
  - intros ([k vs] & Hin & H). exists k, vs. split; [exact Hin|].
    cbn [fst snd] in H. intros E. rewrite E in H.
    assert (X : option_eqb values_eqb (Some vs) (Some vs) = true)
      by (apply (option_eqb_eq _ values_eqb_eq); reflexivity).
    rewrite X in H. discriminate.
  - intros (k & vs & Hin & H). exists (k, vs). split; [exact Hin|]. cbn [fst snd].
    destruct (option_eqb values_eqb (Some vs) (q_get (Reg.registration_parameters s) k))
      eqn:E; [|reflexivity].
    apply (option_eqb_eq _ values_eqb_eq) in E. congruence.
Qed.

(** The assignments of [update_params]: [actual_change] ends up true
    exactly when the call is the initial one or [lt], [base] or a supplied
    value list differs from what was stored; nothing else of the object is
    touched. *)
Lemma update_params_apply_spec s c init s1 ac :
  update_params_apply s c init = (s1, Ok ac) ->
  (ac = true <->
     init = true \/ Reg.lt s1 <> Reg.lt s \/ Reg.base s1 <> Reg.base s
     \/ params_differ s (rest c) = true)
  /\ (forall n, set_lt c = Some n -> Reg.lt s1 = n)
  /\ (set_base c = None ->
      Reg.base_is_explicit s = true \/ network_base c = Reg.base s ->
      Reg.base s1 = Reg.base s)
  /\ Reg.path s1 = Reg.path s /\ Reg.links s1 = Reg.links s
  /\ Reg._delete_cb s1 = Reg._delete_cb s /\ Reg.timeout s1 = Reg.timeout s.
Proof.
  unfold update_params_apply, base_differs.
  assert (Pd : forall s0, Reg.registration_parameters s0 = Reg.registration_parameters s ->
                          params_differ s0 (rest c) = params_differ s (rest c)).
  { intros s0 E. unfold params_differ. rewrite E. reflexivity. }
  repeat (case_innermost; simpl; try discriminate);
    intros [= <- <-]; simpl;
    repeat match goal with
           | H : negb _ = true |- _ => apply negb_true_iff in H
           | H : negb _ = false |- _ => apply negb_false_iff in H
           | H : (_ =? _)%Z = true |- _ => apply Z.eqb_eq in H
           | H : (_ =? _)%Z = false |- _ => apply Z.eqb_neq in H
           | H : (_ =? _)%string = true |- _ => apply String.eqb_eq in H
           | H : (_ =? _)%string = false |- _ => apply String.eqb_neq in H
           | H : (_, _) = (_, _) |- _ => injection H as ? ?
           | H : Ok _ = Ok _ |- _ => injection H as ?
           | H : Some _ = Some _ |- _ => injection H as ?
           end;
    subst; simpl in *;
    try match goal with
        | H : params_differ ?s0 _ = _ |- _ =>
            rewrite (Pd s0) in H by reflexivity
        end;
    (split; [split; intros; intuition congruence|]);
    (split; [intros; congruence|]);
    (split; [intros; intuition congruence|auto]).
Qed.

Lemma q_mem_false_In (q : query) name k vs :
  q_mem q name = false -> In (k, vs) q -> k <> name.
Proof.
  intros Hm Hin ->. unfold q_mem in Hm.
  assert (X : Dict.mem String.eqb q name = true).
  { apply (mem_keys _ _ _ String.eqb_eq). unfold Dict.keys.
    apply (in_map fst) in Hin. exact Hin. }
  congruence.
Qed.

Lemma pop_single_arg_Ok (q : query) name v q' :
  pop_single_arg q name = Ok (v, q') ->
  forall k vs, In (k, vs) q' <-> In (k, vs) q /\ k <> name.
Proof.
  unfold pop_single_arg. destruct (q_get q name) as [[|x [|y l]]|] eqn:E;
    try discriminate; intros [= _ <-] k vs.
  - rewrite (In_remove _ _ _ String.eqb_eq). intuition congruence.
  - split; [|tauto]. intros H. split; [exact H|].
    apply (q_mem_false_In q name k vs); [|exact H].
    unfold q_mem, Dict.mem. fold (q_get q name). rewrite E. reflexivity.
Qed.

(** What is left in [registration_parameters] when [update_params] starts
    to act: the supplied entries other than [lt] and [base]. *)
Lemma update_params_check_rest s nr rp init c :
  update_params_check s nr rp init = Ok c ->
  forall k vs, In (k, vs) (rest c) <-> In (k, vs) rp /\ k <> "lt" /\ k <> "base".
Proof.
  unfold update_params_check.
  destruct (existsb _ _); [discriminate|].
  destruct (existsb _ _); [discriminate|].
  destruct (if _ && _ then _ else _) as [nb|e]; [|discriminate]. simpl.
  assert (Hlt : forall r1 : option Z * query,
            (if q_mem rp "lt"
             then try_except
                    (let? (v, q') := pop_single_arg rp "lt" in
                     let? n := Py.int v in Ok (Some n, q'))%exc
                    is_ValueError (Raise (BadRequest "lt must be numeric"))
             else Ok (None, rp)) = Ok r1 ->
            forall k vs, In (k, vs) (snd r1) <-> In (k, vs) rp /\ k <> "lt").
  { intros r1. destruct (q_mem rp "lt") eqn:Em.
    - destruct (pop_single_arg rp "lt") as [[v q']|e] eqn:Ep; simpl.
      + destruct (Py.int v) as [n|e]; simpl.
        * intros [= <-]. simpl. apply (pop_single_arg_Ok _ _ _ _ Ep).
        * destruct (is_ValueError e); discriminate.
      + destruct (is_ValueError e); discriminate.
    - intros [= <-] k vs. simpl. split; [|tauto].
      intros H. split; [exact H|]. apply (q_mem_false_In _ _ _ _ Em H). }
  destruct (if q_mem rp "lt" then _ else _) as [[sl rp1]|e]; [|discriminate].
  specialize (Hlt _ eq_refl). simpl in Hlt. simpl.
  destruct (q_mem rp1 "base") eqn:Em.
  - destruct (pop_single_arg rp1 "base") as [[sb rp2]|e] eqn:Ep; [|discriminate].
    simpl. intros [= <-] k vs. simpl.
    rewrite (pop_single_arg_Ok _ _ _ _ Ep), Hlt. tauto.
  - simpl. intros [= <-] k vs. simpl. rewrite Hlt. split; [|tauto].
    intros [H1 H2]. repeat split; auto.
    apply (q_mem_false_In rp1 "base" k vs Em). apply Hlt. auto.
Qed.

(** The checks on a query that supplies [lt] and nothing else. *)
Lemma update_params_check_lt_only s nr txt n c :
  Py.parse_int txt = Some n ->
  update_params_check s nr [("lt", [Some txt])] false = Ok c ->
  set_lt c = Some n /\ set_base c = None /\ rest c = []
  /\ (Reg.base_is_explicit s = false -> network_base c = nr).
Proof.
  intros Hn. unfold update_params_check. simpl.
  destruct (Reg.base_is_explicit s); simpl.
  - rewrite Hn. simpl. intros [= <-]. simpl. repeat split. discriminate.
  - destruct nr as [uri|]; [|discriminate]. simpl. rewrite Hn. simpl.
    intros [= <-]. simpl. repeat split.
Qed.

(** C7, as the code has it: a successful [update_params] calls the change
    notification exactly when the call is the initial one or [lt], [base]
    or the value list of a supplied registration parameter differs from
    what was stored, and it always leaves a fresh task sleeping [lt + 15]
    seconds.  A non-initial call supplying only [lt] notifies when that
    [lt] differs from the stored one; when it is equal, the call stays
    silent provided the base in effect does not change (the base is
    explicit, or the origin still has the URI stored as base). *)
Theorem update_params_notifies self nr rp init w w' :
  update_params self nr rp init w = (w', Ok tt) ->
  exists s s' evs,
    nth_error (objects w) self = Some s
    /\ nth_error (objects w') self = Some s'
    /\ trace w' = trace w ++ evs
    /\ (In Ev_updated_state evs <->
          init = true \/ Reg.lt s' <> Reg.lt s \/ Reg.base s' <> Reg.base s
          \/ exists k vs, In (k, vs) rp /\ k <> "lt" /\ k <> "base"
                          /\ q_get (Reg.registration_parameters s) k <> Some vs)
    /\ Reg.timeout s' = Some (mkTask (Reg.lt s' + Reg.grace_period) false)
    /\ (forall txt n,
          init = false -> rp = [("lt", [Some txt])] -> Py.parse_int txt = Some n ->
          (n <> Reg.lt s -> In Ev_updated_state evs)
          /\ (n = Reg.lt s ->
              Reg.base_is_explicit s = true \/ nr = Reg.base s ->
              ~ In Ev_updated_state evs)).
Proof.
  intros H.
  destruct (update_params_success _ _ _ _ _ _ H)
    as (s & c & s1 & ac & w1 & Hs & Hc & Ha & Ht & Hu).
  assert (Hs1 : nth_error (objects (store self s1 w)) self = Some s1)
    by (simpl; apply (nth_error_list_set_same _ _ _ _ Hs)).
  destruct (arm_timeout_success _ _ _ _ _ Hs1 Ht) as (Hobj & Htr & _).
  simpl in Htr.
  set (d := (Reg.lt s1 + Reg.grace_period)%Z) in *.
  set (tevs := (if init then [] else [EvCancel self]) ++ [EvTask self d]) in *.
  assert (Hw' : exists uevs, w' = log (if ac then Ev_updated_state :: uevs else []) w1).
  { destruct ac.
    - apply (_updated_state_logs _ _ _ Hu).
    - injection Hu as <-. exists []. rewrite log_nil. reflexivity. }
  destruct Hw' as (uevs & ->).
  destruct (update_params_apply_spec _ _ _ _ _ Ha)
    as (Hac & Hlt & Hbase & _ & _ & _ & _).
  assert (Hfire : In Ev_updated_state
                     (tevs ++ (if ac then Ev_updated_state :: uevs else []))
                  <-> ac = true).
  { rewrite in_app_iff. split.
    - intros [Hin|Hin].
      + exfalso. unfold tevs in Hin.
        destruct init; simpl in Hin;
          repeat (destruct Hin as [Hin|Hin]; [discriminate Hin|]); exact Hin.
      + destruct ac; [reflexivity|contradiction].
    - intros ->. right. left. reflexivity. }
  exists s, (Reg.with_timeout s1 (mkTask d false)),
         (tevs ++ (if ac then Ev_updated_state :: uevs else [])).
  split; [exact Hs|]. split; [exact Hobj|].
  split; [simpl; rewrite Htr, app_assoc; reflexivity|].
  split.
  { rewrite Hfire, Hac, params_differ_iff. simpl.
    split; (intros [X|[X|[X|(k & vs & X)]]]; [tauto|tauto|tauto|]);
      right; right; right; exists k, vs.
    - destruct X as [Hin Hne].
      apply (update_params_check_rest _ _ _ _ _ Hc) in Hin. tauto.
    - destruct X as (Hin & H1 & H2 & Hne). split; [|exact Hne].
      apply (update_params_check_rest _ _ _ _ _ Hc). tauto. }
  split; [reflexivity|].
  intros txt n -> -> Hn.
  destruct (update_params_check_lt_only _ _ _ _ _ Hn Hc) as (Hsl & Hsb & Hrest & Hnb).
  rewrite Hfire, Hac. simpl. split.
  - intros Hne. right. left. rewrite (Hlt _ Hsl). exact Hne.
  - intros -> Hb. rewrite <- (Hlt _ Hsl). rewrite Hrest.
    assert (Hb' : Reg.base s1 = Reg.base s).
    { apply Hbase; [exact Hsb|]. destruct Hb as [Hb|Hb]; [left; exact Hb|].
      destruct (Reg.base_is_explicit s) eqn:E; [left; reflexivity|].
      right. rewrite (Hnb eq_refl). exact Hb. }
    unfold params_differ. simpl. intros [X|[X|[X|X]]]; congruence.
Qed.

Lemma update_params_notifies_witness :
  exists s s' evs,
    nth_error (objects Sample.rd1) 0 = Some s
    /\ nth_error (objects Sample.rd1_lt60) 0 = Some s'
    /\ trace Sample.rd1_lt60 = trace Sample.rd1 ++ evs
    /\ Reg.timeout s' = Some (mkTask (Reg.lt s' + Reg.grace_period) false)
    /\ In Ev_updated_state evs.
Proof.
  destruct (update_params_notifies 0 Sample.node1 Sample.lt60 false
              Sample.rd1 Sample.rd1_lt60)
    as (s & s' & evs & Hs & Hs' & Htr & _ & Htm & Hlt).
  { vm_compute. reflexivity. }
  exists s, s', evs.
  split; [exact Hs|]. split; [exact Hs'|]. split; [exact Htr|]. split; [exact Htm|].
  destruct (Hlt "60" 60%Z eq_refl eq_refl eq_refl) as [Hne _]. apply Hne.
  vm_compute in Hs. injection Hs as <-. discriminate.
Defined.

(** C7 as stated fails: the registration in [Sample.rd1] took its base
    from its origin; an update that supplies only the stored [lt] but
    arrives from another origin changes the base and notifies. *)
Lemma unchanged_lt_from_new_origin_notifies :
  option_map Reg.lt (nth_error (objects Sample.rd1) 0) = Some 90000%Z
  /\ Py.parse_int "90000" = Some 90000%Z
  /\ update_params 0 Sample.node2 [("lt", [Some "90000"])] false Sample.rd1
     = (Sample.rd1_moved, Ok tt)
  /\ trace Sample.rd1_moved
     = trace Sample.rd1 ++ [EvCancel 0; EvTask 0 90015; Ev_updated_state].
Proof. repeat apply conj; vm_compute; reflexivity. Qed.

(** ** [get_based_links] *)



Section BasedLinks.
Variable urljoin : string -> string -> string.


End BasedLinks.



(** ** Re-registration *)

Lemma for_each_callback_success cbs w w' :
  for_each_callback cbs w = (w', Ok tt) -> w' = log (callback_events cbs) w.
Proof.
  revert w. induction cbs as [|cb cbs IH]; intros w; simpl.
  - intros [= <-]. rewrite log_nil. reflexivity.
  - unfold bind at 1. unfold call_callback, bind, emit.
    destruct (cb_raises cb); simpl; [discriminate|].
    intros H. rewrite (IH _ H), log_log. reflexivity.
Qed.

Lemma _updated_state_success w w' :
  _updated_state w = (w', Ok tt) ->
  w' = log (Ev_updated_state :: callback_events (_updated_state_cb w)) w.
Proof.
  unfold _updated_state, bind, emit, get_rd. simpl. intros H.
  rewrite (for_each_callback_success _ _ _ H), log_log. reflexivity.
Qed.

(** Everything a successful [update_params] does to the directory. *)
Lemma update_params_effect self nr rp init w w' :
  update_params self nr rp init w = (w', Ok tt) ->
  exists s c s1 ac,
    nth_error (objects w) self = Some s
    /\ update_params_check s nr rp init = Ok c
    /\ update_params_apply s c init = (s1, Ok ac)
    /\ nth_error (objects w') self
       = Some (Reg.with_timeout s1 (mkTask (Reg.lt s1 + Reg.grace_period) false))
    /\ (forall i, i <> self -> nth_error (objects w') i = nth_error (objects w) i)
    /\ _by_key w' = _by_key w /\ _by_path w' = _by_path w
    /\ _updated_state_cb w' = _updated_state_cb w
    /\ trace w'
       = trace w ++ (if init then [] else [EvCancel self])
                 ++ [EvTask self (Reg.lt s1 + Reg.grace_period)]
                 ++ (if ac then Ev_updated_state :: callback_events (_updated_state_cb w)
                     else []).
Proof.
  intros H.
  destruct (update_params_success _ _ _ _ _ _ H)
    as (s & c & s1 & ac & w1 & Hs & Hc & Ha & Ht & Hu).
  assert (Hs1 : nth_error (objects (store self s1 w)) self = Some s1)
    by (simpl; apply (nth_error_list_set_same _ _ _ _ Hs)).
  destruct (arm_timeout_success _ _ _ _ _ Hs1 Ht)
    as (Hobj & Htr & Hcb & Hk & Hp & Hoth).
  simpl in Htr, Hcb, Hk, Hp.
  assert (Hw' : w' = log (if ac then Ev_updated_state
                                       :: callback_events (_updated_state_cb w)
                          else []) w1).
  { destruct ac.
    - rewrite <- Hcb. apply (_updated_state_success _ _ Hu).
    - injection Hu as <-. rewrite log_nil. reflexivity. }
  exists s, c, s1, ac. subst w'. simpl.
  repeat apply conj; auto.
  - intros i Hi. rewrite (Hoth i Hi). simpl.
    apply nth_error_list_set_other. auto.
  - rewrite Htr, <- !app_assoc. reflexivity.
Qed.

Lemma del_present {K V} (eqb : K -> K -> bool) (d : Dict.t K V) k d' :
  Dict.del eqb d k = Ok d' -> Dict.mem eqb d k = true /\ d' = Dict.remove eqb d k.
Proof.
  unfold Dict.del. destruct (Dict.mem eqb d k); [|discriminate].
  intros [= <-]. auto.
Qed.

(** Everything a successful [Registration.delete] does: the task of the
    object is cancelled, the subscribers are notified, and then the closure
    removes the entries at the path and key it captured. *)
Lemma delete_success self w w' :
  delete self w = (w', Ok tt) ->
  exists s t,
    nth_error (objects w) self = Some s
    /\ Reg.timeout s = Some t
    /\ Dict.mem path_eqb (_by_path w) (fst (Reg._delete_cb s)) = true
    /\ Dict.mem key_eqb (_by_key w) (snd (Reg._delete_cb s)) = true
    /\ w' = mkRD (Dict.remove key_eqb (_by_key w) (snd (Reg._delete_cb s)))
                 (Dict.remove path_eqb (_by_path w) (fst (Reg._delete_cb s)))
                 (_updated_state_cb w)
                 (list_set (objects w) self
                           (Reg.with_timeout s (mkTask (delay t) true)))
                 (trace w ++ [EvCancel self; Ev_updated_state]
                          ++ callback_events (_updated_state_cb w)
                          ++ [EvDelete (fst (Reg._delete_cb s)) (snd (Reg._delete_cb s))]).
Proof.
  unfold delete. unfold bind at 1.
  destruct (timeout_cancel self w) as [w1 [[]|e]] eqn:Ec; [|discriminate].
  destruct (timeout_cancel_success _ _ _ Ec) as (s & t & Hs & Ht).
  rewrite (timeout_cancel_run _ _ _ _ Hs Ht) in Ec. injection Ec as <-.
  unfold bind at 1.
  destruct (_updated_state _) as [w2 [[]|e]] eqn:Eu; [|discriminate].
  apply _updated_state_success in Eu. subst w2.
  unfold bind at 1. unfold get_obj. simpl.
  rewrite (nth_error_list_set_same _ _ _ _ Hs). simpl.
  unfold delete_closure, bind, emit, get_rd, lift, set_by_path, set_by_key. simpl.
  destruct (Dict.del path_eqb (_by_path w) _) as [bp|e] eqn:Ep; [|discriminate].
  destruct (Dict.del key_eqb (_by_key w) _) as [bk|e] eqn:Ek; [|discriminate].
  apply del_present in Ep, Ek. destruct Ep as [Hp ->], Ek as [Hk ->].
  intros [= <-]. exists s, t. repeat apply conj; auto.
  f_equal. rewrite <- !app_assoc. reflexivity.
Qed.

Lemma nth_error_snoc {A} (l : list A) a :
  nth_error (l ++ [a]) (List.length l) = Some a.
Proof. rewrite nth_error_app2, Nat.sub_diag by lia. reflexivity. Qed.

(** A successful [Registration(...)]: the object is new, and what
    [update_params] made of its first state. *)
Lemma Registration_new_success sp path nr cb rp w w' self :
  Registration_new sp path nr cb rp w = (w', Ok self) ->
  let fresh := Reg.mk path [] cb sp 90000 false None None in
  self = List.length (objects w)
  /\ update_params self nr rp true
       (mkRD (_by_key w) (_by_path w) (_updated_state_cb w)
             (objects w ++ [fresh]) (trace w))
     = (w', Ok tt).
Proof.
  unfold Registration_new. unfold bind at 1. unfold new_obj. unfold bind at 1.
  destruct (update_params _ _ _ _ _) as [w2 [[]|e]] eqn:E; [|discriminate].
  unfold ret. intros [= <- <-]. auto.
Qed.

(** What a returning [initialize_endpoint] does for a key that has a
    registration [old] with a path under the entity prefix and a delete
    closure for its own path tail and key. *)
Lemma reregistration_effect nr rp w w' reg ep d rp1 rp2 oldreg old tail :
  initialize_endpoint nr rp w = (w', Ok reg) ->
  pop_single_arg rp "ep" = Ok (Some ep, rp1) ->
  pop_single_arg rp1 "d" = Ok (d, rp2) ->
  by_key_get w (ep, d) = Some oldreg ->
  nth_error (objects w) oldreg = Some old ->
  Reg.path old = entity_prefix ++ tail ->
  Reg._delete_cb old = (tail, (ep, d)) ->
  exists new old' t dly,
    reg = List.length (objects w)
    /\ nth_error (objects w') reg = Some new
    /\ Reg.path new = Reg.path old
    /\ Reg.timeout old = Some t
    /\ nth_error (objects w') oldreg = Some old'
    /\ Reg.timeout old' = Some (mkTask (delay t) true)
    /\ trace w'
       = trace w
         ++ [EvCancel oldreg; Ev_updated_state] ++ callback_events (_updated_state_cb w)
         ++ [EvDelete tail (ep, d)]
         ++ [EvTask reg dly; Ev_updated_state] ++ callback_events (_updated_state_cb w)
    /\ by_key_get w' (ep, d) = Some reg
    /\ by_path_get w' tail = Some reg
    /\ (forall r, In ((ep, d), r) (_by_key w') -> r = reg)
    /\ (forall r, In (tail, r) (_by_path w') -> r = reg).
Proof.
  intros H Hep Hd Hkey Hold Hpath Hcb.
  unfold initialize_endpoint in H. unfold bind at 1 in H. unfold lift at 1 in H.
  rewrite Hep in H. unfold bind at 1 in H. unfold lift at 1 in H. rewrite Hd in H.
  unfold bind at 1 in H. unfold get_rd at 1 in H. rewrite Hkey in H.
  unfold bind at 1 in H. unfold bind at 1 in H.
  rewrite (get_obj_run _ _ _ Hold) in H.
  unfold bind at 1 in H.
  destruct (delete oldreg w) as [w1 [[]|e]] eqn:Edel; [|discriminate].
  destruct (delete_success _ _ _ Edel) as (old0 & t & Hold0 & Ht & Hmp & Hmk & Hw1).
  rewrite Hold in Hold0. injection Hold0 as <-.
  rewrite Hcb in Hw1, Hmp, Hmk. simpl in Hw1, Hmp, Hmk.
  unfold ret at 1 in H. rewrite Hpath in H. simpl skipn in H.
  unfold bind at 1 in H.
  destruct (Registration_new _ _ _ _ _ w1) as [w2 [r|e]] eqn:Enew; [|discriminate].
  unfold bind, get_rd, set_by_key, set_by_path, ret in H. simpl in H.
  injection H as <- <-.
  destruct (Registration_new_success _ _ _ _ _ _ _ _ Enew) as (Hreg & Hup).
  destruct (update_params_effect _ _ _ _ _ _ Hup)
    as (s & c & s1 & ac & Hs & Hc & Ha & Hobj & Hoth & Hk & Hp & Hcbs & Htr).
  simpl in Hs, Hoth, Hk, Hp, Hcbs, Htr.
  assert (Hlen : List.length (objects w1) = List.length (objects w))
    by (rewrite Hw1; simpl; apply list_set_length).
  assert (Holdlt : oldreg < List.length (objects w))
    by (apply nth_error_Some; congruence).
  rewrite Hreg, nth_error_snoc in Hs. injection Hs as <-.
  destruct (update_params_apply_spec _ _ _ _ _ Ha)
    as (Hac & _ & _ & Hpath1 & _ & _ & _).
  assert (ac = true) by (apply Hac; left; reflexivity). subst ac.
  clear Hac Hc Ha.
  assert (Hne : oldreg <> r) by lia.
  exists (Reg.with_timeout s1 (mkTask (Reg.lt s1 + Reg.grace_period) false)),
         (Reg.with_timeout old (mkTask (delay t) true)),
         t, (Reg.lt s1 + Reg.grace_period)%Z.
  simpl. rewrite Hk, Hp.
  repeat apply conj.
  - lia.
  - exact Hobj.
  - rewrite Hpath1, Hpath. reflexivity.
  - exact Ht.
  - rewrite (Hoth _ Hne), nth_error_app1 by lia.
    rewrite Hw1. simpl. apply (nth_error_list_set_same _ _ _ _ Hold).
  - reflexivity.
  - rewrite Htr, Hw1. simpl. rewrite <- !app_assoc. simpl.
    rewrite <- !app_assoc. reflexivity.
  - apply (get_set_same _ _ _ key_eqb_eq).
  - apply (get_set_same _ _ _ path_eqb_eq).
  - intros r'. apply (In_set_fresh _ _ _ key_eqb_eq).
    rewrite Hw1. simpl. apply get_remove_same.
  - intros r'. apply (In_set_fresh _ _ _ path_eqb_eq).
    rewrite Hw1. simpl. apply get_remove_same.
Qed.

(** ** The delete callback *)




(** ** The lookup filter *)

Lemma any_true {A} (f : A -> exc bool) l :
  Py.any f l = Ok true -> exists x, In x l /\ f x = Ok true.
Proof.
  induction l as [|x l IH]; simpl; [discriminate|].
  destruct (f x) as [[|]|e] eqn:E; try discriminate.
  - intros _. exists x. auto.
  - intros H. destruct (IH H) as (y & Hy & Hf). exists y. auto.
Qed.

Lemma any_false {A} (f : A -> exc bool) l :
  Py.any f l = Ok false -> forall x, In x l -> f x = Ok false.
Proof.
  induction l as [|x l IH]; simpl; [contradiction|].
  destruct (f x) as [[|]|e] eqn:E; try discriminate.
  intros H y [<-|Hy]; auto.
Qed.

(** A scan that raises nothing is [existsb]. *)
Lemma any_total {A} (f : A -> exc bool) (g : A -> bool) l :
  (forall x, In x l -> f x = Ok (g x)) -> Py.any f l = Ok (existsb g l).
Proof.
  induction l as [|x l IH]; simpl; intros H; [reflexivity|].
  rewrite (H x (or_introl eq_refl)).
  destruct (g x); simpl; [reflexivity|]. apply IH. auto.
Qed.


Lemma filter_In {A} (f : A -> exc bool) l r :
  Py.filter f l = Ok r ->
  forall c, In c r <-> In c l /\ f c = Ok true.
Proof.
  revert r. induction l as [|x l IH]; simpl; intros r.
  - intros [= <-] c. simpl. tauto.
  - destruct (f x) as [b|e] eqn:E; [|discriminate].
    destruct (Py.filter f l) as [r'|e]; [|discriminate].
    intros [= <-] c. specialize (IH _ eq_refl c).
    destruct b; simpl; rewrite ?IH; split.
    + intros [<-|[H1 H2]]; auto.
    + intros [[<-|H1] H2]; auto.
    + intros [H1 H2]; auto.
    + intros [[<-|H1] H2]; [congruence|auto].
Qed.

(** Every candidate the filter looks at gets an answer when the filter
    returns. *)
Lemma filter_answers {A} (f : A -> exc bool) l r :
  Py.filter f l = Ok r -> forall c, In c l -> exists b, f c = Ok b.
Proof.
  revert r. induction l as [|x l IH]; simpl; intros r; [contradiction|].
  destruct (f x) as [b|e] eqn:E; [|discriminate].
  destruct (Py.filter f l) as [r'|e]; [|discriminate].
  intros _ c [<-|Hc]; [eauto|]. apply (IH _ eq_refl c Hc).
Qed.

Lemma subseq_In {A} (l1 l2 : list A) : subseq l1 l2 -> forall x, In x l1 -> In x l2.
Proof.
  induction 1; simpl; intros y Hy; auto.
  destruct Hy as [->|Hy]; auto.
Qed.

Lemma subseq_refl {A} (l : list A) : subseq l l.
Proof. induction l; [apply subseq_nil|apply subseq_keep; auto]. Qed.






(** *** A query of one key with one value *)

Section SingleValue.
Variable urljoin : string -> string -> string.
Variables k sv : string.
Hypothesis not_pagination : in_names k ["page"; "count"] = false.

(** The function the loop binds to [matches] for [k=sv], the frame the
    loop leaves and the generator expression it creates. *)
Local Abbreviation m0 :=
  (if Py.endswith_star sv then Startswith (Py.drop_last sv) else Equals_search_value).
Local Abbreviation m := (if in_names k ["if"; "rt"] then Any_token m0 else m0).
Local Abbreviation f := (mkFrame (Some k) (Some (Some sv)) (Some m)).
Local Abbreviation st := (if String.eqb k "href" then Stage_href else Stage_attr).

Lemma filter_loop_single : filter_loop [(k, [Some sv])] = (f, [st]).
Proof.
  unfold filter_loop. cbn [fold_left]. unfold key_round. cbn [fst snd].
  rewrite not_pagination. cbn [fold_left]. unfold value_round. cbn [snd app].
  destruct (k =? "href")%string; reflexivity.
Qed.

Lemma call_m0 x : call f m0 (Some x) = Ok (value_matchesb sv x).
Proof.
  unfold value_matchesb. destruct (Py.endswith_star sv); reflexivity.
Qed.

Lemma call_m x : call f m (Some x) = Ok (attribute_matchesb k sv x).
Proof.
  unfold attribute_matchesb. destruct (in_names k ["if"; "rt"]) eqn:E.
  - cbn [call]. apply any_total. intros v _.
    pose proof (call_m0 v) as H. rewrite E in H. exact H.
  - pose proof (call_m0 x) as H. rewrite E in H. exact H.
Qed.

Lemma call_m_None : call f m None <> Ok true.
Proof.
  destruct (in_names k ["if"; "rt"]), (Py.endswith_star sv); simpl; discriminate.
Qed.

Lemma call_matches_true v :
  call_matches f v = Ok true <-> exists x, v = Some x /\ attribute_matchesb k sv x = true.
Proof.
  unfold call_matches. cbn [matches]. destruct v as [x|].
  - rewrite call_m. split.
    + intros [= H]. exists x. auto.
    + intros (y & [= <-] & H). rewrite H. reflexivity.
  - split; [intros H; destruct (call_m_None H)|intros (y & Hy & _); discriminate].
Qed.

(** A scan with [matches] over values: when it answers, the answer says
    whether some value is a string that matches. *)
Lemma any_call_matches vs b :
  Py.any (call_matches f) vs = Ok b ->
  (b = true <-> exists x, In (Some x) vs /\ attribute_matchesb k sv x = true).
Proof.
  intros H. destruct b.
  - split; [intros _|reflexivity].
    destruct (any_true _ _ H) as (v & Hv & Hc).
    apply call_matches_true in Hc. destruct Hc as (x & -> & Hx). eauto.
  - split; [discriminate|]. intros (x & Hin & Hx). exfalso.
    pose proof (any_false _ _ H _ Hin) as Hc.
    assert (Ht : call_matches f (Some x) = Ok true)
      by (apply call_matches_true; eauto).
    congruence.
Qed.

Lemma _link_matches_spec r b :
  _link_matches r k (call_matches f) = Ok b ->
  (b = true <-> exists x, In (k, Some x) (Link.attr_pairs r)
                          /\ attribute_matchesb k sv x = true).
Proof.
  unfold _link_matches. intros H. destruct b.
  - split; [intros _|reflexivity].
    destruct (any_true _ _ H) as ([k' v] & Hin & Hc). cbn [fst snd] in Hc.
    destruct (k' =? k)%string eqn:E; [|discriminate].
    apply String.eqb_eq in E. subst k'.
    apply call_matches_true in Hc. destruct Hc as (x & -> & Hx). eauto.
  - split; [discriminate|]. intros (x & Hin & Hx). exfalso.
    pose proof (any_false _ _ H _ Hin) as Hc. cbn [fst snd] in Hc.
    rewrite String.eqb_refl in Hc.
    assert (Ht : call_matches f (Some x) = Ok true)
      by (apply call_matches_true; eauto).
    congruence.
Qed.

Lemma params_match_spec c b :
  params_match f c = Ok b ->
  (b = true <-> exists vs x, q_get (Reg.registration_parameters c) k = Some vs
                             /\ In (Some x) vs /\ attribute_matchesb k sv x = true).
Proof.
  unfold params_match, read_search_key. cbn [search_key exc_bind].
  destruct (q_get (Reg.registration_parameters c) k) as [vs|] eqn:E.
  - intros H. rewrite (any_call_matches _ _ H). split.
    + intros (x & Hx). exists vs, x. auto.
    + intros (vs' & x & [= <-] & Hx). exists x. auto.
  - intros [= <-]. split; [discriminate|]. intros (vs & x & Hvs & _). discriminate.
Qed.

Lemma or_else_Ok a c b :
  Py.or_else a c = Ok b ->
  (a = Ok true /\ b = true) \/ (a = Ok false /\ c = Ok b).
Proof.
  unfold Py.or_else. destruct a as [[|]|e]; try discriminate.
  - intros [= <-]. auto.
  - auto.
Qed.

(** The condition of the generator of the endpoint view: when it
    answers, the answer says whether the endpoint matches [k=sv]. *)
Lemma ep_condition_spec c b :
  ep_condition urljoin f st c = Ok b ->
  (b = true <-> endpoint_matches urljoin k sv c).
Proof.
  unfold endpoint_matches. destruct (k =? "href")%string eqn:Ek.
  - cbn [ep_condition]. intros H.
    assert (Hh : call_matches f (Some (Reg.href c))
                 = Ok (attribute_matchesb k sv (Reg.href c)))
      by (unfold call_matches; cbn [matches]; apply call_m).
    destruct (or_else_Ok _ _ _ H) as [[Ha ->]|[Ha Hc]].
    + split; [intros _|reflexivity]. left. congruence.
    + destruct (get_based_links urljoin c) as [ls|e] eqn:El; [|discriminate].
      cbn [exc_bind] in Hc.
      rewrite (any_total _ (fun r => attribute_matchesb k sv (Link.href r))) in Hc.
      2:{ intros r _. unfold call_matches. cbn [matches]. apply call_m. }
      injection Hc as <-. rewrite existsb_exists. split.
      * intros (r & Hr & Hm). right. exists ls, r. auto.
      * intros [Hm|(ls' & r & [= <-] & Hr & Hm)]; [congruence|]. exists r. auto.
  - cbn [ep_condition]. intros H.
    destruct (or_else_Ok _ _ _ H) as [[Ha ->]|[Ha Hc]].
    + split; [intros _|reflexivity]. left. apply (params_match_spec _ _ Ha). reflexivity.
    + pose proof (params_match_spec _ _ Ha) as Hp.
      destruct (get_based_links urljoin c) as [ls|e] eqn:El; [|discriminate].
      cbn [exc_bind] in Hc.
      unfold read_search_key in Hc. cbn [search_key exc_bind] in Hc.
      destruct b.
      * split; [intros _|reflexivity]. right.
        destruct (any_true _ _ Hc) as (r & Hr & Hm).
        apply _link_matches_spec in Hm.
        destruct (proj1 Hm eq_refl) as (x & Hx & Hxm). exists ls, r, x. auto.
      * split; [discriminate|]. intros [Hm|(ls' & r & x & [= <-] & Hr & Hx & Hm)].
        -- apply Hp in Hm. discriminate.
        -- pose proof (any_false _ _ Hc _ Hr) as Hf.
           apply _link_matches_spec in Hf. apply Hf. eauto.
Qed.

End SingleValue.

Section ResourcePairs.
Variable urljoin : string -> string -> string.
Variable cond : Reg.t * Link.t -> exc bool.


End ResourcePairs.




(** What a generator tests is read from the loop variables when it runs:
    with two keys, both generators test the last key and value, and an
    endpoint that matches only those is kept; with [count] as the last
    key, the generator of [et=q] looks for an attribute [count]. *)
Lemma generators_read_the_loop_variables_late :
  filter_loop Sample.et_x_foo_z
  = (mkFrame (Some "foo") (Some (Some "z")) (Some Equals_search_value),
     [Stage_attr; Stage_attr])
  /\ option_map (List.length (A:=Reg.t))
       (match ep_filter Sample.urljoin Sample.rd_b Sample.et_x_foo_z with
        | Ok r => Some r
        | Raise _ => None
        end) = Some 1
  /\ ep_filter Sample.urljoin Sample.rd_b (query_split ["et=q"; "count=5"]) = Ok [].
Proof. repeat apply conj; vm_compute; reflexivity. Qed.

(** ** Path allocation *)

Lemma str_inj i j : Py.str i = Py.str j -> i = j.
Proof.
  unfold Py.str. intros H. apply Unsigned.to_uint_inj.
  pose proof (NilEmpty.usu (Nat.to_uint i)) as Hi.
  pose proof (NilEmpty.usu (Nat.to_uint j)) as Hj.
  rewrite H in Hi. congruence.
Qed.

Lemma pathtail_inj i j : pathtail i = pathtail j -> i = j.
Proof. unfold pathtail. intros [= H]. apply str_inj. exact H. Qed.

(** The search stops at the first free candidate it tests. *)
Lemma _new_pathtail_from_spec by_path fuel i :
  exists j,
    _new_pathtail_from by_path fuel i = pathtail j
    /\ i <= j <= i + fuel
    /\ (forall j', i <= j' < j -> Dict.mem path_eqb by_path (pathtail j') = true)
    /\ (j < i + fuel -> Dict.mem path_eqb by_path (pathtail j) = false).
Proof.
  revert i. induction fuel as [|fuel IH]; intros i; simpl.
  - exists i. split; [reflexivity|]. split; [lia|]. split; intros; lia.
  - destruct (Dict.mem path_eqb by_path (pathtail i)) eqn:E.
    + destruct (IH (S i)) as (j & Hj & Hr & Hocc & Hfree).
      exists j. split; [exact Hj|]. split; [lia|]. split.
      * intros j' Hj'. destruct (Nat.eq_dec j' i) as [->|Hne]; [exact E|].
        apply Hocc. lia.
      * intros Hlt. apply Hfree. lia.
    + exists i. split; [reflexivity|]. split; [lia|]. split.
      * intros j' Hj'. lia.
      * intros _. exact E.
Qed.

(** A dictionary with [n] entries cannot hold the [n + 1] paths
    [pathtail 1 .. pathtail (n + 1)]. *)
Lemma pathtails_do_not_fit (by_path : Dict.t Path nat) :
  (forall j, 1 <= j < 1 + List.length by_path ->
             Dict.mem path_eqb by_path (pathtail j) = true) ->
  Dict.mem path_eqb by_path (pathtail (1 + List.length by_path)) = false.
Proof.
  intros Hocc.
  destruct (Dict.mem path_eqb by_path (pathtail (1 + List.length by_path))) eqn:E;
    [exfalso|reflexivity].
  set (n := List.length by_path) in *.
  assert (Hnd : NoDup (map pathtail (seq 1 (S n)))).
  { apply Injective_map_NoDup; [intros a b; apply pathtail_inj|apply seq_NoDup]. }
  assert (Hincl : incl (map pathtail (seq 1 (S n))) (Dict.keys by_path)).
  { intros p Hp. apply in_map_iff in Hp. destruct Hp as (j & <- & Hj).
    apply in_seq in Hj. apply (mem_keys _ _ _ path_eqb_eq).
    destruct (Nat.eq_dec j (1 + n)) as [->|Hne]; [exact E|]. apply Hocc. lia. }
  pose proof (NoDup_incl_length Hnd Hincl) as Hlen.
  unfold Dict.keys in Hlen. rewrite !length_map, length_seq in Hlen.
  unfold n in Hlen. lia.
Qed.

(** [_new_pathtail] answers with the path of the smallest positive
    integer that is not in use; in particular the path is free. *)
Lemma _new_pathtail_least w :
  exists j,
    _new_pathtail w = pathtail j /\ 1 <= j
    /\ (forall j', 1 <= j' < j -> Dict.mem path_eqb (_by_path w) (pathtail j') = true)
    /\ Dict.mem path_eqb (_by_path w) (pathtail j) = false.
Proof.
  unfold _new_pathtail.
  destruct (_new_pathtail_from_spec (_by_path w) (List.length (_by_path w)) 1)
    as (j & Hj & Hr & Hocc & Hfree).
  exists j. split; [exact Hj|]. split; [lia|]. split; [exact Hocc|].
  destruct (Nat.eq_dec j (1 + List.length (_by_path w))) as [->|Hne].
  - apply pathtails_do_not_fit. exact Hocc.
  - apply Hfree. lia.
Qed.

Lemma _new_pathtail_fresh w : by_path_get w (_new_pathtail w) = None.
Proof.
  destruct (_new_pathtail_least w) as (j & -> & _ & _ & H).
  unfold Dict.mem in H. unfold by_path_get.
  destruct (Dict.get path_eqb (_by_path w) (pathtail j)); [discriminate|reflexivity].
Qed.

(** ** The invariant of the directory *)

Lemma keeps_identity_refl s : keeps_identity s s.
Proof. unfold keeps_identity. auto. Qed.

Lemma keeps_identity_trans s1 s2 s3 :
  keeps_identity s1 s2 -> keeps_identity s2 s3 -> keeps_identity s1 s3.
Proof.
  unfold keeps_identity. intros (A1 & A2 & A3 & A4) (B1 & B2 & B3 & B4).
  repeat apply conj; try congruence; auto.
Qed.

Lemma extends_refl w : extends w w.
Proof.
  unfold extends. repeat apply conj; auto.
  intros i s H. exists s. split; [exact H|apply keeps_identity_refl].
Qed.

Lemma extends_trans w1 w2 w3 : extends w1 w2 -> extends w2 w3 -> extends w1 w3.
Proof.
  intros (A1 & A2 & A3) (B1 & B2 & B3). unfold extends.
  repeat apply conj; try congruence.
  intros i s H. destruct (A3 _ _ H) as (s2 & H2 & K2).
  destruct (B3 _ _ H2) as (s3 & H3 & K3).
  exists s3. split; [exact H3|apply (keeps_identity_trans _ _ _ K2 K3)].
Qed.

Lemma extends_log evs w : extends w (log evs w).
Proof.
  unfold extends. simpl. repeat apply conj; auto.
  intros i s H. exists s. split; [exact H|apply keeps_identity_refl].
Qed.

Lemma extends_store self s s' w :
  nth_error (objects w) self = Some s -> keeps_identity s s' ->
  extends w (store self s' w).
Proof.
  intros Hs K. unfold extends. simpl. repeat apply conj; auto.
  intros i s0 H. destruct (Nat.eq_dec self i) as [<-|Hne].
  - rewrite (nth_error_list_set_same _ _ _ _ Hs).
    rewrite Hs in H. injection H as <-. eauto.
  - rewrite (nth_error_list_set_other _ _ _ _ Hne). exists s0.
    split; [exact H|apply keeps_identity_refl].
Qed.

Lemma framed_ret {A} (a : A) : framed (ret a).
Proof. intros w w' r [= <- _]. apply extends_refl. Qed.

Lemma framed_raise {A} e : framed (raise (A:=A) e).
Proof. intros w w' r [= <- _]. apply extends_refl. Qed.

Lemma framed_lift {A} (c : exc A) : framed (lift c).
Proof. intros w w' r [= <- _]. apply extends_refl. Qed.

Lemma framed_emit e : framed (emit e).
Proof. intros w w' r [= <- _]. apply extends_log. Qed.

Lemma framed_get_rd : framed get_rd.
Proof. intros w w' r [= <- _]. apply extends_refl. Qed.

Lemma framed_get_obj self : framed (get_obj self).
Proof.
  intros w w' r. unfold get_obj.
  destruct (nth_error (objects w) self); intros [= <- _]; apply extends_refl.
Qed.

Lemma framed_bind {A B} (c : M A) (k : A -> M B) :
  framed c -> (forall a, framed (k a)) -> framed (bind c k).
Proof.
  intros Hc Hk w w' r. unfold bind.
  destruct (c w) as [w1 [a|e]] eqn:E.
  - intros H. apply (extends_trans _ w1); [apply (Hc _ _ _ E)|apply (Hk _ _ _ _ H)].
  - intros [= <- _]. apply (Hc _ _ _ E).
Qed.

(** Reading an object and writing back one with the same identity. *)
Lemma framed_modify {A} self (k : Reg.t -> M A) :
  (forall s w, nth_error (objects w) self = Some s -> forall w' r,
               k s w = (w', r) -> extends w w') ->
  framed (bind (get_obj self) k).
Proof.
  intros Hk w w' r. unfold bind, get_obj.
  destruct (nth_error (objects w) self) as [s|] eqn:E.
  - apply (Hk s w E).
  - intros [= <- _]. apply extends_refl.
Qed.

Lemma framed_set_timeout self : framed (_set_timeout self).
Proof.
  apply framed_modify. intros s w Hs w' r. unfold bind, emit, put_obj.
  intros [= <- _]. apply (extends_trans _ (log [EvTask self (Reg.lt s + Reg.grace_period)] w));
    [apply extends_log|].
  apply (extends_store _ s); [exact Hs|].
  unfold keeps_identity. simpl. repeat apply conj; auto. discriminate.
Qed.

Lemma framed_timeout_cancel self : framed (timeout_cancel self).
Proof.
  apply framed_modify. intros s w Hs w' r.
  destruct (Reg.timeout s) as [t|] eqn:Et.
  - unfold bind, emit, put_obj. intros [= <- _].
    apply (extends_trans _ (log [EvCancel self] w)); [apply extends_log|].
    apply (extends_store _ s); [exact Hs|].
    unfold keeps_identity. simpl. repeat apply conj; auto. discriminate.
  - intros [= <- _]. apply extends_refl.
Qed.

Lemma framed_refresh_timeout self : framed (refresh_timeout self).
Proof.
  apply framed_bind; [apply framed_timeout_cancel|]. intros _. apply framed_set_timeout.
Qed.

Lemma framed_updated_state : framed _updated_state.
Proof.
  intros w w' r H. destruct (_updated_state_logs _ _ _ H) as (evs & ->).
  apply extends_log.
Qed.

(** The assignments of [update_params] keep the identity of the object,
    however far they get. *)
Lemma update_params_apply_keeps_identity s c init s1 r :
  update_params_apply s c init = (s1, r) -> keeps_identity s s1.
Proof.
  unfold update_params_apply, base_differs, keeps_identity.
  repeat (case_innermost; simpl); intros [= <- _]; simpl;
    repeat apply conj; auto; intros; simpl; congruence.
Qed.

Lemma framed_update_params self nr rp init : framed (update_params self nr rp init).
Proof.
  apply framed_modify. intros s w Hs w' r.
  unfold bind at 1. unfold lift at 1.
  destruct (update_params_check s nr rp init) as [c|e];
    [|intros [= <- _]; apply extends_refl].
  destruct (update_params_apply s c init) as [s1 r1] eqn:Ea.
  pose proof (update_params_apply_keeps_identity _ _ _ _ _ Ea) as K.
  unfold bind at 1. unfold put_obj at 1.
  intros H. apply (extends_trans _ (store self s1 w)); [apply (extends_store _ s); auto|].
  revert H. apply framed_bind; [apply framed_lift|]. intros ac.
  apply framed_bind.
  - destruct init; [apply framed_set_timeout|apply framed_refresh_timeout].
  - intros _. destruct ac; [apply framed_updated_state|apply framed_ret].
Qed.

Lemma installed_extends w w' key tail r :
  extends w w' -> installed w key tail r -> installed w' key tail r.
Proof.
  intros (Hk & Hp & Hobj) (H1 & H2 & s & Hs & Hpath & Hcb & Ht & Hb).
  destruct (Hobj _ _ Hs) as (s' & Hs' & K1 & K2 & K3 & K4).
  unfold installed, by_key_get, by_path_get. rewrite Hk, Hp.
  repeat apply conj; auto. exists s'. repeat apply conj; auto; congruence.
Qed.

Lemma consistent_extends w w' : extends w w' -> consistent w -> consistent w'.
Proof.
  intros E (C1 & C2). pose proof E as (Hk & Hp & _). split.
  - intros key r H. unfold by_key_get in H. rewrite Hk in H.
    destruct (C1 _ _ H) as (tail & I). exists tail. apply (installed_extends _ _ _ _ _ E I).
  - intros tail r H. unfold by_path_get in H. rewrite Hp in H.
    destruct (C2 _ _ H) as (key & I). exists key. apply (installed_extends _ _ _ _ _ E I).
Qed.

Lemma consistent_init : consistent CommonRD_init.
Proof. split; intros ? ? H; discriminate H. Qed.

(** Exceptions included, [update_params] keeps the directory consistent. *)
Lemma update_params_consistent self nr rp init w w' r :
  consistent w -> update_params self nr rp init w = (w', r) -> consistent w'.
Proof.
  intros C H. apply (consistent_extends w); [|exact C].
  apply (framed_update_params _ _ _ _ _ _ _ H).
Qed.

Lemma get_mem {K V} (eqb : K -> K -> bool) (d : Dict.t K V) k v :
  Dict.get eqb d k = Some v -> Dict.mem eqb d k = true.
Proof. unfold Dict.mem. intros ->. reflexivity. Qed.

(** Removing the entries of an installed registration. *)
Lemma consistent_remove w w' key tail r :
  consistent w -> installed w key tail r ->
  _by_key w' = Dict.remove key_eqb (_by_key w) key ->
  _by_path w' = Dict.remove path_eqb (_by_path w) tail ->
  objects w' = objects w ->
  consistent w'.
Proof.
  intros (C1 & C2) (Ik & Ip & s & Hs & _ & Hcb & _) Hk Hp Ho.
  assert (Keep : forall key' tail' r',
             key' <> key -> tail' <> tail -> installed w key' tail' r' ->
             installed w' key' tail' r').
  { intros key' tail' r' Nk Np (Jk & Jp & J).
    unfold installed, by_key_get, by_path_get. rewrite Hk, Hp, Ho.
    rewrite (get_remove_other _ _ _ key_eqb_eq) by congruence.
    rewrite (get_remove_other _ _ _ path_eqb_eq) by congruence.
    auto. }
  assert (Same : forall key' tail' r',
             installed w key' tail' r' -> (key' = key <-> tail' = tail)).
  { intros key' tail' r' (Jk & Jp & s' & Hs' & _ & Hcb' & _). split; intros ->.
    - assert (r' = r) by congruence. subst r'. congruence.
    - assert (r' = r) by congruence. subst r'. congruence. }
  split.
  - intros key' r' H. unfold by_key_get in H. rewrite Hk in H.
    destruct (key_eqb key key') eqn:E.
    + apply key_eqb_eq in E. subst key'. rewrite get_remove_same in H. discriminate.
    + assert (Nk : key' <> key)
        by (intros ->; rewrite (eqb_refl _ _ key_eqb_eq) in E; discriminate).
      rewrite (get_remove_other _ _ _ key_eqb_eq) in H by congruence.
      destruct (C1 _ _ H) as (tail' & I). exists tail'.
      apply Keep; auto. intros ->. apply Nk. apply (Same _ _ _ I). reflexivity.
  - intros tail' r' H. unfold by_path_get in H. rewrite Hp in H.
    destruct (path_eqb tail tail') eqn:E.
    + apply path_eqb_eq in E. subst tail'. rewrite get_remove_same in H. discriminate.
    + assert (Np : tail' <> tail)
        by (intros ->; rewrite (eqb_refl _ _ path_eqb_eq) in E; discriminate).
      rewrite (get_remove_other _ _ _ path_eqb_eq) in H by congruence.
      destruct (C2 _ _ H) as (key' & I). exists key'.
      apply Keep; auto. intros ->. apply Np. apply (Same _ _ _ I). reflexivity.
Qed.

(** Installing a registration at a free key and a free path. *)
Lemma consistent_install w w' key tail r s :
  consistent w ->
  by_key_get w key = None -> by_path_get w tail = None ->
  nth_error (objects w) r = Some s ->
  Reg.path s = entity_prefix ++ tail -> Reg._delete_cb s = (tail, key) ->
  Reg.timeout s <> None -> Reg.base s <> None ->
  _by_key w' = Dict.set key_eqb (_by_key w) key r ->
  _by_path w' = Dict.set path_eqb (_by_path w) tail r ->
  objects w' = objects w ->
  consistent w'.
Proof.
  intros (C1 & C2) Fk Fp Hs Hpath Hcb Ht Hb Hk Hp Ho.
  assert (New : installed w' key tail r).
  { unfold installed, by_key_get, by_path_get. rewrite Hk, Hp, Ho.
    rewrite (get_set_same _ _ _ key_eqb_eq), (get_set_same _ _ _ path_eqb_eq).
    repeat apply conj; auto. exists s. auto. }
  assert (Keep : forall key' tail' r',
             installed w key' tail' r' -> installed w' key' tail' r').
  { intros key' tail' r' (Jk & Jp & J).
    unfold installed, by_key_get, by_path_get in *. rewrite Hk, Hp, Ho.
    rewrite (get_set_other _ _ _ key_eqb_eq) by congruence.
    rewrite (get_set_other _ _ _ path_eqb_eq) by congruence.
    auto. }
  split.
  - intros key' r' H. destruct (key_eqb key key') eqn:E.
    + apply key_eqb_eq in E. subst key'. exists tail.
      assert (r' = r) by (destruct New as (N & _); congruence). subst r'. exact New.
    + assert (Nk : key <> key')
        by (intros ->; rewrite (eqb_refl _ _ key_eqb_eq) in E; discriminate).
      unfold by_key_get in H. rewrite Hk in H.
      rewrite (get_set_other _ _ _ key_eqb_eq) in H by exact Nk.
      destruct (C1 _ _ H) as (tail' & I). exists tail'. apply Keep. exact I.
  - intros tail' r' H. destruct (path_eqb tail tail') eqn:E.
    + apply path_eqb_eq in E. subst tail'. exists key.
      assert (r' = r) by (destruct New as (_ & N & _); congruence). subst r'. exact New.
    + assert (Np : tail <> tail')
        by (intros ->; rewrite (eqb_refl _ _ path_eqb_eq) in E; discriminate).
      unfold by_path_get in H. rewrite Hp in H.
      rewrite (get_set_other _ _ _ path_eqb_eq) in H by exact Np.
      destruct (C2 _ _ H) as (key' & I). exists key'. apply Keep. exact I.
Qed.

(** [Registration.delete] on an installed registration keeps the
    directory consistent, whether it returns or stops at an exception of
    a subscriber. *)
Lemma delete_consistent self w w' r key tail :
  consistent w -> installed w key tail self ->
  delete self w = (w', r) -> consistent w'.
Proof.
  intros C I. unfold delete. unfold bind at 1.
  destruct (timeout_cancel self w) as [w1 [[]|e]] eqn:E1.
  2:{ intros [= <- _]. apply (consistent_extends w); [|exact C].
      apply (framed_timeout_cancel _ _ _ _ E1). }
  pose proof (framed_timeout_cancel _ _ _ _ E1) as X1.
  unfold bind at 1.
  destruct (_updated_state w1) as [w2 [[]|e]] eqn:E2.
  2:{ intros [= <- _]. apply (consistent_extends w1); [|apply (consistent_extends w); auto].
      apply (framed_updated_state _ _ _ E2). }
  pose proof (framed_updated_state _ _ _ E2) as X2.
  pose proof (extends_trans _ _ _ X1 X2) as X.
  pose proof (consistent_extends _ _ X C) as C2.
  pose proof (installed_extends _ _ _ _ _ X I) as I2.
  destruct I2 as (Ik & Ip & s & Hs & Hpath & Hcb & Ht & Hb).
  unfold bind at 1. rewrite (get_obj_run _ _ _ Hs). rewrite Hcb. cbn [fst snd].
  unfold delete_closure, bind, emit, get_rd, lift, set_by_path, set_by_key. simpl.
  unfold Dict.del.
  rewrite (get_mem _ _ _ _ Ip), (get_mem _ _ _ _ Ik).
  intros [= <- _].
  apply (consistent_remove w2 _ key tail self); auto.
  unfold installed. repeat apply conj; auto. exists s. auto.
Qed.

Lemma framed_new_obj s : framed (new_obj s).
Proof.
  intros w w' r [= <- _]. unfold extends. simpl. repeat apply conj; auto.
  intros i s0 H. exists s0. split; [|apply keeps_identity_refl].
  rewrite nth_error_app1; [exact H|]. apply nth_error_Some. congruence.
Qed.

Lemma framed_Registration_new sp path nr cb rp :
  framed (Registration_new sp path nr cb rp).
Proof.
  apply framed_bind; [apply framed_new_obj|]. intros self.
  apply framed_bind; [apply framed_update_params|]. intros _. apply framed_ret.
Qed.

(** After its first [update_params] a registration has a base. *)
Lemma update_params_apply_initial_base s c s1 ac :
  Reg.base_is_explicit s = false ->
  update_params_apply s c true = (s1, Ok ac) -> Reg.base s1 <> None.
Proof.
  unfold update_params_apply. intros He. revert He.
  repeat (case_innermost; simpl; try discriminate); intros He;
    intros [= <- _]; simpl; try discriminate;
    repeat match goal with
           | H : (_, _) = (_, _) |- _ => injection H as ? ?
           | H : Ok _ = Ok _ |- _ => injection H as ?
           end;
    subst; simpl in *; congruence.
Qed.

(** The second half of [initialize_endpoint], at a free key and path. *)
Lemma register_consistent sp nr rp key path w w' (r : exc nat) :
  consistent w -> by_key_get w key = None -> by_path_get w path = None ->
  (reg <- Registration_new sp (entity_prefix ++ path) nr (path, key) rp ;;
   w0 <- get_rd ;;
   set_by_key (Dict.set key_eqb (_by_key w0) key reg) ;;
   w1 <- get_rd ;;
   set_by_path (Dict.set path_eqb (_by_path w1) path reg) ;;
   ret reg) w = (w', r) ->
  consistent w'.
Proof.
  intros C Fk Fp. unfold bind at 1.
  destruct (Registration_new _ _ _ _ _ w) as [w2 [reg|e]] eqn:E.
  2:{ intros [= <- _]. apply (consistent_extends w); [|exact C].
      apply (framed_Registration_new _ _ _ _ _ _ _ _ E). }
  pose proof (framed_Registration_new _ _ _ _ _ _ _ _ E) as X.
  pose proof (consistent_extends _ _ X C) as C2.
  destruct X as (Xk & Xp & _).
  destruct (Registration_new_success _ _ _ _ _ _ _ _ E) as (Hreg & Hup).
  destruct (update_params_effect _ _ _ _ _ _ Hup)
    as (s & c & s1 & ac & Hs & _ & Ha & Hobj & _).
  simpl in Hs. rewrite Hreg, nth_error_snoc in Hs. injection Hs as <-.
  destruct (update_params_apply_keeps_identity _ _ _ _ _ Ha) as (K1 & K2 & _ & _).
  assert (Kb : Reg.base s1 <> None)
    by (refine (update_params_apply_initial_base _ _ _ _ _ Ha); reflexivity).
  unfold bind, get_rd, set_by_key, set_by_path, ret. simpl. intros [= <- _].
  apply (consistent_install w2 _ key path reg
           (Reg.with_timeout s1 (mkTask (Reg.lt s1 + Reg.grace_period) false)));
    simpl; auto.
  - unfold by_key_get. rewrite Xk. exact Fk.
  - unfold by_path_get. rewrite Xp. exact Fp.
  - discriminate.
Qed.

(** [initialize_endpoint] keeps the directory consistent, whether it
    returns the new registration or raises. *)
Lemma initialize_endpoint_consistent nr rp w w' r :
  consistent w -> initialize_endpoint nr rp w = (w', r) -> consistent w'.
Proof.
  intros C. unfold initialize_endpoint. unfold bind at 1. unfold lift at 1.
  destruct (pop_single_arg rp "ep") as [[[ep|] rp1]|e];
    try (intros [= <- _]; exact C).
  unfold bind at 1. unfold lift at 1.
  destruct (pop_single_arg rp1 "d") as [[d rp2]|e];
    try (intros [= <- _]; exact C).
  unfold bind at 1. unfold get_rd at 1.
  destruct (by_key_get w (ep, d)) as [oldreg|] eqn:Ek.
  - destruct (proj1 C _ _ Ek) as (tail & I).
    pose proof I as (_ & Ip & old & Hold & Hpath & Hcb & _).
    unfold bind at 1. unfold bind at 1. rewrite (get_obj_run _ _ _ Hold).
    unfold bind at 1.
    destruct (delete oldreg w) as [w1 [[]|e]] eqn:Ed.
    2:{ intros [= <- _]. apply (delete_consistent _ _ _ _ _ _ C I Ed). }
    pose proof (delete_consistent _ _ _ _ _ _ C I Ed) as C1.
    destruct (delete_success _ _ _ Ed) as (old0 & t & Hold0 & _ & _ & _ & Hw1).
    rewrite Hold in Hold0. injection Hold0 as <-.
    rewrite Hcb in Hw1. cbn [fst snd] in Hw1.
    unfold ret at 1. rewrite Hpath. simpl skipn.
    apply (register_consistent _ _ _ _ _ _ _ _ C1).
    + rewrite Hw1. unfold by_key_get. simpl. apply get_remove_same.
    + rewrite Hw1. unfold by_path_get. simpl. apply get_remove_same.
  - unfold bind at 1. unfold ret at 1.
    apply (register_consistent _ _ _ _ _ _ _ _ C Ek).
    apply _new_pathtail_fresh.
Qed.

(** ** When registration returns *)

(** The checks of an initial [update_params] do not look at the object. *)
Lemma update_params_check_initial s s' nr rp :
  update_params_check s nr rp true = update_params_check s' nr rp true.
Proof. reflexivity. Qed.

(** The assignments of an initial [update_params] go through as soon as
    a base is supplied or the origin has given one. *)
Lemma update_params_apply_initial_returns s c :
  Reg.base_is_explicit s = false ->
  set_base c <> None \/ network_base c <> None ->
  exists s1 ac, update_params_apply s c true = (s1, Ok ac).
Proof.
  intros He Hb. unfold update_params_apply.
  destruct (set_lt c) as [n|]; [destruct (negb (Reg.lt s =? n)%Z)|];
    (destruct (set_base c) as [b|];
     [simpl; match goal with
             | |- context [params_differ ?x ?y] => destruct (params_differ x y)
             end; eauto
     |simpl; rewrite He;
      destruct (network_base c) as [nb|];
      [simpl; match goal with
              | |- context [params_differ ?x ?y] => destruct (params_differ x y)
              end; eauto
      |destruct Hb; congruence]]).
Qed.

Lemma update_params_returns self nr rp init w s c s1 ac :
  nth_error (objects w) self = Some s ->
  update_params_check s nr rp init = Ok c ->
  update_params_apply s c init = (s1, Ok ac) ->
  (init = false -> Reg.timeout s <> None) ->
  forallb (fun cb => negb (cb_raises cb)) (_updated_state_cb w) = true ->
  exists w', update_params self nr rp init w = (w', Ok tt).
Proof.
  intros Hs Hc Ha Ht Hcb. unfold update_params. unfold bind at 1.
  rewrite (get_obj_run _ _ _ Hs). unfold bind at 1. unfold lift at 1. rewrite Hc, Ha.
  unfold bind at 1. unfold put_obj. unfold bind at 1. unfold lift at 1.
  assert (Hs1 : nth_error (objects (store self s1 w)) self = Some s1)
    by (simpl; apply (nth_error_list_set_same _ _ _ _ Hs)).
  assert (Harm : exists w1,
             (if init then _set_timeout self else refresh_timeout self) (store self s1 w)
             = (w1, Ok tt)
             /\ _updated_state_cb w1 = _updated_state_cb w).
  { destruct init.
    - rewrite (_set_timeout_run _ _ _ Hs1). eexists. split; reflexivity.
    - destruct (update_params_apply_spec _ _ _ _ _ Ha) as (_ & _ & _ & _ & _ & _ & Hto).
      destruct (Reg.timeout s1) as [t|] eqn:Et;
        [|exfalso; apply (Ht eq_refl); congruence].
      unfold refresh_timeout, bind.
      rewrite (timeout_cancel_run _ _ _ _ Hs1 Et).
      rewrite (_set_timeout_run _ _ (Reg.with_timeout s1 (mkTask (delay t) true))).
      2:{ simpl. apply (nth_error_list_set_same _ _ _ _ Hs1). }
      eexists. split; reflexivity. }
  destruct Harm as (w1 & Harm & Hcb1). unfold bind at 1. rewrite Harm.
  destruct ac.
  - rewrite _updated_state_all_return by (rewrite Hcb1; exact Hcb). eauto.
  - exists w1. reflexivity.
Qed.

Lemma delete_returns self w key tail :
  installed w key tail self ->
  forallb (fun cb => negb (cb_raises cb)) (_updated_state_cb w) = true ->
  exists w', delete self w = (w', Ok tt).
Proof.
  intros (Ik & Ip & s & Hs & _ & Hcb & Ht & _) Hcbs.
  destruct (Reg.timeout s) as [t|] eqn:Et; [|congruence].
  unfold delete. unfold bind at 1. rewrite (timeout_cancel_run _ _ _ _ Hs Et).
  unfold bind at 1. rewrite _updated_state_all_return by exact Hcbs.
  unfold bind at 1. unfold get_obj. simpl.
  rewrite (nth_error_list_set_same _ _ _ _ Hs). simpl. rewrite Hcb. simpl.
  unfold delete_closure, bind, emit, get_rd, lift, set_by_path, set_by_key. simpl.
  unfold Dict.del. rewrite (get_mem _ _ _ _ Ip), (get_mem _ _ _ _ Ik). eauto.
Qed.

(** In a consistent directory whose subscribers do not raise,
    [initialize_endpoint] returns whenever the query has a single [ep],
    at most one [d], passes the checks of [update_params], and a base is
    supplied or given by the origin. *)
Lemma initialize_endpoint_returns nr rp w ep d rp1 rp2 c :
  consistent w ->
  forallb (fun cb => negb (cb_raises cb)) (_updated_state_cb w) = true ->
  pop_single_arg rp "ep" = Ok (Some ep, rp1) ->
  pop_single_arg rp1 "d" = Ok (d, rp2) ->
  (forall s, update_params_check s nr rp2 true = Ok c) ->
  set_base c <> None \/ network_base c <> None ->
  exists w' reg, initialize_endpoint nr rp w = (w', Ok reg).
Proof.
  intros C Hcbs Hep Hd Hc Hb.
  assert (Reg_ok : forall w1 (path : Path),
             _updated_state_cb w1 = _updated_state_cb w ->
             exists w2 reg,
               Registration_new (ep_and_d_of rp) (entity_prefix ++ path) nr
                                (path, ((ep, d) : Key)) rp2 w1 = (w2, Ok reg)).
  { intros w1 path Hcb1. unfold Registration_new. unfold bind at 1. unfold new_obj.
    set (fresh := Reg.mk (entity_prefix ++ path) [] (path, ((ep, d) : Key))
                         (ep_and_d_of rp) 90000 false None None).
    destruct (update_params_apply_initial_returns fresh c eq_refl Hb) as (s1 & ac & Ha).
    set (w1' := mkRD (_by_key w1) (_by_path w1) (_updated_state_cb w1)
                     (objects w1 ++ [fresh]) (trace w1)).
    destruct (update_params_returns (List.length (objects w1)) nr rp2 true w1'
                fresh c s1 ac) as (w2 & Hup).
    - apply nth_error_snoc.
    - apply Hc.
    - exact Ha.
    - discriminate.
    - simpl. rewrite Hcb1. exact Hcbs.
    - unfold bind. fold w1'. rewrite Hup. unfold ret. eauto. }
  unfold initialize_endpoint. unfold bind at 1. unfold lift at 1. rewrite Hep.
  unfold bind at 1. unfold lift at 1. rewrite Hd.
  unfold bind at 1. unfold get_rd at 1.
  destruct (by_key_get w (ep, d)) as [oldreg|] eqn:Ek.
  - destruct (proj1 C _ _ Ek) as (tail & I).
    pose proof I as (_ & _ & old & Hold & Hpath & _).
    unfold bind at 1. unfold bind at 1. rewrite (get_obj_run _ _ _ Hold).
    destruct (delete_returns _ _ _ _ I Hcbs) as (w1 & Hdel).
    unfold bind at 1. rewrite Hdel. unfold ret at 1.
    destruct (delete_success _ _ _ Hdel) as (old0 & t & _ & _ & _ & _ & Hw1).
    destruct (Reg_ok w1 (skipn (List.length entity_prefix) (Reg.path old)))
      as (w2 & reg & Hnew); [rewrite Hw1; reflexivity|].
    eexists. eexists. unfold bind at 1.
    match goal with
    | |- context [Registration_new ?a ?b ?c ?d ?e ?f] =>
        replace (Registration_new a b c d e f) with (w2, Ok reg)
          by (symmetry; exact Hnew)
    end.
    unfold bind, get_rd, set_by_key, set_by_path, ret. reflexivity.
  - unfold bind at 1. unfold ret at 1.
    destruct (Reg_ok w (_new_pathtail w) eq_refl) as (w2 & reg & Hnew).
    eexists. eexists. unfold bind at 1.
    match goal with
    | |- context [Registration_new ?a ?b ?c ?d ?e ?f] =>
        replace (Registration_new a b c d e f) with (w2, Ok reg)
          by (symmetry; exact Hnew)
    end.
    unfold bind, get_rd, set_by_key, set_by_path, ret. reflexivity.
Qed.

(** ** Re-registration in a consistent directory *)

(** C8: in a consistent directory, when [initialize_endpoint] returns for
    a key [(ep, d)] that has a registration, the returned registration is
    a new object with the path of the old one; the trace shows the
    deletion of the old registration once (its task cancelled, the
    subscribers notified, its closure run) and before anything of the new
    registration, which is installed last; and afterwards key and path
    resolve to the new registration and to nothing else, in a directory
    that is consistent again. *)
Theorem initialize_endpoint_reregisters nr rp w w' reg ep d rp1 rp2 oldreg :
  consistent w ->
  pop_single_arg rp "ep" = Ok (Some ep, rp1) ->
  pop_single_arg rp1 "d" = Ok (d, rp2) ->
  by_key_get w (ep, d) = Some oldreg ->
  initialize_endpoint nr rp w = (w', Ok reg) ->
  exists old tail new old' t dly,
    nth_error (objects w) oldreg = Some old
    /\ by_path_get w tail = Some oldreg
    /\ reg = List.length (objects w)
    /\ nth_error (objects w') reg = Some new
    /\ Reg.path new = Reg.path old
    /\ Reg.timeout old = Some t
    /\ nth_error (objects w') oldreg = Some old'
    /\ Reg.timeout old' = Some (mkTask (delay t) true)
    /\ trace w'
       = trace w
         ++ [EvCancel oldreg; Ev_updated_state] ++ callback_events (_updated_state_cb w)
         ++ [EvDelete tail (ep, d)]
         ++ [EvTask reg dly; Ev_updated_state] ++ callback_events (_updated_state_cb w)
    /\ by_key_get w' (ep, d) = Some reg
    /\ by_path_get w' tail = Some reg
    /\ (forall r, In ((ep, d), r) (_by_key w') -> r = reg)
    /\ (forall r, In (tail, r) (_by_path w') -> r = reg)
    /\ consistent w'.
Proof.
  intros C Hep Hd Hkey H.
  destruct (proj1 C _ _ Hkey) as (tail & _ & Hp & old & Hold & Hpath & Hcb & _).
  destruct (reregistration_effect _ _ _ _ _ _ _ _ _ _ _ _ H Hep Hd Hkey Hold Hpath Hcb)
    as (new & old' & t & dly & R).
  exists old, tail, new, old', t, dly.
  split; [exact Hold|]. split; [exact Hp|].
  repeat (split; [apply R|]).
  apply (initialize_endpoint_consistent _ _ _ _ _ C H).
Qed.

Lemma initialize_endpoint_reregisters_witness :
  exists old tail new old' t dly,
    nth_error (objects Sample.rd1) 0 = Some old
    /\ by_path_get Sample.rd1 tail = Some 0
    /\ 1 = List.length (objects Sample.rd1)
    /\ nth_error (objects Sample.rd2) 1 = Some new
    /\ Reg.path new = Reg.path old
    /\ Reg.timeout old = Some t
    /\ nth_error (objects Sample.rd2) 0 = Some old'
    /\ Reg.timeout old' = Some (mkTask (delay t) true)
    /\ trace Sample.rd2
       = trace Sample.rd1
         ++ [EvCancel 0; Ev_updated_state]
         ++ callback_events (_updated_state_cb Sample.rd1)
         ++ [EvDelete tail ("a", None)]
         ++ [EvTask 1 dly; Ev_updated_state]
         ++ callback_events (_updated_state_cb Sample.rd1)
    /\ by_key_get Sample.rd2 ("a", None) = Some 1
    /\ by_path_get Sample.rd2 tail = Some 1
    /\ (forall r, In (("a", None), r) (_by_key Sample.rd2) -> r = 1)
    /\ (forall r, In (tail, r) (_by_path Sample.rd2) -> r = 1)
    /\ consistent Sample.rd2.
Proof.
  apply (initialize_endpoint_reregisters
           Sample.node1 (query_split ["ep=a"; "et=y"]) Sample.rd1 Sample.rd2 1
           "a" None [("et", [Some "y"])] [("et", [Some "y"])] 0).
  - apply (initialize_endpoint_consistent
             Sample.node1 (query_split ["ep=a"; "et=x"]) CommonRD_init Sample.rd1 (Ok 0)
             consistent_init).
    vm_compute. reflexivity.
  - vm_compute. reflexivity.
  - vm_compute. reflexivity.
  - vm_compute. reflexivity.
  - vm_compute. reflexivity.
Defined.
(* ================================================================== *)
(** * Further properties of the code *)

(** ** [query_split] *)

Lemma setdefault_append_get (result : query) k v k' :
  q_get (setdefault_append result k v) k'
  = if String.eqb k k'
    then Some (match q_get result k with Some vs => vs ++ [v] | None => [v] end)
    else q_get result k'.
Proof.
  unfold setdefault_append, q_get.
  destruct (String.eqb k k') eqn:E.
  - apply String.eqb_eq in E. subst k'.
    destruct (Dict.get String.eqb result k);
      apply (get_set_same _ _ _ String.eqb_eq).
  - apply String.eqb_neq in E.
    destruct (Dict.get String.eqb result k);
      apply (get_set_other _ _ _ String.eqb_eq); exact E.
Qed.

Lemma query_split_step (result : query) q :
  match split_eq q with
  | None => setdefault_append result q None
  | Some (k, v) => setdefault_append result k (Some v)
  end
  = setdefault_append result (fst (option_pair q)) (snd (option_pair q)).
Proof. unfold option_pair. destruct (split_eq q) as [[k v]|]; reflexivity. Qed.

Lemma query_split_from (acc : query) uri_query k :
  q_get (fold_left
           (fun result q =>
              match split_eq q with
              | None => setdefault_append result q None
              | Some (k, v) => setdefault_append result k (Some v)
              end) uri_query acc) k
  = match q_get acc k, values_of k uri_query with
    | None, [] => None
    | None, vs => Some vs
    | Some a, vs => Some (a ++ vs)
    end.
Proof.
  revert acc. induction uri_query as [|q qs IH]; intros acc; simpl.
  - unfold values_of. simpl. destruct (q_get acc k); [rewrite app_nil_r|]; reflexivity.
  - rewrite IH, query_split_step, setdefault_append_get.
    unfold values_of. simpl.
    rewrite (String.eqb_sym k (fst (option_pair q))).
    destruct (String.eqb (fst (option_pair q)) k) eqn:E; simpl.
    + apply String.eqb_eq in E. rewrite E.
      destruct (q_get acc k) as [a|].
      * rewrite <- app_assoc. reflexivity.
      * reflexivity.
    + reflexivity.
Qed.

Lemma keys_set {V} (d : Dict.t string V) k v :
  Dict.keys (Dict.set String.eqb d k v)
  = if Dict.mem String.eqb d k then Dict.keys d else Dict.keys d ++ [k].
Proof.
  unfold Dict.mem, Dict.keys. induction d as [|[k' v'] d IH]; simpl; [reflexivity|].
  destruct (String.eqb k k') eqn:E; simpl; [reflexivity|].
  rewrite IH. destruct (Dict.get String.eqb d k); reflexivity.
Qed.

Lemma In_set {V} (d : Dict.t string V) k v k' v' :
  In (k', v') (Dict.set String.eqb d k v) -> (k' = k /\ v' = v) \/ In (k', v') d.
Proof.
  induction d as [|[k0 v0] d IH]; simpl.
  - intros [[= <- <-]|[]]. left. split; reflexivity.
  - destruct (String.eqb k k0) eqn:E; simpl.
    + apply String.eqb_eq in E. subst k0.
      intros [[= <- <-]|H]; [left; split; reflexivity|right; right; exact H].
    + intros [H|H]; [right; left; exact H|].
      destruct (IH H) as [H'|H']; [left; exact H'|right; right; exact H'].
Qed.

Lemma setdefault_append_wf (result : query) k v :
  NoDup (Dict.keys result) /\ (forall k' vs, In (k', vs) result -> vs <> []) ->
  NoDup (Dict.keys (setdefault_append result k v))
  /\ (forall k' vs, In (k', vs) (setdefault_append result k v) -> vs <> []).
Proof.
  intros [Hnd Hne]. unfold setdefault_append, q_get. split.
  - assert (Hkeys : forall vs,
               NoDup (Dict.keys (Dict.set String.eqb result k vs))).
    { intros vs. rewrite keys_set.
      destruct (Dict.mem String.eqb result k) eqn:E; [exact Hnd|].
      apply NoDup_app; [exact Hnd|constructor; [intros []|constructor]|].
      intros x Hx [<-|[]].
      apply (mem_keys _ _ _ String.eqb_eq) in Hx. congruence. }
    destruct (Dict.get String.eqb result k); apply Hkeys.
  - intros k' vs Hin.
    destruct (Dict.get String.eqb result k) as [old|];
      apply In_set in Hin; destruct Hin as [[_ ->]|Hin];
      try (eapply Hne; exact Hin).
    + destruct old; discriminate.
    + discriminate.
Qed.

(** X1: the dictionary [query_split] builds holds, under every key that
    occurs among the options, exactly the values given for that key, in
    the order of the options ([None] for an option without [=]), and
    holds nothing under a key that does not occur. *)
Theorem query_split_collects_values uri_query k :
  q_get (query_split uri_query) k
  = match values_of k uri_query with
    | [] => None
    | vs => Some vs
    end.
Proof. unfold query_split. rewrite query_split_from. reflexivity. Qed.

(** X2: on the output of [query_split], [pop_single_arg] never reaches an
    empty list: it answers [None] for a key no option names, pops the
    value of a key named once, and raises the [NameError] of its [raise]
    statement for a key named more than once. *)
Theorem pop_single_arg_after_query_split uri_query name :
  pop_single_arg (query_split uri_query) name
  = match values_of name uri_query with
    | [] => Ok (None, query_split uri_query)
    | [v] => Ok (v, Dict.remove String.eqb (query_split uri_query) name)
    | _ => Raise (NameError "BadRequest")
    end.
Proof.
  unfold pop_single_arg, query_split. rewrite query_split_from.
  change (q_get [] name) with (@None (list value)). cbv iota.
  destruct (values_of name uri_query) as [|v [|v' vs]]; reflexivity.
Qed.

Lemma query_split_keys_from (acc : query) uri_query :
  Dict.keys (fold_left
               (fun result q =>
                  match split_eq q with
                  | None => setdefault_append result q None
                  | Some (k, v) => setdefault_append result k (Some v)
                  end) uri_query acc)
  = Dict.keys acc
    ++ first_seen (Dict.keys acc) (map (fun q => fst (option_pair q)) uri_query).
Proof.
  revert acc. induction uri_query as [|q qs IH]; intros acc; simpl.
  - rewrite app_nil_r. reflexivity.
  - rewrite IH, query_split_step. unfold setdefault_append, q_get.
    set (k := fst (option_pair q)).
    assert (Hkeys : forall vs,
               Dict.keys (Dict.set String.eqb acc k vs)
               = if in_names k (Dict.keys acc) then Dict.keys acc
                 else Dict.keys acc ++ [k]).
    { intros vs. rewrite keys_set.
      replace (in_names k (Dict.keys acc)) with (Dict.mem String.eqb acc k);
        [reflexivity|].
      unfold in_names.
      destruct (Dict.mem String.eqb acc k) eqn:E; symmetry.
      - apply existsb_exists. exists k. split; [|apply String.eqb_refl].
        apply (mem_keys _ _ _ String.eqb_eq). exact E.
      - destruct (existsb (String.eqb k) (Dict.keys acc)) eqn:E'; [|reflexivity].
        apply existsb_exists in E'. destruct E' as (x & Hx & Hk).
        apply String.eqb_eq in Hk. subst x.
        apply (mem_keys _ _ _ String.eqb_eq) in Hx. congruence. }
    assert (Hgoal : forall vs,
               Dict.keys (Dict.set String.eqb acc k vs)
               ++ first_seen (Dict.keys (Dict.set String.eqb acc k vs))
                    (map (fun q => fst (option_pair q)) qs)
               = Dict.keys acc
                 ++ (if in_names k (Dict.keys acc)
                     then first_seen (Dict.keys acc)
                            (map (fun q => fst (option_pair q)) qs)
                     else k :: first_seen (Dict.keys acc ++ [k])
                                 (map (fun q => fst (option_pair q)) qs))).
    { intros vs. rewrite Hkeys.
      destruct (in_names k (Dict.keys acc)); [reflexivity|].
      rewrite <- app_assoc. reflexivity. }
    destruct (Dict.get String.eqb acc k); apply Hgoal.
Qed.

(** The dictionary [query_split] builds holds every key once and no
    empty list. *)
Lemma query_split_wf uri_query :
  NoDup (Dict.keys (query_split uri_query))
  /\ (forall k vs, In (k, vs) (query_split uri_query) -> vs <> []).
Proof.
  unfold query_split.
  assert (H : forall acc : query,
             NoDup (Dict.keys acc) /\ (forall k vs, In (k, vs) acc -> vs <> []) ->
             NoDup (Dict.keys
                      (fold_left
                         (fun result q =>
                            match split_eq q with
                            | None => setdefault_append result q None
                            | Some (k, v) => setdefault_append result k (Some v)
                            end) uri_query acc))
             /\ (forall k vs,
                   In (k, vs)
                      (fold_left
                         (fun result q =>
                            match split_eq q with
                            | None => setdefault_append result q None
                            | Some (k, v) => setdefault_append result k (Some v)
                            end) uri_query acc) -> vs <> [])).
  { induction uri_query as [|q qs IH]; intros acc Hacc; simpl; [exact Hacc|].
    apply IH. rewrite query_split_step. apply setdefault_append_wf. exact Hacc. }
  apply H. split; [constructor|intros k vs []].
Qed.

(** X3: the keys of the dictionary [query_split] builds are the keys of
    the options in the order of their first occurrence, each once, and
    none of its value lists is empty. *)
Theorem query_split_well_formed uri_query :
  Dict.keys (query_split uri_query)
  = first_seen [] (map (fun q => fst (option_pair q)) uri_query)
  /\ NoDup (Dict.keys (query_split uri_query))
  /\ (forall k vs, In (k, vs) (query_split uri_query) -> vs <> []).
Proof.
  split; [apply (query_split_keys_from [])|apply query_split_wf].
Qed.

(** ** [_paginate] *)

Lemma firstn_add {A} (a b : nat) (l : list A) :
  firstn (a + b) l = firstn a l ++ firstn b (skipn a l).
Proof.
  revert l. induction a as [|a IH]; intros l; simpl; [reflexivity|].
  destruct l as [|x l]; simpl.
  - rewrite firstn_nil. reflexivity.
  - rewrite IH. reflexivity.
Qed.

(** X4: whatever the query, a page [_paginate] returns is a run of
    consecutive candidates: some candidates are skipped at the front and
    some are cut at the back, and nothing is reordered, repeated or
    added.  With neither [page] nor [count] in the query it is the whole
    list. *)
Theorem paginate_returns_a_slice {A} (candidates : list A) (q : query) r :
  _paginate (Ok candidates) q = Ok r ->
  (exists a b, r = firstn b (skipn a candidates))
  /\ (q_get q "page" = None -> q_get q "count" = None -> r = candidates).
Proof.
  intros H. split.
  - revert H. unfold _paginate.
    destruct (pop_single_arg q "page") as [[page q1]|e]; simpl; [|discriminate].
    destruct (pop_single_arg q1 "count") as [[count q2]|e]; simpl; [|discriminate].
    unfold try_except, exc_bind, Py.int, Py.slice_from, Py.slice_to.
    destruct page as [ptxt|], count as [ctxt|];
      repeat match goal with
             | |- context [Py.parse_int ?t] => destruct (Py.parse_int t)
             end;
      try discriminate; intros [= <-].
    + eexists. eexists. reflexivity.
    + exists 0. eexists. reflexivity.
    + exists 0, (List.length candidates). simpl. rewrite firstn_all. reflexivity.
  - intros Hp Hc. revert H. unfold _paginate.
    rewrite (pop_single_arg_absent _ _ Hp). simpl.
    rewrite (pop_single_arg_absent _ _ Hc). simpl.
    intros [= <-]. reflexivity.
Qed.

Lemma paginate_returns_a_slice_witness :
  (exists a b, [2; 3] = firstn b (skipn a [0; 1; 2; 3; 4]))
  /\ (q_get (query_split ["page=1"; "count=2"]) "page" = None ->
      q_get (query_split ["page=1"; "count=2"]) "count" = None ->
      [2; 3] = [0; 1; 2; 3; 4]).
Proof.
  apply (paginate_returns_a_slice [0; 1; 2; 3; 4] (query_split ["page=1"; "count=2"])).
  vm_compute. reflexivity.
Defined.

(** X5: the pages of one [count] tile the candidates.  When request
    number [p] of a series asks for page [p] with the same non-negative
    [count], every request is answered, and the pages put one after the
    other are the first [n * count] candidates, [n] being the number of
    requests: no candidate is left out between two pages and none is
    served twice. *)
Theorem pages_tile_the_candidates {A} (candidates : list A) ctxt (c : nat)
    (qs : list query) :
  Py.parse_int ctxt = Some (Z.of_nat c) ->
  (forall p q, nth_error qs p = Some q ->
               q_get q "count" = Some [Some ctxt]
               /\ exists ptxt, q_get q "page" = Some [Some ptxt]
                               /\ Py.parse_int ptxt = Some (Z.of_nat p)) ->
  exists pages,
    Forall2 (fun q page => _paginate (Ok candidates) q = Ok page) qs pages
    /\ List.concat pages = firstn (List.length qs * c) candidates.
Proof.
  intros Hc. induction qs as [|q qs IH] using rev_ind; intros Hqs.
  - exists []. split; [constructor|reflexivity].
  - destruct IH as (pages & Hpages & Hcat).
    { intros p q' Hp. apply Hqs. rewrite nth_error_app1; [exact Hp|].
      apply nth_error_Some. congruence. }
    destruct (Hqs (List.length qs) q) as (Hcount & ptxt & Hpage & Hp).
    { rewrite nth_error_app2, Nat.sub_diag; [reflexivity|lia]. }
    exists (pages ++ [firstn c (skipn (List.length qs * c) candidates)]). split.
    + apply Forall2_app; [exact Hpages|]. constructor; [|constructor].
      rewrite (paginate_page_count _ candidates q ptxt ctxt _ _ Hpage Hcount Hp Hc);
        try lia.
      rewrite <- Nat2Z.inj_mul, !Nat2Z.id. reflexivity.
    + rewrite concat_app, Hcat. simpl. rewrite app_nil_r.
      rewrite length_app. simpl.
      replace ((List.length qs + 1) * c) with (List.length qs * c + c) by lia.
      symmetry. apply firstn_add.
Qed.

Lemma pages_tile_the_candidates_witness :
  exists pages,
    Forall2 (fun q page => _paginate (Ok [0; 1; 2; 3; 4]) q = Ok page)
            [query_split ["page=0"; "count=2"]; query_split ["count=2"; "page=1"];
             query_split ["page=2"; "count=2"]]
            pages
    /\ List.concat pages = [0; 1; 2; 3; 4].
Proof.
  apply (pages_tile_the_candidates [0; 1; 2; 3; 4] "2" 2
           [query_split ["page=0"; "count=2"]; query_split ["count=2"; "page=1"];
            query_split ["page=2"; "count=2"]]).
  - vm_compute. reflexivity.
  - intros p q H.
    destruct p as [|[|[|p]]]; simpl in H;
      [injection H as <-; split; [reflexivity|]..|destruct p; discriminate].
    + exists "0". split; vm_compute; reflexivity.
    + exists "1". split; vm_compute; reflexivity.
    + exists "2". split; vm_compute; reflexivity.
Defined.

(** ** Running the operations of the registry *)

Lemma list_set_snoc {A} (l : list A) a b :
  list_set (l ++ [a]) (List.length l) b = l ++ [b].
Proof. induction l as [|x l IH]; simpl; [reflexivity|]. rewrite IH. reflexivity. Qed.

Lemma list_set_twice {A} (l : list A) i a b :
  list_set (list_set l i a) i b = list_set l i b.
Proof.
  revert i. induction l as [|x l IH]; intros [|i]; simpl; try reflexivity.
  rewrite IH. reflexivity.
Qed.

Lemma list_set_same {A} (l : list A) i a :
  nth_error l i = Some a -> list_set l i a = l.
Proof.
  revert i. induction l as [|x l IH]; intros [|i]; simpl; try discriminate.
  - intros [= ->]. reflexivity.
  - intros H. rewrite (IH _ H). reflexivity.
Qed.

(** The assignments of [update_params] leave the task alone. *)
Lemma update_params_apply_timeout s c init s1 r :
  update_params_apply s c init = (s1, r) ->
  Reg.timeout s1 = Reg.timeout s /\ Reg.path s1 = Reg.path s
  /\ Reg._delete_cb s1 = Reg._delete_cb s /\ Reg.links s1 = Reg.links s.
Proof.
  unfold update_params_apply, base_differs.
  repeat (case_innermost; simpl); intros [= <- _]; simpl;
    repeat apply conj; reflexivity.
Qed.

(** An initial [update_params] always notifies. *)
Lemma update_params_apply_initial_change s c s1 ac :
  update_params_apply s c true = (s1, Ok ac) -> ac = true.
Proof.
  intros H. apply (update_params_apply_spec _ _ _ _ _ H). left. reflexivity.
Qed.

(** [update_params] on a registration that has a task, step by step. *)
Lemma update_params_run self nr rp w s t :
  nth_error (objects w) self = Some s -> Reg.timeout s = Some t ->
  update_params self nr rp false w
  = match update_params_check s nr rp false with
    | Raise e => (w, Raise e)
    | Ok c =>
        match update_params_apply s c false with
        | (s1, Raise e) => (store self s1 w, Raise e)
        | (s1, Ok ac) =>
            let d := (Reg.lt s1 + Reg.grace_period)%Z in
            (if ac then _updated_state else ret tt)
              (log [EvCancel self; EvTask self d]
                   (store self (Reg.with_timeout s1 (mkTask d false)) w))
        end
    end.
Proof.
  intros Hs Ht. unfold update_params. unfold bind at 1.
  rewrite (get_obj_run _ _ _ Hs). unfold bind at 1. unfold lift at 1.
  destruct (update_params_check s nr rp false) as [c|e]; [|reflexivity].
  destruct (update_params_apply s c false) as [s1 [ac|e]] eqn:Ea.
  - destruct (update_params_apply_timeout _ _ _ _ _ Ea) as (Ht1 & _).
    rewrite Ht in Ht1.
    assert (Hs1 : nth_error (objects (store self s1 w)) self = Some s1)
      by (simpl; apply (nth_error_list_set_same _ _ _ _ Hs)).
    unfold bind at 1. unfold put_obj at 1. unfold bind at 1. unfold lift at 1.
    unfold bind at 1. unfold refresh_timeout, bind at 1.
    rewrite (timeout_cancel_run _ _ _ _ Hs1 Ht1).
    rewrite (_set_timeout_run _ _ (Reg.with_timeout s1 (mkTask (delay t) true))).
    2:{ simpl. apply (nth_error_list_set_same _ _ _ _ Hs1). }
    unfold store, log. simpl. rewrite !list_set_twice, <- app_assoc. reflexivity.
  - unfold bind at 1. unfold put_obj at 1. unfold bind at 1. unfold lift at 1.
    reflexivity.
Qed.

(** [install], step by step. *)
Lemma install_run sp nr rp path key w :
  install sp nr rp path key w
  = let self := List.length (objects w) in
    let fresh := Reg.mk (entity_prefix ++ path) [] (path, key) sp 90000 false
                        None None in
    match update_params_check fresh nr rp true with
    | Raise e => (with_objects w (objects w ++ [fresh]) (trace w), Raise e)
    | Ok c =>
        match update_params_apply fresh c true with
        | (s1, Raise e) => (with_objects w (objects w ++ [s1]) (trace w), Raise e)
        | (s1, Ok ac) =>
            let d := (Reg.lt s1 + Reg.grace_period)%Z in
            match (if ac then _updated_state else ret tt)
                    (with_objects w
                       (objects w ++ [Reg.with_timeout s1 (mkTask d false)])
                       (trace w ++ [EvTask self d]))
            with
            | (w2, Ok _) =>
                (mkRD (Dict.set key_eqb (_by_key w2) key self)
                      (Dict.set path_eqb (_by_path w2) path self)
                      (_updated_state_cb w2) (objects w2) (trace w2), Ok self)
            | (w2, Raise e) => (w2, Raise e)
            end
        end
    end.
Proof.
  unfold install, Registration_new. unfold bind at 1. unfold bind at 1.
  unfold new_obj at 1. unfold bind at 1.
  unfold update_params. unfold bind at 1. unfold get_obj at 1. cbn [objects].
  rewrite nth_error_snoc. unfold bind at 1. unfold lift at 1.
  cbv zeta.
  destruct (update_params_check _ nr rp true) as [c|e]; [|reflexivity].
  destruct (update_params_apply _ c true) as [s1 [ac|e]] eqn:Ea.
  - unfold bind at 1. unfold put_obj at 1. unfold bind at 1. unfold lift at 1.
    unfold bind at 1.
    rewrite (_set_timeout_run _ _ s1).
    2:{ simpl. rewrite list_set_snoc. apply nth_error_snoc. }
    unfold store, log, with_objects. simpl.
    rewrite list_set_snoc, list_set_snoc.
    destruct ((if ac then _updated_state else ret tt) _) as [w2 [[]|e]];
      reflexivity.
  - unfold bind at 1. unfold put_obj at 1. unfold bind at 1. unfold lift at 1.
    unfold store, with_objects. simpl. rewrite list_set_snoc. reflexivity.
Qed.

(** [initialize_endpoint] for a key that has no registration. *)
Lemma initialize_endpoint_new_key nr rp w ep d rp1 rp2 :
  pop_single_arg rp "ep" = Ok (Some ep, rp1) ->
  pop_single_arg rp1 "d" = Ok (d, rp2) ->
  by_key_get w (ep, d) = None ->
  initialize_endpoint nr rp w
  = install (ep_and_d_of rp) nr rp2 (_new_pathtail w) (ep, d) w.
Proof.
  intros Hep Hd Hk. unfold initialize_endpoint. unfold bind at 1. unfold lift at 1.
  rewrite Hep. unfold bind at 1. unfold lift at 1. rewrite Hd.
  unfold bind at 1. unfold get_rd at 1. rewrite Hk.
  unfold bind at 1. unfold ret at 1. reflexivity.
Qed.

(** [initialize_endpoint] for a key that has a registration. *)
Lemma initialize_endpoint_old_key nr rp w ep d rp1 rp2 oldreg old :
  pop_single_arg rp "ep" = Ok (Some ep, rp1) ->
  pop_single_arg rp1 "d" = Ok (d, rp2) ->
  by_key_get w (ep, d) = Some oldreg ->
  nth_error (objects w) oldreg = Some old ->
  initialize_endpoint nr rp w
  = match delete oldreg w with
    | (w1, Ok _) =>
        install (ep_and_d_of rp) nr rp2
                (skipn (List.length entity_prefix) (Reg.path old)) (ep, d) w1
    | (w1, Raise e) => (w1, Raise e)
    end.
Proof.
  intros Hep Hd Hk Hold. unfold initialize_endpoint. unfold bind at 1. unfold lift at 1.
  rewrite Hep. unfold bind at 1. unfold lift at 1. rewrite Hd.
  unfold bind at 1. unfold get_rd at 1. rewrite Hk.
  unfold bind at 1. unfold bind at 1. rewrite (get_obj_run _ _ _ Hold).
  unfold bind at 1.
  destruct (delete oldreg w) as [w1 [[]|e]]; reflexivity.
Qed.

(** [Registration.delete] on an installed registration, when no
    subscriber raises. *)
Lemma delete_installed_run self w key tail :
  installed w key tail self -> quiet w = true ->
  exists s t,
    nth_error (objects w) self = Some s /\ Reg.timeout s = Some t
    /\ delete self w
       = (mkRD (Dict.remove key_eqb (_by_key w) key)
               (Dict.remove path_eqb (_by_path w) tail)
               (_updated_state_cb w)
               (list_set (objects w) self (Reg.with_timeout s (mkTask (delay t) true)))
               (trace w ++ [EvCancel self; Ev_updated_state]
                        ++ callback_events (_updated_state_cb w)
                        ++ [EvDelete tail key]),
          Ok tt).
Proof.
  intros I Q. destruct (delete_returns _ _ _ _ I Q) as (w' & Hdel).
  destruct (delete_success _ _ _ Hdel) as (s & t & Hs & Ht & _ & _ & Hw').
  destruct I as (_ & _ & s0 & Hs0 & _ & Hcb & _).
  rewrite Hs in Hs0. injection Hs0 as <-. rewrite Hcb in Hw'. cbn [fst snd] in Hw'.
  exists s, t. repeat apply conj; auto. rewrite Hdel, Hw'. reflexivity.
Qed.

(** ** The invariant of a directory whose subscribers do not raise *)

Section DictKeys.
Variables K V : Type.
Variable eqb : K -> K -> bool.
Hypothesis eqb_eq : forall a b, eqb a b = true <-> a = b.

Lemma set_absent (d : Dict.t K V) k v :
  Dict.get eqb d k = None -> Dict.set eqb d k v = d ++ [(k, v)].
Proof.
  induction d as [|[k' v'] d IH]; simpl; [reflexivity|].
  destruct (eqb k k'); [discriminate|]. intros H. rewrite (IH H). reflexivity.
Qed.

Lemma keys_remove_NoDup (d : Dict.t K V) k :
  NoDup (Dict.keys d) -> NoDup (Dict.keys (Dict.remove eqb d k)).
Proof.
  unfold Dict.keys, Dict.remove. induction d as [|[k' v'] d IH]; simpl; [auto|].
  intros Hnd. inversion Hnd as [|x l Hx Hl]; subst.
  destruct (eqb k k'); simpl; [auto|].
  constructor; [|auto]. intros Hin. apply Hx.
  apply in_map_iff in Hin. destruct Hin as ([k0 v0] & <- & Hin).
  apply List.filter_In in Hin. apply in_map_iff. exists (k0, v0). tauto.
Qed.

Lemma keys_set_NoDup (d : Dict.t K V) k v :
  Dict.get eqb d k = None ->
  NoDup (Dict.keys d) -> NoDup (Dict.keys (Dict.set eqb d k v)).
Proof.
  intros Hget Hnd. rewrite (set_absent _ _ _ Hget). unfold Dict.keys.
  rewrite map_app. simpl. apply NoDup_app; [exact Hnd|constructor; [intros []|constructor]|].
  intros x Hx [<-|[]].
  apply (mem_keys _ _ _ eqb_eq) in Hx. unfold Dict.mem in Hx.
  rewrite Hget in Hx. discriminate.
Qed.

Lemma In_get (d : Dict.t K V) k v :
  NoDup (Dict.keys d) -> In (k, v) d -> Dict.get eqb d k = Some v.
Proof.
  unfold Dict.keys. induction d as [|[k' v'] d IH]; simpl; [intros _ []|].
  intros Hnd. inversion Hnd as [|x l Hx Hl]; subst.
  intros [[= -> ->]|Hin].
  - rewrite (eqb_refl _ _ eqb_eq). reflexivity.
  - destruct (eqb k k') eqn:E.
    + apply eqb_eq in E. subst k'. exfalso. apply Hx.
      apply in_map_iff. exists (k, v). auto.
    + auto.
Qed.
End DictKeys.

Ltac split_healthy :=
  unfold healthy; split; [|split; [|split; [|split; [|split]]]].

Lemma healthy_init : healthy CommonRD_init.
Proof.
  split_healthy.
  - apply consistent_init.
  - apply NoDup_nil.
  - apply NoDup_nil.
  - intros [|i] s H; discriminate H.
  - intros key tail r (H & _). discriminate H.
  - reflexivity.
Qed.

Lemma same_tasks_extends w w' : same_tasks w w' -> extends w w'.
Proof.
  intros (Hk & Hp & _ & Hobj & _). unfold extends. repeat apply conj; auto.
  intros i s Hs. destruct (Hobj _ _ Hs) as (s' & Hs' & P1 & P2 & P3 & P4 & P5).
  exists s'. split; [exact Hs'|]. unfold keeps_identity. auto.
Qed.

Lemma same_tasks_refl w : same_tasks w w.
Proof.
  unfold same_tasks. repeat apply conj; auto.
  - intros i s Hs. exists s. repeat apply conj; auto.
  - intros i s Hs Hn. congruence.
Qed.

Lemma same_tasks_trans w1 w2 w3 :
  same_tasks w1 w2 -> same_tasks w2 w3 -> same_tasks w1 w3.
Proof.
  intros (A1 & A2 & A3 & A4 & A5) (B1 & B2 & B3 & B4 & B5).
  unfold same_tasks. repeat apply conj; try congruence.
  - intros i s Hs. destruct (A4 _ _ Hs) as (s2 & Hs2 & P1 & P2 & P3 & P4 & P5).
    destruct (B4 _ _ Hs2) as (s3 & Hs3 & Q1 & Q2 & Q3 & Q4 & Q5).
    exists s3. repeat apply conj; try congruence; auto.
  - intros i s3 Hs3 Hn.
    destruct (nth_error (objects w2) i) as [s2|] eqn:E2.
    + destruct (B4 _ _ E2) as (s3' & Hs3' & _ & _ & Q3 & _).
      rewrite Hs3 in Hs3'. injection Hs3' as <-. rewrite Q3. apply (A5 _ _ E2 Hn).
    + apply (B5 _ _ Hs3 E2).
Qed.

Lemma same_tasks_log evs w : same_tasks w (log evs w).
Proof.
  unfold same_tasks. simpl. repeat apply conj; auto.
  - intros i s Hs. exists s. repeat apply conj; auto.
  - intros i s Hs Hn. congruence.
Qed.

Lemma same_tasks_store self s s' w :
  nth_error (objects w) self = Some s ->
  Reg.path s' = Reg.path s -> Reg._delete_cb s' = Reg._delete_cb s ->
  live s' = live s -> (Reg.timeout s <> None -> Reg.timeout s' <> None) ->
  (Reg.base s <> None -> Reg.base s' <> None) ->
  same_tasks w (store self s' w).
Proof.
  intros Hs P1 P2 P3 P4 P5. unfold same_tasks. simpl. repeat apply conj; auto.
  - intros i s0 H. destruct (Nat.eq_dec self i) as [<-|Hne].
    + rewrite (nth_error_list_set_same _ _ _ _ Hs).
      rewrite Hs in H. injection H as <-. exists s'. repeat apply conj; auto.
    + rewrite (nth_error_list_set_other _ _ _ _ Hne). exists s0. repeat apply conj; auto.
  - intros i s0 H Hn. destruct (Nat.eq_dec self i) as [<-|Hne]; [congruence|].
    rewrite (nth_error_list_set_other _ _ _ _ Hne) in H. congruence.
Qed.

Lemma same_tasks_snoc w s tr :
  live s = false -> same_tasks w (with_objects w (objects w ++ [s]) tr).
Proof.
  intros Hl. unfold same_tasks. simpl. repeat apply conj; auto.
  - intros i s0 H. exists s0. repeat apply conj; auto.
    rewrite nth_error_app1; [exact H|]. apply nth_error_Some. congruence.
  - intros i s0 H Hn. apply nth_error_None in Hn.
    rewrite nth_error_app2 in H by exact Hn.
    destruct (i - List.length (objects w)) as [|[|n]]; simpl in H; congruence.
Qed.

(** Such a change keeps the invariant. *)
Lemma healthy_same_tasks w w' : same_tasks w w' -> healthy w -> healthy w'.
Proof.
  intros S (C & Nk & Np & L1 & L2 & Q).
  pose proof (same_tasks_extends _ _ S) as E.
  destruct S as (Hk & Hp & Hcb & Hobj & Hnew).
  split_healthy.
  - apply (consistent_extends _ _ E C).
  - rewrite Hk. exact Nk.
  - rewrite Hp. exact Np.
  - intros i s' Hs' Hl.
    destruct (nth_error (objects w) i) as [s|] eqn:Hs.
    + destruct (Hobj _ _ Hs) as (s0 & Hs0 & P1 & P2 & P3 & _).
      rewrite Hs' in Hs0. injection Hs0 as <-.
      rewrite P2. apply (installed_extends _ _ _ _ _ E). apply (L1 _ _ Hs). congruence.
    + rewrite (Hnew _ _ Hs' Hs) in Hl. discriminate.
  - intros key tail r I.
    assert (Iw : installed w key tail r).
    { destruct I as (Ik & Ip & _). unfold by_key_get in Ik. rewrite Hk in Ik.
      destruct (proj1 C _ _ Ik) as (tail1 & I1).
      pose proof I1 as (_ & _ & s & Hs & _ & Hc & _).
      unfold by_path_get in Ip. rewrite Hp in Ip.
      destruct (proj2 C _ _ Ip) as (key2 & I2).
      destruct I2 as (_ & _ & s2 & Hs2 & _ & Hc2 & _).
      assert (tail1 = tail) by congruence. subst tail1. exact I1. }
    destruct (L2 _ _ _ Iw) as (s & Hs & Hl).
    destruct (Hobj _ _ Hs) as (s' & Hs' & _ & _ & P3 & _).
    exists s'. split; [exact Hs'|congruence].
  - unfold quiet. rewrite Hcb. exact Q.
Qed.

Lemma live_timeout s : live s = true -> Reg.timeout s <> None.
Proof. unfold live. destruct (Reg.timeout s); [discriminate|discriminate]. Qed.

(** In a consistent directory a reference held by a map names an
    object. *)
Lemma installed_object w key tail r :
  installed w key tail r -> r < List.length (objects w).
Proof.
  intros (_ & _ & s & Hs & _). apply nth_error_Some. congruence.
Qed.

(** The entries of an installed registration are removed and its task is
    cancelled. *)
Lemma healthy_remove w key tail self s t tr :
  healthy w -> installed w key tail self ->
  nth_error (objects w) self = Some s -> Reg.timeout s = Some t ->
  healthy (mkRD (Dict.remove key_eqb (_by_key w) key)
                (Dict.remove path_eqb (_by_path w) tail)
                (_updated_state_cb w)
                (list_set (objects w) self (Reg.with_timeout s (mkTask (delay t) true)))
                tr).
Proof.
  intros (C & Nk & Np & L1 & L2 & Q) I Hs Ht.
  set (s' := Reg.with_timeout s (mkTask (delay t) true)).
  set (wm := store self s' w).
  assert (E : extends w wm).
  { apply (extends_store _ s); [exact Hs|].
    unfold keeps_identity. simpl. repeat apply conj; auto. discriminate. }
  pose proof (consistent_extends _ _ E C) as Cm.
  pose proof (installed_extends _ _ _ _ _ E I) as Im.
  pose proof I as (Ik & Ip & s0 & Hs0 & Hpath & Hcb & _).
  rewrite Hs in Hs0. injection Hs0 as <-.
  (* an installed registration other than [self] sits at another key and path *)
  assert (Other : forall key' tail' r',
             installed w key' tail' r' -> r' <> self -> key' <> key /\ tail' <> tail).
  { intros key' tail' r' (Jk & Jp & _) Hne. split; intros ->; congruence. }
  assert (Self : forall key' tail', installed w key' tail' self ->
                                    key' = key /\ tail' = tail).
  { intros key' tail' (_ & _ & s1 & Hs1 & _ & Hcb1 & _).
    rewrite Hs in Hs1. injection Hs1 as <-. split; congruence. }
  split_healthy.
  - apply (consistent_remove wm _ key tail self); auto.
  - apply (keys_remove_NoDup _ _ _ _ _ Nk).
  - apply (keys_remove_NoDup _ _ _ _ _ Np).
  - cbn [objects]. intros i si Hsi Hl.
    destruct (Nat.eq_dec self i) as [<-|Hne].
    + rewrite (nth_error_list_set_same _ _ _ _ Hs) in Hsi. injection Hsi as <-.
      discriminate Hl.
    + rewrite (nth_error_list_set_other _ _ _ _ Hne) in Hsi.
      pose proof (L1 _ _ Hsi Hl) as Ii.
      destruct (Other _ _ _ Ii (not_eq_sym Hne)) as (Nkey & Ntail).
      destruct Ii as (Jk & Jp & J).
      unfold installed, by_key_get, by_path_get. cbn [_by_key _by_path objects].
      rewrite (get_remove_other _ _ _ key_eqb_eq) by congruence.
      rewrite (get_remove_other _ _ _ path_eqb_eq) by congruence.
      repeat apply conj; auto.
      exists si. rewrite (nth_error_list_set_other _ _ _ _ Hne).
      destruct J as (s1 & Hs1 & J). rewrite Hsi in Hs1. injection Hs1 as <-. auto.
  - intros key' tail' r (Jk & Jp & _).
    unfold by_key_get in Jk. cbn [_by_key] in Jk.
    assert (Nkey : key <> key').
    { intros <-. rewrite get_remove_same in Jk. discriminate. }
    rewrite (get_remove_other _ _ _ key_eqb_eq) in Jk by exact Nkey.
    destruct (proj1 C _ _ Jk) as (tail0 & I0).
    assert (Hr : r <> self).
    { intros ->. destruct (Self _ _ I0) as (K & _). congruence. }
    destruct (L2 _ _ _ I0) as (sr & Hsr & Hl).
    exists sr. cbn [objects].
    rewrite (nth_error_list_set_other _ _ _ _ (not_eq_sym Hr)). auto.
  - exact Q.
Qed.

(** A new registration with a pending task is installed at a free key
    and a free path. *)
Lemma healthy_install w key path new tr :
  healthy w -> by_key_get w key = None -> by_path_get w path = None ->
  Reg.path new = entity_prefix ++ path -> Reg._delete_cb new = (path, key) ->
  live new = true -> Reg.base new <> None ->
  healthy (mkRD (Dict.set key_eqb (_by_key w) key (List.length (objects w)))
                (Dict.set path_eqb (_by_path w) path (List.length (objects w)))
                (_updated_state_cb w) (objects w ++ [new]) tr).
Proof.
  intros (C & Nk & Np & L1 & L2 & Q) Fk Fp Hpath Hcb Hl Hb.
  set (self := List.length (objects w)).
  set (wm := with_objects w (objects w ++ [new]) tr).
  assert (E : extends w wm).
  { unfold extends. simpl. repeat apply conj; auto.
    intros i s H. exists s. split; [|apply keeps_identity_refl].
    rewrite nth_error_app1; [exact H|]. apply nth_error_Some. congruence. }
  pose proof (consistent_extends _ _ E C) as Cm.
  assert (Hnew : nth_error (objects wm) self = Some new) by apply nth_error_snoc.
  set (w' := mkRD (Dict.set key_eqb (_by_key w) key self)
                  (Dict.set path_eqb (_by_path w) path self)
                  (_updated_state_cb w) (objects w ++ [new]) tr).
  assert (C' : consistent w').
  { apply (consistent_install wm w' key path self new); auto.
    apply live_timeout. exact Hl. }
  assert (Keep : forall key' tail' r,
             installed w key' tail' r -> installed w' key' tail' r).
  { intros key' tail' r I.
    pose proof (installed_extends _ _ _ _ _ E I) as (Jk & Jp & J).
    destruct I as (Ik & Ip & _).
    unfold installed, by_key_get, by_path_get. cbn [_by_key _by_path objects w'].
    rewrite (get_set_other _ _ _ key_eqb_eq) by (unfold by_key_get in *; congruence).
    rewrite (get_set_other _ _ _ path_eqb_eq) by (unfold by_path_get in *; congruence).
    auto. }
  subst w'. split_healthy.
  - exact C'.
  - apply (keys_set_NoDup _ _ _ key_eqb_eq); auto.
  - apply (keys_set_NoDup _ _ _ path_eqb_eq); auto.
  - cbn [objects]. intros i s Hs Hls.
    destruct (Nat.eq_dec i self) as [->|Hne].
    + unfold self in Hs. rewrite nth_error_snoc in Hs. injection Hs as <-.
      rewrite Hcb. cbn [fst snd].
      unfold installed, by_key_get, by_path_get. cbn [_by_key _by_path objects].
      rewrite (get_set_same _ _ _ key_eqb_eq), (get_set_same _ _ _ path_eqb_eq).
      repeat apply conj; auto. exists new. repeat apply conj; auto.
      apply live_timeout. exact Hl.
    + assert (Hlt : i < self).
      { assert (i < List.length (objects w ++ [new]))
          by (apply nth_error_Some; congruence).
        rewrite length_app in *. simpl in *. unfold self in *. lia. }
      rewrite nth_error_app1 in Hs by exact Hlt.
      apply Keep. apply (L1 _ _ Hs Hls).
  - intros key' tail' r (Jk & Jp & _).
    destruct (key_eqb key key') eqn:Ek.
    + apply key_eqb_eq in Ek. subst key'.
      unfold by_key_get in Jk. cbn [_by_key] in Jk.
      rewrite (get_set_same _ _ _ key_eqb_eq) in Jk. injection Jk as <-.
      exists new. split; [apply nth_error_snoc|exact Hl].
    + assert (Nkey : key <> key').
      { intros ->. rewrite (eqb_refl _ _ key_eqb_eq) in Ek. discriminate. }
      unfold by_key_get in Jk. cbn [_by_key] in Jk.
      rewrite (get_set_other _ _ _ key_eqb_eq) in Jk by exact Nkey.
      destruct (proj1 C _ _ Jk) as (tail0 & I0).
      destruct (L2 _ _ _ I0) as (sr & Hsr & Hlr).
      exists sr. split; [|exact Hlr]. cbn [objects].
      rewrite nth_error_app1; [exact Hsr|]. apply nth_error_Some. congruence.
  - exact Q.
Qed.

Lemma notification_same_tasks (ac : bool) w w' (r : exc unit) :
  (if ac then _updated_state else ret tt) w = (w', r) -> same_tasks w w'.
Proof.
  destruct ac.
  - intros H. destruct (_updated_state_logs _ _ _ H) as (evs & ->).
    apply same_tasks_log.
  - intros [= <- _]. apply same_tasks_refl.
Qed.

Lemma notification_quiet (ac : bool) w :
  quiet w = true ->
  exists evs, (if ac then _updated_state else ret tt) w = (log evs w, Ok tt).
Proof.
  intros Q. destruct ac.
  - rewrite (_updated_state_all_return _ Q). eauto.
  - exists []. rewrite log_nil. reflexivity.
Qed.

(** [update_params] on a registration of the maps keeps the invariant,
    whatever its outcome. *)
Lemma healthy_update_params self nr rp w w' r key tail :
  healthy w -> installed w key tail self ->
  update_params self nr rp false w = (w', r) -> healthy w'.
Proof.
  intros Hw I H. apply (healthy_same_tasks w); [|exact Hw].
  destruct Hw as (_ & _ & _ & _ & L2 & _).
  destruct (L2 _ _ _ I) as (s & Hs & Hl).
  destruct (Reg.timeout s) as [t|] eqn:Ht; [|unfold live in Hl; rewrite Ht in Hl; discriminate].
  rewrite (update_params_run _ _ _ _ _ _ Hs Ht) in H.
  destruct (update_params_check s nr rp false) as [c|e].
  2:{ injection H as <- _. apply same_tasks_refl. }
  destruct (update_params_apply s c false) as [s1 [ac|e]] eqn:Ea.
  - destruct (update_params_apply_timeout _ _ _ _ _ Ea) as (T1 & T2 & T3 & _).
    destruct (update_params_apply_keeps_identity _ _ _ _ _ Ea) as (_ & _ & _ & K4).
    cbv zeta in H.
    apply notification_same_tasks in H.
    refine (same_tasks_trans _ _ _ _ H).
    apply (same_tasks_trans _ (store self
             (Reg.with_timeout s1 (mkTask (Reg.lt s1 + Reg.grace_period) false)) w));
      [|apply same_tasks_log].
    apply (same_tasks_store _ s); auto.
    simpl. discriminate.
  - injection H as <- _.
    destruct (update_params_apply_timeout _ _ _ _ _ Ea) as (T1 & T2 & T3 & _).
    destruct (update_params_apply_keeps_identity _ _ _ _ _ Ea) as (_ & _ & K3 & K4).
    apply (same_tasks_store _ s); auto.
    unfold live. rewrite T1. reflexivity.
Qed.

Lemma healthy_set_links self links w w' (r : exc unit) :
  healthy w -> set_links self links w = (w', r) -> healthy w'.
Proof.
  intros Hw H. apply (healthy_same_tasks w); [|exact Hw].
  unfold set_links, bind, get_obj, put_obj in H.
  destruct (nth_error (objects w) self) as [s|] eqn:Hs.
  - injection H as <- _. apply (same_tasks_store _ s); auto.
  - injection H as <- _. apply same_tasks_refl.
Qed.

(** [Registration.delete] on a registration of the maps returns, and
    keeps the invariant. *)
Lemma healthy_delete self w key tail :
  healthy w -> installed w key tail self ->
  exists w', delete self w = (w', Ok tt) /\ healthy w'
             /\ by_key_get w' key = None /\ by_path_get w' tail = None
             /\ List.length (objects w') = List.length (objects w).
Proof.
  intros Hw I. pose proof Hw as (_ & _ & _ & _ & _ & Q).
  destruct (delete_installed_run _ _ _ _ I Q) as (s & t & Hs & Ht & Hdel).
  eexists. split; [exact Hdel|]. split; [|split; [|split]].
  - apply (healthy_remove _ _ _ _ _ _ _ Hw I Hs Ht).
  - apply get_remove_same.
  - apply get_remove_same.
  - simpl. apply list_set_length.
Qed.

(** The end of the sleep of any task keeps the invariant. *)
Lemma healthy_expire self w w' (r : exc unit) :
  healthy w -> expire self w = (w', r) -> healthy w'.
Proof.
  intros Hw. unfold expire, bind, get_obj.
  destruct (nth_error (objects w) self) as [s|] eqn:Hs; [|intros [= <- _]; exact Hw].
  destruct (Reg.timeout s) as [t|] eqn:Ht; [|intros [= <- _]; exact Hw].
  destruct (cancelled t) eqn:Hc; [intros [= <- _]; exact Hw|].
  assert (Hl : live s = true) by (unfold live; rewrite Ht, Hc; reflexivity).
  pose proof Hw as (_ & _ & _ & L1 & _).
  destruct (healthy_delete _ _ _ _ Hw (L1 _ _ Hs Hl)) as (w1 & Hdel & Hw1 & _).
  rewrite Hdel. intros [= <- _]. exact Hw1.
Qed.

(** [install] at a free key and a free path keeps the invariant, whatever
    its outcome; when it returns, the registration is in the maps. *)
Lemma healthy_install_op sp nr rp path key w w' (r : exc nat) :
  healthy w -> by_key_get w key = None -> by_path_get w path = None ->
  install sp nr rp path key w = (w', r) ->
  healthy w'
  /\ (forall reg, r = Ok reg -> installed w' key path reg).
Proof.
  intros Hw Fk Fp. rewrite install_run. cbv zeta.
  set (fresh := Reg.mk (entity_prefix ++ path) [] (path, key) sp 90000 false None None).
  destruct (update_params_check fresh nr rp true) as [c|e].
  2:{ intros [= <- <-]. split; [|discriminate].
      apply (healthy_same_tasks w); [|exact Hw]. apply same_tasks_snoc. reflexivity. }
  destruct (update_params_apply fresh c true) as [s1 [ac|e]] eqn:Ea.
  2:{ intros [= <- <-]. split; [|discriminate].
      apply (healthy_same_tasks w); [|exact Hw]. apply same_tasks_snoc.
      destruct (update_params_apply_timeout _ _ _ _ _ Ea) as (T1 & _).
      unfold live. rewrite T1. reflexivity. }
  destruct (update_params_apply_timeout _ _ _ _ _ Ea) as (_ & T2 & T3 & _).
  assert (Kb : Reg.base s1 <> None)
    by (refine (update_params_apply_initial_base _ _ _ _ _ Ea); reflexivity).
  pose proof Hw as (_ & _ & _ & _ & _ & Q).
  match goal with
  | |- context [(if ac then _updated_state else ret tt) ?w1] =>
      destruct (notification_quiet ac w1 Q) as (evs & ->)
  end.
  cbn [log _by_key _by_path _updated_state_cb objects trace with_objects].
  intros [= <- <-].
  match goal with
  | |- healthy (mkRD _ _ _ (_ ++ [?new]) ?tr) /\ _ =>
      assert (Hw' : healthy (mkRD (Dict.set key_eqb (_by_key w) key
                                            (List.length (objects w)))
                                  (Dict.set path_eqb (_by_path w) path
                                            (List.length (objects w)))
                                  (_updated_state_cb w) (objects w ++ [new]) tr))
        by (apply healthy_install; auto)
  end.
  split; [exact Hw'|].
  intros reg [= <-].
  destruct Hw' as (_ & _ & _ & L1 & _).
  specialize (L1 (List.length (objects w)) _ (nth_error_snoc _ _) eq_refl).
  cbn [Reg._delete_cb Reg.with_timeout] in L1. rewrite T3 in L1. exact L1.
Qed.

(** [initialize_endpoint] keeps the invariant, whatever its outcome; when
    it returns, the registration is in the maps. *)
Lemma healthy_initialize_endpoint nr rp w w' (r : exc nat) :
  healthy w -> initialize_endpoint nr rp w = (w', r) ->
  healthy w'
  /\ (forall reg, r = Ok reg -> exists key tail, installed w' key tail reg).
Proof.
  intros Hw.
  destruct (pop_single_arg rp "ep") as [[[ep|] rp1]|e] eqn:Hep.
  2:{ unfold initialize_endpoint, bind, lift. rewrite Hep.
      intros [= <- <-]. split; [exact Hw|discriminate]. }
  2:{ unfold initialize_endpoint, bind, lift. rewrite Hep.
      intros [= <- <-]. split; [exact Hw|discriminate]. }
  destruct (pop_single_arg rp1 "d") as [[d rp2]|e] eqn:Hd.
  2:{ unfold initialize_endpoint. unfold bind at 1. unfold lift at 1. rewrite Hep.
      unfold bind at 1. unfold lift at 1. rewrite Hd.
      intros [= <- <-]. split; [exact Hw|discriminate]. }
  destruct (by_key_get w (ep, d)) as [oldreg|] eqn:Ek.
  - pose proof Hw as (C & _).
    destruct (proj1 C _ _ Ek) as (tail & I).
    pose proof I as (_ & _ & old & Hold & Hpath & _).
    rewrite (initialize_endpoint_old_key _ _ _ _ _ _ _ _ _ Hep Hd Ek Hold).
    destruct (healthy_delete _ _ _ _ Hw I) as (w1 & Hdel & Hw1 & Fk & Fp & _).
    rewrite Hdel, Hpath. simpl skipn. intros H.
    destruct (healthy_install_op _ _ _ _ _ _ _ _ Hw1 Fk Fp H) as (Hw' & Hreg).
    split; [exact Hw'|]. intros reg Hr. exists (ep, d), tail. apply Hreg. exact Hr.
  - rewrite (initialize_endpoint_new_key _ _ _ _ _ _ _ Hep Hd Ek). intros H.
    destruct (healthy_install_op _ _ _ _ _ _ _ _ Hw Ek (_new_pathtail_fresh w) H)
      as (Hw' & Hreg).
    split; [exact Hw'|]. intros reg Hr. exists (ep, d), (_new_pathtail w).
    apply Hreg. exact Hr.
Qed.

Section SiteInvariant.
Variable decode : content_format -> string -> option (list Link.t).

Lemma healthy_DirectoryResource_render_post request w w' (r : result reply) :
  healthy w -> DirectoryResource_render_post decode request w = (w', r) ->
  healthy w'.
Proof.
  intros Hw. unfold DirectoryResource_render_post. unfold hbind at 1. unfold hlift.
  destruct (link_format_from_message decode request) as [links|e];
    [|intros [= <- _]; exact Hw].
  unfold hbind at 1. unfold run at 1.
  destruct (initialize_endpoint _ _ w) as [w1 [reg|e]] eqn:Ei.
  2:{ intros [= <- _]. apply (healthy_initialize_endpoint _ _ _ _ _ Hw Ei). }
  destruct (healthy_initialize_endpoint _ _ _ _ _ Hw Ei) as (Hw1 & _).
  unfold hbind at 1. unfold run at 1.
  destruct (set_links reg links w1) as [w2 [[]|e]] eqn:Es.
  2:{ intros [= <- _]. apply (healthy_set_links _ _ _ _ _ Hw1 Es). }
  pose proof (healthy_set_links _ _ _ _ _ Hw1 Es) as Hw2.
  unfold hbind, run, get_obj, hret.
  destruct (nth_error (objects w2) reg); intros [= <- _]; exact Hw2.
Qed.

Lemma healthy_RegistrationDispatchSite_render request w w' (r : result reply) :
  healthy w -> RegistrationDispatchSite_render decode request w = (w', r) ->
  healthy w'.
Proof.
  intros Hw. unfold RegistrationDispatchSite_render. unfold hbind at 1.
  unfold run at 1. unfold dispatch, bind, get_rd.
  destruct (by_path_get w (Message.uri_path request)) as [entity|] eqn:Ep;
    [|intros [= <- _]; exact Hw].
  unfold ret. pose proof Hw as (C & _).
  destruct (proj2 C _ _ Ep) as (key & I).
  unfold RegistrationResource_render. cbn [Message.code Message.copy_uri_path].
  destruct (Message.code request).
  - intros [= <- _]. exact Hw.
  - unfold RegistrationResource_render_post. unfold hbind at 1. unfold run at 1.
    unfold RegistrationResource__update_params.
    destruct (update_params entity _ _ false w) as [w1 [[]|e]] eqn:Eu.
    + pose proof (healthy_update_params _ _ _ _ _ _ _ _ Hw I Eu) as Hw1.
      destruct (has_body _); intros [= <- _]; exact Hw1.
    + intros [= <- _]. apply (healthy_update_params _ _ _ _ _ _ _ _ Hw I Eu).
  - unfold RegistrationResource_render_put. unfold hbind at 1. unfold hlift.
    destruct (link_format_from_message decode _) as [links|e];
      [|intros [= <- _]; exact Hw].
    unfold hbind at 1. unfold run at 1. unfold RegistrationResource__update_params.
    destruct (update_params entity _ _ false w) as [w1 [[]|e]] eqn:Eu.
    2:{ intros [= <- _]. apply (healthy_update_params _ _ _ _ _ _ _ _ Hw I Eu). }
    pose proof (healthy_update_params _ _ _ _ _ _ _ _ Hw I Eu) as Hw1.
    unfold hbind, run, hret.
    destruct (set_links entity links w1) as [w2 [[]|e]] eqn:Es;
      intros [= <- _]; apply (healthy_set_links _ _ _ _ _ Hw1 Es).
  - unfold RegistrationResource_render_delete, hbind, run, hret.
    destruct (healthy_delete _ _ _ _ Hw I) as (w1 & Hdel & Hw1 & _).
    rewrite Hdel. intros [= <- _]. exact Hw1.
Qed.

Lemma healthy_step w w' : healthy w -> site_step decode w w' -> healthy w'.
Proof.
  intros Hw [cb Hcb|request|request|self].
  - destruct Hw as (C & Nk & Np & L1 & L2 & Q).
    split_healthy; auto.
    unfold quiet. simpl. rewrite forallb_app. simpl.
    unfold quiet in Q. rewrite Q, Hcb. reflexivity.
  - destruct (DirectoryResource_render_post decode request w) as [w1 r] eqn:E.
    apply (healthy_DirectoryResource_render_post _ _ _ _ Hw E).
  - destruct (RegistrationDispatchSite_render decode request w) as [w1 r] eqn:E.
    apply (healthy_RegistrationDispatchSite_render _ _ _ _ Hw E).
  - destruct (expire self w) as [w1 r] eqn:E.
    apply (healthy_expire _ _ _ _ Hw E).
Qed.

Lemma reachable_healthy w : reachable decode w -> healthy w.
Proof.
  induction 1 as [|w w' _ IH Hstep]; [apply healthy_init|].
  apply (healthy_step _ _ IH Hstep).
Qed.

End SiteInvariant.

(** ** Path allocation, registration and expiry *)

(** X6: [_new_pathtail] answers with the path [(str(j), '')] of the
    smallest integer [j >= 1] whose path is not in [_by_path]: every
    smaller number is in use, and the path returned is free. *)
Theorem new_pathtail_is_the_smallest_free w :
  exists j,
    _new_pathtail w = [Py.str j; ""] /\ 1 <= j
    /\ (forall j', 1 <= j' < j -> by_path_get w [Py.str j'; ""] <> None)
    /\ by_path_get w [Py.str j; ""] = None.
Proof.
  destruct (_new_pathtail_least w) as (j & Hj & H1 & Hocc & Hfree).
  exists j. split; [exact Hj|]. split; [exact H1|]. split.
  - intros j' Hj'. specialize (Hocc j' Hj'). unfold Dict.mem, pathtail in Hocc.
    unfold by_path_get. destruct (Dict.get path_eqb (_by_path w) [Py.str j'; ""]);
      [discriminate|discriminate].
  - unfold Dict.mem, pathtail in Hfree. unfold by_path_get.
    destruct (Dict.get path_eqb (_by_path w) [Py.str j; ""]);
      [discriminate|reflexivity].
Qed.

(** X7: whatever requests the directory resource and the registration
    site handle, whatever their outcome, and whenever the tasks fire, a
    directory whose subscribers do not raise stays healthy: the two maps
    are consistent and hold every key and path once, and the
    registrations in the maps are exactly the objects whose task is
    pending, each under the path and key its delete closure captured. *)
Theorem site_keeps_the_directory_healthy
    (decode : content_format -> string -> option (list Link.t)) w :
  reachable decode w -> healthy w.
Proof. apply reachable_healthy. Qed.

Lemma site_keeps_the_directory_healthy_witness : healthy Scenario.rd_a.
Proof.
  apply (site_keeps_the_directory_healthy Scenario.decode Scenario.rd_a).
  apply (@reachable_step Scenario.decode CommonRD_init Scenario.rd_a).
  - apply reachable_init.
  - apply (@step_register Scenario.decode CommonRD_init Scenario.register_a).
Defined.



Lemma healthy_rd1 : healthy Sample.rd1.
Proof.
  apply (healthy_initialize_endpoint
           Sample.node1 (query_split ["ep=a"; "et=x"]) CommonRD_init Sample.rd1 (Ok 0)
           healthy_init).
  vm_compute. reflexivity.
Qed.

(** X9: in a healthy directory the end of the sleep of a pending task
    never fails and removes the registration the task belongs to and no
    other: the entries under the key and the path of that registration
    go, every other key and path keeps its registration, and the
    directory is healthy again.  The end of the sleep of a cancelled task
    changes nothing. *)
Theorem expiry_removes_its_own_registration self w s :
  healthy w -> nth_error (objects w) self = Some s ->
  if live s
  then exists w' key tail,
      Reg._delete_cb s = (tail, key)
      /\ by_key_get w key = Some self /\ by_path_get w tail = Some self
      /\ expire self w = (w', Ok tt)
      /\ by_key_get w' key = None /\ by_path_get w' tail = None
      /\ (forall k, k <> key -> by_key_get w' k = by_key_get w k)
      /\ (forall p, p <> tail -> by_path_get w' p = by_path_get w p)
      /\ healthy w'
  else expire self w = (w, Ok tt).
Proof.
  intros Hw Hs. destruct (live s) eqn:Hl.
  - pose proof Hw as (_ & _ & _ & L1 & _ & Q).
    pose proof (L1 _ _ Hs Hl) as I.
    destruct (Reg._delete_cb s) as [tail key] eqn:Hcb. cbn [fst snd] in I.
    destruct (delete_installed_run _ _ _ _ I Q) as (s0 & t & Hs0 & Ht & Hdel).
    rewrite Hs in Hs0. injection Hs0 as <-.
    eexists. exists key, tail.
    split; [reflexivity|]. split; [apply I|]. split; [apply I|].
    split.
    { unfold expire, bind. rewrite (get_obj_run _ _ _ Hs), Ht.
      unfold live in Hl. rewrite Ht in Hl.
      destruct (cancelled t); [discriminate|]. exact Hdel. }
    split; [apply get_remove_same|]. split; [apply get_remove_same|].
    split; [|split].
    + intros k Hk. apply (get_remove_other _ _ _ key_eqb_eq). congruence.
    + intros p Hp. apply (get_remove_other _ _ _ path_eqb_eq). congruence.
    + apply (healthy_remove _ _ _ _ _ _ _ Hw I Hs Ht).
  - unfold expire, bind. rewrite (get_obj_run _ _ _ Hs).
    unfold live in Hl. destruct (Reg.timeout s) as [t|]; [|reflexivity].
    destruct (cancelled t); [reflexivity|discriminate].
Qed.

Lemma expiry_removes_its_own_registration_witness :
  exists w' key tail,
    Reg._delete_cb Sample.reg1 = (tail, key)
    /\ by_key_get Sample.rd1 key = Some 0 /\ by_path_get Sample.rd1 tail = Some 0
    /\ expire 0 Sample.rd1 = (w', Ok tt)
    /\ by_key_get w' key = None /\ by_path_get w' tail = None
    /\ (forall k, k <> key -> by_key_get w' k = by_key_get Sample.rd1 k)
    /\ (forall p, p <> tail -> by_path_get w' p = by_path_get Sample.rd1 p)
    /\ healthy w'.
Proof.
  apply (expiry_removes_its_own_registration 0 Sample.rd1 Sample.reg1).
  - apply healthy_rd1.
  - vm_compute. reflexivity.
Defined.

Lemma healthy_values_are_objects w r :
  healthy w -> In r (Dict.values (_by_key w)) -> r < List.length (objects w).
Proof.
  intros (C & Nk & _) Hin. unfold Dict.values in Hin.
  apply in_map_iff in Hin. destruct Hin as ([k r'] & Hr & Hin). simpl in Hr. subst r'.
  apply (In_get _ _ _ key_eqb_eq _ _ _ Nk) in Hin.
  destruct (proj1 C _ _ Hin) as (tail & I).
  apply (installed_object _ _ _ _ I).
Qed.

Lemma flat_map_ext_In {A B} (f g : A -> list B) (l : list A) :
  (forall a, In a l -> f a = g a) -> flat_map f l = flat_map g l.
Proof.
  induction l as [|x l IH]; intros Hfg; simpl; [reflexivity|].
  rewrite (Hfg x (or_introl eq_refl)), IH; [reflexivity|].
  intros a Ha. apply Hfg. right. exact Ha.
Qed.

Lemma get_endpoints_snoc by_key by_path cbs objs tr by_path' cbs' tr' key new :
  (forall r, In r (Dict.values by_key) -> r < List.length objs) ->
  get_endpoints (mkRD (by_key ++ [(key, List.length objs)]) by_path' cbs'
                      (objs ++ [new]) tr')
  = get_endpoints (mkRD by_key by_path cbs objs tr) ++ [new].
Proof.
  intros Hv. unfold get_endpoints, Dict.values. cbn [_by_key objects].
  rewrite map_app, flat_map_app. cbn [map flat_map snd].
  rewrite nth_error_snoc, app_nil_r. f_equal.
  apply flat_map_ext_In. intros r Hr.
  rewrite nth_error_app1 by (apply Hv; exact Hr). reflexivity.
Qed.

Lemma get_update_other (d other : query) k :
  ~ In k (Dict.keys other) ->
  q_get (Dict.update String.eqb d other) k = q_get d k.
Proof.
  unfold Dict.update, q_get. revert d.
  induction other as [|[k' v'] other IH]; intros d Hn; simpl; [reflexivity|].
  rewrite IH by (intros H; apply Hn; right; exact H).
  apply (get_set_other _ _ _ String.eqb_eq). intros ->. apply Hn. left. reflexivity.
Qed.

Lemma get_filter_keys (q : query) (P : string -> bool) k :
  P k = true ->
  q_get (List.filter (fun kv => P (fst kv)) q) k = q_get q k.
Proof.
  intros HP. unfold q_get. induction q as [|[k' v'] q IH]; simpl; [reflexivity|].
  destruct (String.eqb k k') eqn:E.
  - apply String.eqb_eq in E. subst k'. rewrite HP. simpl.
    rewrite String.eqb_refl. reflexivity.
  - destruct (P k'); simpl; [rewrite E|]; exact IH.
Qed.

Lemma pop_single_arg_value (q : query) name v q' :
  pop_single_arg q name = Ok (Some v, q') -> q_get q name = Some [Some v].
Proof.
  unfold pop_single_arg. destruct (q_get q name) as [[|x [|y vs]]|]; simpl;
    try discriminate.
  intros [= -> _]. reflexivity.
Qed.

(** The parameters stored by [update_params] under a key it does not
    accept in a request are those the object had. *)
Lemma update_params_apply_keeps_key s c init s1 r k :
  update_params_apply s c init = (s1, r) ->
  ~ In k (Dict.keys (rest c)) ->
  q_get (Reg.registration_parameters s1) k = q_get (Reg.registration_parameters s) k.
Proof.
  intros H Hk. revert H. unfold update_params_apply, base_differs.
  repeat (case_innermost; simpl); intros [= <- _]; simpl;
    try reflexivity; apply get_update_other; exact Hk.
Qed.

Lemma update_params_check_no_ep s nr rp init c :
  update_params_check s nr rp init = Ok c -> ~ In "ep" (Dict.keys (rest c)).
Proof.
  intros H Hin. unfold Dict.keys in Hin. apply in_map_iff in Hin.
  destruct Hin as ([k vs] & Hk & Hin). simpl in Hk. subst k.
  apply (update_params_check_rest _ _ _ _ _ H) in Hin. destruct Hin as (Hin & _).
  revert H. unfold update_params_check.
  destruct (existsb (fun k => in_names k ["ep"; "d"]) (Dict.keys rp)) eqn:E;
    [discriminate|].
  exfalso. apply Bool.not_true_iff_false in E. apply E.
  apply existsb_exists. exists "ep". split; [|reflexivity].
  unfold Dict.keys. apply in_map_iff. exists ("ep", vs). auto.
Qed.

(** What a returning [install] does, when no subscriber raises. *)
Lemma install_effect sp nr rp path key w w' reg :
  quiet w = true ->
  install sp nr rp path key w = (w', Ok reg) ->
  exists new,
    reg = List.length (objects w)
    /\ objects w' = objects w ++ [new]
    /\ Reg.path new = entity_prefix ++ path
    /\ Reg._delete_cb new = (path, key)
    /\ Reg.links new = []
    /\ Reg.timeout new = Some (mkTask (Reg.lt new + Reg.grace_period) false)
    /\ Reg.base new <> None
    /\ q_get (Reg.registration_parameters new) "ep" = q_get sp "ep"
    /\ _by_key w' = Dict.set key_eqb (_by_key w) key reg
    /\ _by_path w' = Dict.set path_eqb (_by_path w) path reg
    /\ _updated_state_cb w' = _updated_state_cb w
    /\ trace w' = trace w ++ [EvTask reg (Reg.lt new + Reg.grace_period);
                              Ev_updated_state]
                          ++ callback_events (_updated_state_cb w).
Proof.
  intros Q. rewrite install_run. cbv zeta.
  set (fresh := Reg.mk _ [] _ sp 90000 false None None).
  destruct (update_params_check fresh nr rp true) as [c|e] eqn:Ec; [|discriminate].
  destruct (update_params_apply fresh c true) as [s1 [ac|e]] eqn:Ea; [|discriminate].
  pose proof (update_params_apply_initial_change _ _ _ _ Ea). subst ac.
  rewrite _updated_state_all_return by exact Q.
  cbn [log _by_key _by_path _updated_state_cb objects trace with_objects].
  intros [= <- <-].
  destruct (update_params_apply_timeout _ _ _ _ _ Ea) as (_ & T2 & T3 & T4).
  exists (Reg.with_timeout s1 (mkTask (Reg.lt s1 + Reg.grace_period) false)).
  cbn [_by_key _by_path _updated_state_cb objects trace
       Reg.path Reg._delete_cb Reg.links Reg.timeout Reg.base Reg.lt
       Reg.registration_parameters Reg.with_timeout].
  repeat apply conj; auto.
  - refine (update_params_apply_initial_base _ _ _ _ _ Ea). reflexivity.
  - apply (update_params_apply_keeps_key _ _ _ _ _ "ep" Ea
             (update_params_check_no_ep _ _ _ _ _ Ec)).
  - rewrite <- app_assoc. reflexivity.
Qed.

Lemma ep_and_d_of_ep (rp : query) ep rp1 :
  pop_single_arg rp "ep" = Ok (Some ep, rp1) ->
  q_get (ep_and_d_of rp) "ep" = Some [Some ep].
Proof.
  intros Hep. unfold ep_and_d_of.
  rewrite (get_filter_keys rp (fun k => in_names k ["ep"; "d"]) "ep" eq_refl).
  apply (pop_single_arg_value _ _ _ _ Hep).
Qed.

(** What a returning [initialize_endpoint] does for a key that has no
    registration, in a healthy directory. *)
Lemma first_registration_effect nr rp w w' reg ep d rp1 rp2 :
  healthy w ->
  pop_single_arg rp "ep" = Ok (Some ep, rp1) ->
  pop_single_arg rp1 "d" = Ok (d, rp2) ->
  by_key_get w (ep, d) = None ->
  initialize_endpoint nr rp w = (w', Ok reg) ->
  exists new,
    reg = List.length (objects w)
    /\ objects w' = objects w ++ [new]
    /\ Reg.path new = entity_prefix ++ _new_pathtail w
    /\ Reg._delete_cb new = (_new_pathtail w, (ep, d))
    /\ Reg.links new = []
    /\ Reg.timeout new = Some (mkTask (Reg.lt new + Reg.grace_period) false)
    /\ Reg.base new <> None
    /\ q_get (Reg.registration_parameters new) "ep" = Some [Some ep]
    /\ _by_key w' = _by_key w ++ [((ep, d), reg)]
    /\ _by_path w' = _by_path w ++ [(_new_pathtail w, reg)]
    /\ _updated_state_cb w' = _updated_state_cb w
    /\ trace w' = trace w ++ [EvTask reg (Reg.lt new + Reg.grace_period);
                              Ev_updated_state]
                          ++ callback_events (_updated_state_cb w).
Proof.
  intros Hw Hep Hd Hk.
  rewrite (initialize_endpoint_new_key _ _ _ _ _ _ _ Hep Hd Hk). intros H.
  pose proof Hw as (_ & _ & _ & _ & _ & Q).
  destruct (install_effect _ _ _ _ _ _ _ _ Q H)
    as (new & E1 & E2 & E3 & E4 & E5 & E6 & E7 & E8 & E9 & E10 & E11 & E12).
  exists new. rewrite (ep_and_d_of_ep _ _ _ Hep) in E8.
  rewrite (set_absent _ _ _ _ _ _ Hk) in E9.
  rewrite (set_absent _ _ _ _ _ _ (_new_pathtail_fresh w)) in E10.
  repeat apply conj; auto.
Qed.

(** X10: in a healthy directory, a registration under a key that has
    none returns a new object on the free path with the smallest number,
    [("reg", str(j), "")]; the object starts without links, with the [ep]
    it was registered under among its parameters and with a pending
    task; it goes last in both maps, so it is the last of the endpoints
    the lookups see; and no other object changes. *)
Theorem first_registration nr rp w w' reg ep d rp1 rp2 :
  healthy w ->
  pop_single_arg rp "ep" = Ok (Some ep, rp1) ->
  pop_single_arg rp1 "d" = Ok (d, rp2) ->
  by_key_get w (ep, d) = None ->
  initialize_endpoint nr rp w = (w', Ok reg) ->
  exists j new,
    _new_pathtail w = [Py.str j; ""]
    /\ reg = List.length (objects w)
    /\ objects w' = objects w ++ [new]
    /\ Reg.path new = ["reg"; Py.str j; ""]
    /\ Reg.links new = []
    /\ live new = true
    /\ q_get (Reg.registration_parameters new) "ep" = Some [Some ep]
    /\ _by_key w' = _by_key w ++ [((ep, d), reg)]
    /\ _by_path w' = _by_path w ++ [([Py.str j; ""], reg)]
    /\ get_endpoints w' = get_endpoints w ++ [new].
Proof.
  intros Hw Hep Hd Hk H.
  destruct (first_registration_effect _ _ _ _ _ _ _ _ _ Hw Hep Hd Hk H)
    as (new & Hreg & Hobj & Hpath & _ & Hlinks & Ht & _ & Hparams & Hbk & Hbp & _).
  destruct (_new_pathtail_least w) as (j & Hj & _).
  rewrite Hj in *. exists j, new.
  repeat apply conj; auto.
  - unfold live. rewrite Ht. reflexivity.
  - destruct w as [bk bp cbs objs tr], w' as [bk' bp' cbs' objs' tr'].
    cbn [_by_key _by_path objects] in *. subst bk' objs' reg.
    apply get_endpoints_snoc. intros r Hr.
    apply (healthy_values_are_objects _ _ Hw Hr).
Qed.

Lemma first_registration_witness :
  exists j new,
    _new_pathtail Sample.rd1 = [Py.str j; ""]
    /\ 1 = List.length (objects Sample.rd1)
    /\ objects (fst (initialize_endpoint Sample.node1 (query_split ["ep=b"; "d=home"])
                                         Sample.rd1))
       = objects Sample.rd1 ++ [new]
    /\ Reg.path new = ["reg"; Py.str j; ""]
    /\ Reg.links new = []
    /\ live new = true
    /\ q_get (Reg.registration_parameters new) "ep" = Some [Some "b"]
    /\ _by_key (fst (initialize_endpoint Sample.node1
                       (query_split ["ep=b"; "d=home"]) Sample.rd1))
       = _by_key Sample.rd1 ++ [(("b", Some "home"), 1)]
    /\ _by_path (fst (initialize_endpoint Sample.node1
                        (query_split ["ep=b"; "d=home"]) Sample.rd1))
       = _by_path Sample.rd1 ++ [([Py.str j; ""], 1)]
    /\ get_endpoints (fst (initialize_endpoint Sample.node1
                             (query_split ["ep=b"; "d=home"]) Sample.rd1))
       = get_endpoints Sample.rd1 ++ [new].
Proof.
  apply (first_registration Sample.node1 (query_split ["ep=b"; "d=home"]) Sample.rd1
           (fst (initialize_endpoint Sample.node1 (query_split ["ep=b"; "d=home"])
                                     Sample.rd1))
           1 "b" (Some "home") [("d", [Some "home"])] []).
  - apply healthy_rd1.
  - vm_compute. reflexivity.
  - vm_compute. reflexivity.
  - vm_compute. reflexivity.
  - vm_compute. reflexivity.
Defined.

(** ** Operations that stop half-way *)

Lemma for_each_callback_raises cbs w :
  forallb (fun cb => negb (cb_raises cb)) cbs = false ->
  exists evs n, for_each_callback cbs w = (log evs w, Raise (CallbackException n)).
Proof.
  revert w. induction cbs as [|cb cbs IH]; intros w; simpl; [discriminate|].
  unfold bind at 1. unfold call_callback, bind, emit.
  destruct (cb_raises cb); simpl.
  - intros _. exists [EvCallback (cb_id cb)], (cb_id cb). reflexivity.
  - intros H. destruct (IH (log [EvCallback (cb_id cb)] w) H) as (evs & n & ->).
    rewrite log_log. eauto.
Qed.

Lemma _updated_state_raises w :
  quiet w = false ->
  exists evs n, _updated_state w = (log evs w, Raise (CallbackException n)).
Proof.
  intros Q. unfold _updated_state, bind, emit, get_rd. simpl.
  destruct (for_each_callback_raises _ (log [Ev_updated_state] w) Q) as (evs & n & ->).
  rewrite log_log. eauto.
Qed.

(** X11: a re-registration that fails the checks of [update_params] is
    answered with their exception, but only after the registration that
    was there has been deleted: its task is cancelled, and its key and
    path resolve to nothing. *)
Theorem rejected_reregistration_deletes_the_old
    nr rp w ep d rp1 rp2 oldreg tail s0 e :
  installed w (ep, d) tail oldreg -> quiet w = true ->
  pop_single_arg rp "ep" = Ok (Some ep, rp1) ->
  pop_single_arg rp1 "d" = Ok (d, rp2) ->
  update_params_check s0 nr rp2 true = Raise e ->
  exists w' old,
    initialize_endpoint nr rp w = (w', Raise e)
    /\ by_key_get w' (ep, d) = None
    /\ by_path_get w' tail = None
    /\ nth_error (objects w') oldreg = Some old
    /\ live old = false.
Proof.
  intros I Q Hep Hd Hc.
  pose proof I as (Ik & _ & old & Hold & Hpath & _).
  rewrite (initialize_endpoint_old_key _ _ _ _ _ _ _ _ _ Hep Hd Ik Hold).
  destruct (delete_installed_run _ _ _ _ I Q) as (s & t & Hs & Ht & Hdel).
  rewrite Hold in Hs. injection Hs as <-.
  rewrite Hdel, install_run. cbv zeta.
  match goal with
  | |- context [update_params_check ?fresh nr rp2 true] =>
      rewrite (update_params_check_initial fresh s0), Hc
  end.
  eexists. exists (Reg.with_timeout old (mkTask (delay t) true)).
  split; [reflexivity|].
  unfold by_key_get, by_path_get. cbn [with_objects _by_key _by_path objects].
  split; [apply get_remove_same|]. split; [apply get_remove_same|].
  split; [|reflexivity].
  rewrite nth_error_app1.
  - apply (nth_error_list_set_same _ _ _ _ Hold).
  - rewrite list_set_length. apply nth_error_Some. congruence.
Qed.

Lemma installed_rd1 : installed Sample.rd1 ("a", None) ["1"; ""] 0.
Proof.
  unfold installed. split; [reflexivity|]. split; [reflexivity|].
  exists Sample.reg1. repeat apply conj; try (vm_compute; reflexivity);
    vm_compute; discriminate.
Qed.

Lemma rejected_reregistration_deletes_the_old_witness :
  exists w' old,
    initialize_endpoint Sample.node1 (query_split ["ep=a"; "rt=x"]) Sample.rd1
    = (w', Raise (BadRequest "Unsuitable parameter for registration"))
    /\ by_key_get w' ("a", None) = None
    /\ by_path_get w' ["1"; ""] = None
    /\ nth_error (objects w') 0 = Some old
    /\ live old = false.
Proof.
  apply (rejected_reregistration_deletes_the_old
           Sample.node1 (query_split ["ep=a"; "rt=x"]) Sample.rd1 "a" None
           [("rt", [Some "x"])] [("rt", [Some "x"])] 0 ["1"; ""] Sample.reg1).
  - apply installed_rd1.
  - vm_compute. reflexivity.
  - vm_compute. reflexivity.
  - vm_compute. reflexivity.
  - vm_compute. reflexivity.
Defined.

Lemma timeout_cancel_cbs self w w' (r : exc unit) :
  timeout_cancel self w = (w', r) ->
  _updated_state_cb w' = _updated_state_cb w.
Proof.
  unfold timeout_cancel, bind, get_obj, emit, put_obj, raise.
  destruct (nth_error (objects w) self) as [s|]; [|intros [= <- _]; reflexivity].
  destruct (Reg.timeout s); intros [= <- _]; reflexivity.
Qed.

(** With a subscriber that raises, [Registration.delete] never reaches
    its closure. *)
Lemma delete_blocked self w w' (r : exc unit) :
  quiet w = false -> delete self w = (w', r) ->
  r <> Ok tt /\ _by_key w' = _by_key w /\ _by_path w' = _by_path w.
Proof.
  intros Q. unfold delete. unfold bind at 1.
  destruct (timeout_cancel self w) as [w1 [[]|e]] eqn:Ec.
  2:{ intros [= <- <-]. split; [discriminate|].
      destruct (framed_timeout_cancel _ _ _ _ Ec) as (Hk & Hp & _). auto. }
  destruct (framed_timeout_cancel _ _ _ _ Ec) as (Hk & Hp & _).
  assert (Q1 : quiet w1 = false)
    by (unfold quiet; rewrite (timeout_cancel_cbs _ _ _ _ Ec); exact Q).
  unfold bind at 1. destruct (_updated_state_raises _ Q1) as (evs & n & ->).
  intros [= <- <-]. split; [discriminate|]. simpl. auto.
Qed.

(** X12: while one of the subscribers raises, no registration is ever
    added, replaced or removed: [initialize_endpoint] and
    [Registration.delete] never return, and both leave the two maps as
    they were. *)
Theorem raising_subscriber_freezes_the_maps w :
  quiet w = false ->
  (forall nr rp w' r,
      initialize_endpoint nr rp w = (w', r) ->
      (forall reg, r <> Ok reg) /\ _by_key w' = _by_key w /\ _by_path w' = _by_path w)
  /\ (forall self w' r,
         delete self w = (w', r) ->
         r <> Ok tt /\ _by_key w' = _by_key w /\ _by_path w' = _by_path w).
Proof.
  intros Q. split; [|intros self w' r; apply (delete_blocked _ _ _ _ Q)].
  intros nr rp w' r.
  assert (Install : forall sp rp2 path key w1 w2 r2,
             quiet w1 = false ->
             install sp nr rp2 path key w1 = (w2, r2) ->
             (forall reg, r2 <> Ok reg)
             /\ _by_key w2 = _by_key w1 /\ _by_path w2 = _by_path w1).
  { intros sp rp2 path key w1 w2 r2 Q1. rewrite install_run. cbv zeta.
    destruct (update_params_check _ nr rp2 true) as [c|e];
      [|intros [= <- <-]; repeat apply conj; [discriminate|reflexivity..]].
    destruct (update_params_apply _ c true) as [s1 [ac|e]] eqn:Ea;
      [|intros [= <- <-]; repeat apply conj; [discriminate|reflexivity..]].
    pose proof (update_params_apply_initial_change _ _ _ _ Ea). subst ac.
    match goal with
    | |- context [_updated_state ?w1'] =>
        destruct (_updated_state_raises w1' Q1) as (evs & n & ->)
    end.
    intros [= <- <-]. repeat apply conj; [discriminate|reflexivity..]. }
  unfold initialize_endpoint. unfold bind at 1. unfold lift at 1.
  destruct (pop_single_arg rp "ep") as [[[ep|] rp1]|e];
    try (intros [= <- <-]; repeat apply conj; [discriminate|reflexivity..]).
  unfold bind at 1. unfold lift at 1.
  destruct (pop_single_arg rp1 "d") as [[d rp2]|e];
    try (intros [= <- <-]; repeat apply conj; [discriminate|reflexivity..]).
  unfold bind at 1. unfold get_rd at 1.
  destruct (by_key_get w (ep, d)) as [oldreg|].
  - unfold bind at 1. unfold bind at 1. unfold get_obj at 1.
    destruct (nth_error (objects w) oldreg) as [old|];
      [|intros [= <- <-]; repeat apply conj; [discriminate|reflexivity..]].
    unfold bind at 1.
    destruct (delete oldreg w) as [w1 [[]|e]] eqn:Ed.
    + destruct (delete_blocked _ _ _ _ Q Ed) as (Hr & _). congruence.
    + destruct (delete_blocked _ _ _ _ Q Ed) as (_ & Hk & Hp).
      intros [= <- <-]. repeat apply conj; [discriminate|assumption..].
  - unfold bind at 1. unfold ret at 1. apply (Install _ _ _ _ _ _ _ Q).
Qed.

Lemma raising_subscriber_freezes_the_maps_witness :
  (forall nr rp w' r,
      initialize_endpoint nr rp Sample.rd_subs = (w', r) ->
      (forall reg, r <> Ok reg)
      /\ _by_key w' = _by_key Sample.rd_subs /\ _by_path w' = _by_path Sample.rd_subs)
  /\ (forall self w' r,
         delete self Sample.rd_subs = (w', r) ->
         r <> Ok tt
         /\ _by_key w' = _by_key Sample.rd_subs /\ _by_path w' = _by_path Sample.rd_subs).
Proof.
  apply (raising_subscriber_freezes_the_maps Sample.rd_subs).
  vm_compute. reflexivity.
Defined.

(** X13: when a subscriber raises while a registration of the maps is
    being deleted, the deletion ends in the exception of the subscriber
    with the task already cancelled and the registration still in both
    maps: the registration stays, and the end of the sleep of its task
    does nothing any more. *)
Theorem failed_delete_leaves_the_registration_without_task self w key tail :
  installed w key tail self -> quiet w = false ->
  exists w' n s',
    delete self w = (w', Raise (CallbackException n))
    /\ installed w' key tail self
    /\ nth_error (objects w') self = Some s'
    /\ live s' = false
    /\ expire self w' = (w', Ok tt).
Proof.
  intros I Q. pose proof I as (Ik & Ip & s & Hs & Hpath & Hcb & Ht & Hb).
  destruct (Reg.timeout s) as [t|] eqn:Et; [|congruence].
  unfold delete. unfold bind at 1. rewrite (timeout_cancel_run _ _ _ _ Hs Et).
  unfold bind at 1.
  match goal with
  | |- context [_updated_state ?w1] =>
      destruct (_updated_state_raises w1 Q) as (evs & n & ->)
  end.
  eexists. exists n, (Reg.with_timeout s (mkTask (delay t) true)).
  assert (Hobj : nth_error (list_set (objects w) self
                              (Reg.with_timeout s (mkTask (delay t) true))) self
                 = Some (Reg.with_timeout s (mkTask (delay t) true)))
    by apply (nth_error_list_set_same _ _ _ _ Hs).
  split; [reflexivity|]. split; [|split; [exact Hobj|split; [reflexivity|]]].
  - unfold installed. repeat apply conj; auto.
    exists (Reg.with_timeout s (mkTask (delay t) true)).
    repeat apply conj; auto. simpl. discriminate.
  - unfold expire, bind, get_obj. simpl. rewrite Hobj. reflexivity.
Qed.

Lemma failed_delete_leaves_the_registration_without_task_witness :
  exists w' n s',
    delete 0 Scenario.rd1_faulty = (w', Raise (CallbackException n))
    /\ installed w' ("a", None) ["1"; ""] 0
    /\ nth_error (objects w') 0 = Some s'
    /\ live s' = false
    /\ expire 0 w' = (w', Ok tt).
Proof.
  apply (failed_delete_leaves_the_registration_without_task
           0 Scenario.rd1_faulty ("a", None) ["1"; ""]).
  - unfold installed. split; [reflexivity|]. split; [reflexivity|].
    exists Sample.reg1. repeat apply conj; try (vm_compute; reflexivity);
      vm_compute; discriminate.
  - vm_compute. reflexivity.
Defined.

(** X14: a registration update that names, as [base], the base the
    directory had derived from the origin of the registration is not
    answered with [BadRequest]: it raises [UnboundLocalError] on
    [network_base], after a new lifetime sent with it has been stored and
    before the task is refreshed, so the stored lifetime and the pending
    task disagree. *)
Theorem update_with_the_derived_base_stops_halfway self nr (rp : query) w s t b txt n :
  nth_error (objects w) self = Some s -> Reg.timeout s = Some t ->
  Reg.base_is_explicit s = false -> Reg.base s = Some b ->
  existsb (fun k => in_names k ["ep"; "d"; "page"; "count"; "rt"; "href"; "anchor"])
          (Dict.keys rp) = false ->
  q_get rp "lt" = Some [Some txt] -> Py.parse_int txt = Some n ->
  q_get rp "base" = Some [Some b] ->
  update_params self nr rp false w
  = (store self (Reg.with_lt s n) w, Raise (UnboundLocalError "network_base"))
  /\ Reg.timeout (Reg.with_lt s n) = Some t.
Proof.
  intros Hs Ht He Hb Hkeys Hlt Hn Hbase. split; [|exact Ht].
  rewrite (update_params_run _ _ _ _ _ _ Hs Ht).
  assert (Hc : update_params_check s nr rp false
               = Ok (mkChecked None (Some n) (Some b)
                       (Dict.remove String.eqb (Dict.remove String.eqb rp "lt") "base"))).
  { unfold update_params_check.
    assert (K1 : existsb (fun k => in_names k ["ep"; "d"]) (Dict.keys rp) = false).
    { apply Bool.not_true_iff_false. intros H. apply Bool.not_true_iff_false in Hkeys.
      apply Hkeys. apply existsb_exists. apply existsb_exists in H.
      destruct H as (k & Hin & Hk). exists k. split; [exact Hin|].
      unfold in_names in *. simpl in *.
      destruct (String.eqb k "ep"); [reflexivity|].
      destruct (String.eqb k "d"); [reflexivity|discriminate]. }
    assert (K2 : existsb (fun k => in_names k ["page"; "count"; "rt"; "href"; "anchor"])
                         (Dict.keys rp) = false).
    { apply Bool.not_true_iff_false. intros H. apply Bool.not_true_iff_false in Hkeys.
      apply Hkeys. apply existsb_exists. apply existsb_exists in H.
      destruct H as (k & Hin & Hk). exists k. split; [exact Hin|].
      unfold in_names in *. simpl in *.
      destruct (String.eqb k "ep"); [reflexivity|].
      destruct (String.eqb k "d"); [reflexivity|exact Hk]. }
    rewrite K1, K2.
    assert (M1 : q_mem rp "base" = true) by (unfold q_mem, Dict.mem; unfold q_get in Hbase; rewrite Hbase; reflexivity).
    assert (M2 : q_mem rp "lt" = true) by (unfold q_mem, Dict.mem; unfold q_get in Hlt; rewrite Hlt; reflexivity).
    rewrite M1, M2, Bool.andb_false_r. cbn [exc_bind].
    rewrite (pop_single_arg_single _ _ _ Hlt). cbn [exc_bind try_except Py.int].
    rewrite Hn. cbn [exc_bind try_except].
    assert (Hbase' : q_get (Dict.remove String.eqb rp "lt") "base" = Some [Some b]).
    { unfold q_get. rewrite (get_remove_other _ _ _ String.eqb_eq); [exact Hbase|discriminate]. }
    assert (M3 : q_mem (Dict.remove String.eqb rp "lt") "base" = true)
      by (unfold q_mem, Dict.mem; unfold q_get in Hbase'; rewrite Hbase'; reflexivity).
    rewrite M3, (pop_single_arg_single _ _ _ Hbase'). reflexivity. }
  rewrite Hc. unfold update_params_apply, base_differs.
  cbn [set_lt set_base network_base rest].
  destruct (negb (Reg.lt s =? n)%Z) eqn:El.
  - cbn [Reg.base Reg.with_lt Reg.base_is_explicit]. rewrite Hb, String.eqb_refl.
    cbn [negb Reg.base Reg.with_lt Reg.base_is_explicit]. rewrite He, Hb.
    reflexivity.
  - rewrite Hb, String.eqb_refl. cbn [negb]. rewrite He, Hb.
    apply Bool.negb_false_iff, Z.eqb_eq in El. subst n.
    destruct s; reflexivity.
Qed.

Lemma update_with_the_derived_base_stops_halfway_witness :
  update_params 0 Sample.node1 Scenario.lt60_same_base false Sample.rd1
  = (store 0 (Reg.with_lt Sample.reg1 60) Sample.rd1,
     Raise (UnboundLocalError "network_base"))
  /\ Reg.timeout (Reg.with_lt Sample.reg1 60) = Some (mkTask 90015 false).
Proof.
  apply (update_with_the_derived_base_stops_halfway
           0 Sample.node1 Scenario.lt60_same_base Sample.rd1 Sample.reg1
           (mkTask 90015 false) "coap://node1/" "60" 60%Z);
    vm_compute; reflexivity.
Defined.

(** ** Repeating a registration update *)

Lemma update_get_In (d other : query) k v :
  NoDup (Dict.keys other) -> In (k, v) other ->
  q_get (Dict.update String.eqb d other) k = Some v.
Proof.
  unfold Dict.update, Dict.keys. revert d.
  induction other as [|[k' v'] other IH]; intros d Hnd Hin; simpl; [destruct Hin|].
  inversion Hnd as [|x l Hx Hl]; subst.
  destruct Hin as [[= -> ->]|Hin].
  - change (fold_left (fun acc kv => Dict.set String.eqb acc (fst kv) (snd kv)) other
                      (Dict.set String.eqb d k v))
      with (Dict.update String.eqb (Dict.set String.eqb d k v) other).
    rewrite get_update_other by exact Hx.
    apply (get_set_same _ _ _ String.eqb_eq).
  - apply IH; assumption.
Qed.

(** Once the parameters of a request are stored, they do not differ from
    the stored ones. *)
Lemma params_settled (s : Reg.t) (q : query) :
  NoDup (Dict.keys q) ->
  params_differ
    (Reg.with_registration_parameters s
       (Dict.update String.eqb (Reg.registration_parameters s) q)) q = false.
Proof.
  intros Hnd. apply Bool.not_true_iff_false. intros H.
  apply existsb_exists in H. destruct H as ([k v] & Hin & H).
  cbn [fst snd Reg.registration_parameters Reg.with_registration_parameters] in H.
  rewrite (update_get_In _ _ _ _ Hnd Hin) in H.
  apply Bool.negb_true_iff in H.
  assert (E : option_eqb values_eqb (Some v) (Some v) = true)
    by (apply (option_eqb_eq _ values_eqb_eq); reflexivity).
  congruence.
Qed.

Lemma update_params_apply_settles s c s1 ac :
  update_params_apply s c false = (s1, Ok ac) ->
  (set_base c <> None -> network_base c = None) ->
  NoDup (Dict.keys (rest c)) ->
  settled s1 c.
Proof.
  intros H Hx Hnd. unfold settled. repeat apply conj.
  - apply (update_params_apply_spec _ _ _ _ _ H).
  - intros b Hb. unfold update_params_apply, base_differs in H.
    rewrite Hx in H by congruence. rewrite Hb in H. revert H.
    repeat (case_innermost; simpl; try discriminate);
      intros [= <- _]; simpl;
      repeat match goal with
             | H : (_, _) = (_, _) |- _ => injection H as ? ?
             | H : Ok _ = Ok _ |- _ => injection H as ?
             | H : negb (String.eqb _ _) = false |- _ =>
                 apply Bool.negb_false_iff, String.eqb_eq in H
             end;
      subst; simpl in *; try congruence.
  - revert H. unfold update_params_apply, base_differs.
    repeat (case_innermost; simpl; try discriminate);
      intros [= <- _]; simpl;
      repeat match goal with
             | H : (_, _) = (_, _) |- _ => injection H as ? ?
             | H : Ok _ = Ok _ |- _ => injection H as ?
             | H : negb (String.eqb _ _) = false |- _ =>
                 apply Bool.negb_false_iff, String.eqb_eq in H
             end;
      subst; simpl in *; intros He; try congruence; eauto.
  - revert H. unfold update_params_apply, base_differs.
    repeat (case_innermost; simpl; try discriminate);
      intros [= <- _]; simpl;
      repeat match goal with
             | H : (_, _) = (_, _) |- _ => injection H as ? ?
             | H : Ok _ = Ok _ |- _ => injection H as ?
             end;
      subst; simpl in *;
      try assumption;
      match goal with
      | |- params_differ (Reg.with_registration_parameters ?S _) ?q = false =>
          exact (params_settled S q Hnd)
      end.
Qed.

Lemma update_params_apply_settled s c :
  settled s c -> update_params_apply s c false = (s, Ok false).
Proof.
  intros (Hlt & Hbase & Hnb & Hp). unfold update_params_apply, base_differs.
  destruct (set_lt c) as [n|];
    [rewrite (Hlt n eq_refl), Z.eqb_refl; cbn [negb]|];
    (destruct (set_base c) as [b|];
     [pose proof (Hbase b eq_refl) as Hb|];
     (destruct (Reg.base_is_explicit s) eqn:He;
      [|destruct (Hnb eq_refl) as (nb & Hn & Hb');
        try (rewrite Hb in Hb'; injection Hb' as <-)]));
    repeat first [rewrite Hb | rewrite Hb' | rewrite Hn | rewrite He
                 | rewrite String.eqb_refl | rewrite Hp
                 | progress cbv beta iota | progress cbn [negb]];
    reflexivity.
Qed.

Lemma pop_single_arg_mem (q : query) name v q' k :
  pop_single_arg q name = Ok (v, q') -> q_mem q' k = true -> q_mem q k = true.
Proof.
  unfold pop_single_arg. destruct (q_get q name) as [[|x [|y vs]]|]; simpl;
    try discriminate; intros [= _ <-]; auto.
  unfold q_mem, Dict.mem. destruct (String.eqb name k) eqn:E.
  - apply String.eqb_eq in E. subst k. rewrite get_remove_same. discriminate.
  - apply String.eqb_neq in E.
    rewrite (get_remove_other _ _ _ String.eqb_eq) by exact E. auto.
Qed.

Lemma pop_single_arg_NoDup (q : query) name v q' :
  pop_single_arg q name = Ok (v, q') ->
  NoDup (Dict.keys q) -> NoDup (Dict.keys q').
Proof.
  unfold pop_single_arg. destruct (q_get q name) as [[|x [|y vs]]|]; simpl;
    try discriminate; intros [= _ <-]; auto.
  apply keys_remove_NoDup.
Qed.

(** What the checks of [update_params] hand to the assignments. *)
Lemma update_params_check_inv s nr (rp : query) init c :
  update_params_check s nr rp init = Ok c ->
  (NoDup (Dict.keys rp) -> NoDup (Dict.keys (rest c)))
  /\ (set_base c <> None -> q_mem rp "base" = true)
  /\ (q_mem rp "base" = true -> network_base c = None).
Proof.
  unfold update_params_check.
  destruct (existsb _ (Dict.keys rp)); [discriminate|].
  destruct (existsb _ (Dict.keys rp)); [discriminate|].
  match goal with
  | |- context [exc_bind ?x _] => set (nbx := x)
  end.
  assert (Hnbx : q_mem rp "base" = true -> nbx = Ok None).
  { intros M. unfold nbx. rewrite M, Bool.andb_false_r. reflexivity. }
  destruct nbx as [nb|e]; cbn [exc_bind]; [|discriminate].
  match goal with
  | |- context [exc_bind ?x _] => set (ltx := x)
  end.
  assert (Hltx : forall sl q1,
             ltx = Ok (sl, q1) ->
             (forall k, q_mem q1 k = true -> q_mem rp k = true)
             /\ (NoDup (Dict.keys rp) -> NoDup (Dict.keys q1))).
  { unfold ltx. intros sl q1. destruct (q_mem rp "lt").
    - destruct (pop_single_arg rp "lt") as [[v q']|e] eqn:P1; cbn [exc_bind try_except].
      2:{ destruct (is_ValueError e); discriminate. }
      destruct (Py.int v) as [n|e]; cbn [exc_bind try_except].
      2:{ destruct (is_ValueError e); discriminate. }
      intros [= <- <-]. split.
      + intros k. apply (pop_single_arg_mem _ _ _ _ _ P1).
      + apply (pop_single_arg_NoDup _ _ _ _ P1).
    - intros [= <- <-]. auto. }
  destruct ltx as [[sl q1]|e]; cbn [exc_bind]; [|discriminate].
  destruct (Hltx _ _ eq_refl) as (Hm1 & Hn1).
  destruct (q_mem q1 "base") eqn:M1.
  - destruct (pop_single_arg q1 "base") as [[v2 q2]|e] eqn:P2; cbn [exc_bind];
      [|discriminate].
    intros [= <-]. cbn [rest set_base network_base]. repeat apply conj.
    + intros Hnd. apply (pop_single_arg_NoDup _ _ _ _ P2). auto.
    + intros _. apply Hm1. exact M1.
    + intros M. specialize (Hnbx M). congruence.
  - intros [= <-]. cbn [rest set_base network_base]. repeat apply conj.
    + exact Hn1.
    + congruence.
    + intros M. specialize (Hnbx M). congruence.
Qed.

(** The checks read the object only where they ask whether its base is
    explicit, and not even there when the request names a base. *)
Lemma update_params_check_same s s' nr (rp : query) init :
  Reg.base_is_explicit s' = Reg.base_is_explicit s \/ q_mem rp "base" = true ->
  update_params_check s' nr rp init = update_params_check s nr rp init.
Proof.
  intros [H|H]; unfold update_params_check.
  - rewrite H. reflexivity.
  - rewrite H, !Bool.andb_false_r. reflexivity.
Qed.

Lemma update_params_apply_explicit s c init s1 r :
  update_params_apply s c init = (s1, r) -> set_base c = None ->
  Reg.base_is_explicit s1 = Reg.base_is_explicit s.
Proof.
  intros H Hb. revert H. unfold update_params_apply, base_differs. rewrite Hb.
  repeat (case_innermost; simpl); intros [= <- _]; simpl; congruence.
Qed.

(** A registration update that returned returns again when it is
    repeated, and then does no more than refresh the task. *)
Lemma update_params_repeated self nr (rp : query) w w1 :
  NoDup (Dict.keys rp) ->
  update_params self nr rp false w = (w1, Ok tt) ->
  exists s1,
    nth_error (objects w1) self = Some s1
    /\ update_params self nr rp false w1
       = (log [EvCancel self; EvTask self (Reg.lt s1 + Reg.grace_period)] w1, Ok tt).
Proof.
  intros Hnd H.
  destruct (update_params_effect _ _ _ _ _ _ H)
    as (s & c & s1 & ac & Hs & Hc & Ha & Hobj & _).
  set (d := (Reg.lt s1 + Reg.grace_period)%Z) in *.
  set (s2 := Reg.with_timeout s1 (mkTask d false)) in *.
  exists s2. split; [exact Hobj|].
  destruct (update_params_check_inv _ _ _ _ _ Hc) as (Hrest & Hmem & Hnb).
  assert (Hset : settled s2 c).
  { apply (update_params_apply_settles s c s1 ac Ha); auto. }
  assert (Hc2 : update_params_check s2 nr rp false = Ok c).
  { rewrite <- Hc. apply update_params_check_same.
    destruct (set_base c) as [b|] eqn:Eb.
    - right. apply Hmem. discriminate.
    - left. apply (update_params_apply_explicit _ _ _ _ _ Ha Eb). }
  rewrite (update_params_run _ _ _ _ s2 (mkTask d false) Hobj eq_refl).
  rewrite Hc2, (update_params_apply_settled _ _ Hset). cbv zeta. unfold ret.
  f_equal. f_equal.
  destruct w1 as [bk bp cbs objs tr]. unfold store. cbn [_by_key _by_path _updated_state_cb objects trace] in *.
  f_equal. apply list_set_same. exact Hobj.
Qed.

(** ** The registration resource *)

Lemma update_params_check_set_lt s nr (rp : query) init c txt n :
  update_params_check s nr rp init = Ok c ->
  q_get rp "lt" = Some [Some txt] -> Py.parse_int txt = Some n ->
  set_lt c = Some n.
Proof.
  intros H Hlt Hn. revert H. unfold update_params_check.
  destruct (existsb _ (Dict.keys rp)); [discriminate|].
  destruct (existsb _ (Dict.keys rp)); [discriminate|].
  match goal with
  | |- context [exc_bind ?x _] => destruct x as [nb|e]
  end; cbn [exc_bind]; [|discriminate].
  assert (M : q_mem rp "lt" = true)
    by (unfold q_mem, Dict.mem; unfold q_get in Hlt; rewrite Hlt; reflexivity).
  rewrite M, (pop_single_arg_single _ _ _ Hlt). cbn [exc_bind try_except Py.int].
  rewrite Hn. cbn [exc_bind try_except].
  destruct (q_mem _ "base").
  - destruct (pop_single_arg _ "base") as [[v2 q2]|e]; cbn [exc_bind]; [|discriminate].
    intros [= <-]. reflexivity.
  - intros [= <-]. reflexivity.
Qed.

(** X15: a registration update request that was answered with [CHANGED]
    is answered with [CHANGED] again when it is repeated, and the second
    time it does no more than cancel the task and start a new one with
    the same delay: no attribute of the registration changes and no
    subscriber is notified. *)
Theorem repeated_update_only_refreshes_the_task reg request w w1 :
  RegistrationResource_render_post reg request w = (w1, Returned CHANGED) ->
  exists s1,
    nth_error (objects w1) reg = Some s1
    /\ Reg.timeout s1 = Some (mkTask (Reg.lt s1 + Reg.grace_period) false)
    /\ RegistrationResource_render_post reg request w1
       = (log [EvCancel reg; EvTask reg (Reg.lt s1 + Reg.grace_period)] w1,
          Returned CHANGED).
Proof.
  unfold RegistrationResource_render_post, hbind, run,
    RegistrationResource__update_params.
  destruct (update_params reg _ _ false w) as [w1' [[]|e]] eqn:Eu; [|discriminate].
  destruct (has_body request) eqn:Hb; [discriminate|].
  unfold hret. intros [= <-].
  destruct (update_params_repeated _ _ _ _ _ (proj1 (query_split_wf _)) Eu)
    as (s1 & Hs1 & Hrep).
  exists s1. split; [exact Hs1|]. split.
  - destruct (update_params_effect _ _ _ _ _ _ Eu)
      as (s & c & s0 & ac & _ & _ & _ & Hobj & _).
    rewrite Hs1 in Hobj. injection Hobj as ->. reflexivity.
  - rewrite Hrep. reflexivity.
Qed.

Lemma repeated_update_only_refreshes_the_task_witness :
  exists s1,
    nth_error (objects Sample.rd1_lt60) 0 = Some s1
    /\ Reg.timeout s1 = Some (mkTask (Reg.lt s1 + Reg.grace_period) false)
    /\ RegistrationResource_render_post 0 Scenario.update_lt60 Sample.rd1_lt60
       = (log [EvCancel 0; EvTask 0 (Reg.lt s1 + Reg.grace_period)] Sample.rd1_lt60,
          Returned CHANGED).
Proof.
  apply (repeated_update_only_refreshes_the_task
           0 Scenario.update_lt60 Sample.rd1 Sample.rd1_lt60).
  vm_compute. reflexivity.
Defined.

(** X16: [RegistrationResource.render_post] looks for a body only after
    the update.  A registration update that carries a body and whose
    parameters are acceptable is answered with [BadRequest], but the
    update has been made: the registration has the lifetime of the
    request and a new task for it, and the trace has grown. *)
Theorem update_with_body_is_applied_then_rejected reg request w w1 :
  has_body request = true ->
  RegistrationResource__update_params reg request w = (w1, Ok tt) ->
  RegistrationResource_render_post reg request w
  = (w1, Raised (Exn (BadRequest "Registration update with body not specified")))
  /\ exists s1,
      nth_error (objects w1) reg = Some s1
      /\ Reg.timeout s1 = Some (mkTask (Reg.lt s1 + Reg.grace_period) false)
      /\ (forall txt n,
             values_of "lt" (Message.uri_query request) = [Some txt] ->
             Py.parse_int txt = Some n -> Reg.lt s1 = n)
      /\ In (EvTask reg (Reg.lt s1 + Reg.grace_period)) (trace w1)
      /\ w1 <> w.
Proof.
  intros Hb Hu. split.
  - unfold RegistrationResource_render_post, hbind, run. rewrite Hu, Hb. reflexivity.
  - unfold RegistrationResource__update_params in Hu.
    destruct (update_params_effect _ _ _ _ _ _ Hu)
      as (s & c & s1 & ac & Hs & Hc & Ha & Hobj & _ & _ & _ & _ & Htr).
    exists (Reg.with_timeout s1 (mkTask (Reg.lt s1 + Reg.grace_period) false)).
    split; [exact Hobj|]. split; [reflexivity|]. split; [|split].
    + intros txt n Hv Hn. cbn [Reg.lt Reg.with_timeout].
      apply (update_params_apply_spec _ _ _ _ _ Ha).
      apply (update_params_check_set_lt _ _ _ _ _ txt _ Hc); [|exact Hn].
      unfold query_split. rewrite query_split_from, Hv. reflexivity.
    + rewrite Htr. cbn [Reg.lt Reg.with_timeout].
      apply in_or_app. right. apply in_or_app. right. left. reflexivity.
    + intros ->. apply (f_equal (@List.length event)) in Htr.
      rewrite !length_app in Htr. simpl in Htr. lia.
Qed.

Lemma update_with_body_is_applied_then_rejected_witness :
  RegistrationResource_render_post 0 Scenario.update_lt60_with_body Sample.rd1
  = (Sample.rd1_lt60,
     Raised (Exn (BadRequest "Registration update with body not specified")))
  /\ exists s1,
      nth_error (objects Sample.rd1_lt60) 0 = Some s1
      /\ Reg.timeout s1 = Some (mkTask (Reg.lt s1 + Reg.grace_period) false)
      /\ (forall txt n,
             values_of "lt" (Message.uri_query Scenario.update_lt60_with_body)
             = [Some txt] ->
             Py.parse_int txt = Some n -> Reg.lt s1 = n)
      /\ In (EvTask 0 (Reg.lt s1 + Reg.grace_period)) (trace Sample.rd1_lt60)
      /\ Sample.rd1_lt60 <> Sample.rd1.
Proof.
  apply (update_with_body_is_applied_then_rejected
           0 Scenario.update_lt60_with_body Sample.rd1 Sample.rd1_lt60);
    vm_compute; reflexivity.
Defined.

(** Whatever its outcome, [update_params] on a registration that has a
    task leaves the object in the store, with the links it had. *)
Lemma update_params_keeps_links self nr rp w w' (r : exc unit) s t :
  nth_error (objects w) self = Some s -> Reg.timeout s = Some t ->
  update_params self nr rp false w = (w', r) ->
  exists s', nth_error (objects w') self = Some s' /\ Reg.links s' = Reg.links s.
Proof.
  intros Hs Ht. rewrite (update_params_run _ _ _ _ _ _ Hs Ht).
  destruct (update_params_check s nr rp false) as [c|e].
  2:{ intros [= <- _]. eauto. }
  destruct (update_params_apply s c false) as [s1 [ac|e]] eqn:Ea;
    destruct (update_params_apply_timeout _ _ _ _ _ Ea) as (_ & _ & _ & Hl).
  - cbv zeta. intros H.
    assert (Hobj : forall w0 evs,
               w0 = log evs (log [EvCancel self;
                                  EvTask self (Reg.lt s1 + Reg.grace_period)]
                               (store self
                                  (Reg.with_timeout s1
                                     (mkTask (Reg.lt s1 + Reg.grace_period) false)) w)) ->
               exists s', nth_error (objects w0) self = Some s'
                          /\ Reg.links s' = Reg.links s).
    { intros w0 evs ->.
      exists (Reg.with_timeout s1 (mkTask (Reg.lt s1 + Reg.grace_period) false)).
      split; [|exact Hl]. simpl. apply (nth_error_list_set_same _ _ _ _ Hs). }
    destruct ac.
    + destruct (_updated_state_logs _ _ _ H) as (evs & ->). eapply Hobj. reflexivity.
    + injection H as <- _. apply (Hobj _ []). rewrite log_nil. reflexivity.
  - intros [= <- _]. exists s1. split; [|exact Hl]. simpl.
    apply (nth_error_list_set_same _ _ _ _ Hs).
Qed.

(** X17: [RegistrationResource.render_put] decodes the body before it
    updates.  A body that cannot be decoded, or that has an unsupported
    content format, leaves the directory as it was; when the update
    raises, the links of the registration are the ones it had; and when
    the request is answered with [CHANGED], the links of the
    registration are exactly the decoded ones, the old links being
    dropped. *)
Theorem put_replaces_the_links
    (decode : content_format -> string -> option (list Link.t)) reg request w s t :
  nth_error (objects w) reg = Some s -> Reg.timeout s = Some t ->
  match link_format_from_message decode request with
  | Raised e => RegistrationResource_render_put decode reg request w = (w, Raised e)
  | Returned links =>
      match RegistrationResource__update_params reg request w with
      | (w1, Ok _) =>
          exists s1,
            nth_error (objects w1) reg = Some s1
            /\ RegistrationResource_render_put decode reg request w
               = (store reg (Reg.with_links s1 links) w1, Returned CHANGED)
      | (w1, Raise e) =>
          RegistrationResource_render_put decode reg request w = (w1, Raised (Exn e))
          /\ exists s1, nth_error (objects w1) reg = Some s1
                        /\ Reg.links s1 = Reg.links s
      end
  end.
Proof.
  intros Hs Ht.
  destruct (link_format_from_message decode request) as [links|e] eqn:Ed.
  - destruct (RegistrationResource__update_params reg request w) as [w1 [[]|e]] eqn:Eu.
    + destruct (update_params_keeps_links _ _ _ _ _ _ _ _ Hs Ht Eu) as (s1 & Hs1 & _).
      exists s1. split; [exact Hs1|].
      unfold RegistrationResource_render_put, hbind, hlift, run.
      rewrite Ed, Eu. unfold set_links, bind, put_obj, hret.
      rewrite (get_obj_run _ _ _ Hs1). reflexivity.
    + split; [|apply (update_params_keeps_links _ _ _ _ _ _ _ _ Hs Ht Eu)].
      unfold RegistrationResource_render_put, hbind, hlift, run.
      rewrite Ed, Eu. reflexivity.
  - unfold RegistrationResource_render_put, hbind, hlift. rewrite Ed. reflexivity.
Qed.

Lemma put_replaces_the_links_witness :
  exists s1,
    nth_error (objects (fst (RegistrationResource__update_params
                               0 Scenario.put_no_links Scenario.rd_a))) 0 = Some s1
    /\ RegistrationResource_render_put Scenario.decode 0 Scenario.put_no_links
                                       Scenario.rd_a
       = (store 0 (Reg.with_links s1 [])
                (fst (RegistrationResource__update_params
                        0 Scenario.put_no_links Scenario.rd_a)),
          Returned CHANGED).
Proof.
  apply (put_replaces_the_links Scenario.decode 0 Scenario.put_no_links Scenario.rd_a
           (nth 0 (objects Scenario.rd_a) Sample.reg1) (mkTask 90015 false));
    vm_compute; reflexivity.
Defined.

(** ** The registration site *)

Section SiteRequests.
Variable decode : content_format -> string -> option (list Link.t).

(** X18: in a healthy directory, [DELETE] on the path of a registration
    is answered with [DELETED] and leaves a healthy directory in which
    every request to that path is answered with [NotFound] and changes
    nothing, while every other path leads where it led before. *)
Theorem deleted_registration_is_not_found request w reg :
  healthy w ->
  by_path_get w (Message.uri_path request) = Some reg ->
  Message.code request = DELETE ->
  exists w',
    RegistrationDispatchSite_render decode request w = (w', Returned DELETED)
    /\ healthy w'
    /\ (forall request',
           Message.uri_path request' = Message.uri_path request ->
           RegistrationDispatchSite_render decode request' w'
           = (w', Raised (Exn NotFound)))
    /\ (forall p, p <> Message.uri_path request -> by_path_get w' p = by_path_get w p).
Proof.
  intros Hw Hp Hcode. pose proof Hw as (C & _ & _ & _ & _ & Q).
  destruct (proj2 C _ _ Hp) as (key & I).
  destruct (delete_installed_run _ _ _ _ I Q) as (s & t & Hs & Ht & Hdel).
  eexists. split; [|split; [|split]].
  - unfold RegistrationDispatchSite_render, hbind, run, dispatch, bind, get_rd, ret.
    rewrite Hp. unfold RegistrationResource_render.
    cbn [Message.code Message.copy_uri_path]. rewrite Hcode.
    unfold RegistrationResource_render_delete, hbind, run, hret. rewrite Hdel.
    reflexivity.
  - apply (healthy_remove _ _ _ _ _ _ _ Hw I Hs Ht).
  - intros request' Hpath.
    unfold RegistrationDispatchSite_render, hbind, run, dispatch, bind, get_rd, raise.
    unfold by_path_get. cbn [_by_path]. rewrite Hpath, get_remove_same. reflexivity.
  - intros p Hne. unfold by_path_get. cbn [_by_path].
    apply (get_remove_other _ _ _ path_eqb_eq). congruence.
Qed.


End SiteRequests.

Lemma healthy_rd_a : healthy Scenario.rd_a.
Proof.
  apply (reachable_healthy Scenario.decode).
  apply (@reachable_step Scenario.decode CommonRD_init Scenario.rd_a).
  - apply reachable_init.
  - apply (@step_register Scenario.decode CommonRD_init Scenario.register_a).
Qed.

Lemma deleted_registration_is_not_found_witness :
  exists w',
    RegistrationDispatchSite_render Scenario.decode Scenario.delete_1 Scenario.rd_a
    = (w', Returned DELETED)
    /\ healthy w'
    /\ (forall request',
           Message.uri_path request' = ["1"; ""] ->
           RegistrationDispatchSite_render Scenario.decode request' w'
           = (w', Raised (Exn NotFound)))
    /\ (forall p, p <> ["1"; ""] -> by_path_get w' p = by_path_get Scenario.rd_a p).
Proof.
  apply (deleted_registration_is_not_found
           Scenario.decode Scenario.delete_1 Scenario.rd_a 0).
  - apply healthy_rd_a.
  - vm_compute. reflexivity.
  - reflexivity.
Defined.


(** ** The directory resource and the lookups *)

Lemma get_endpoints_In w key r s :
  by_key_get w key = Some r -> nth_error (objects w) r = Some s ->
  In s (get_endpoints w).
Proof.
  intros Hk Hs. unfold get_endpoints. apply in_flat_map. exists r. split.
  - unfold Dict.values. apply in_map_iff. exists (key, r). split; [reflexivity|].
    apply (get_In _ _ _ key_eqb_eq). exact Hk.
  - rewrite Hs. left. reflexivity.
Qed.

(** In a healthy directory the endpoints are the objects of installed
    registrations. *)
Lemma get_endpoints_installed w s :
  healthy w -> In s (get_endpoints w) ->
  exists key tail r, installed w key tail r /\ nth_error (objects w) r = Some s.
Proof.
  intros (C & Nk & _) Hin. unfold get_endpoints in Hin.
  apply in_flat_map in Hin. destruct Hin as (r & Hr & Hs).
  unfold Dict.values in Hr. apply in_map_iff in Hr.
  destruct Hr as ([key r'] & Hr' & Hin). simpl in Hr'. subst r'.
  apply (In_get _ _ _ key_eqb_eq _ _ _ Nk) in Hin.
  destruct (proj1 C _ _ Hin) as (tail & I).
  exists key, tail, r. split; [exact I|].
  destruct (nth_error (objects w) r) as [s0|]; [|destruct Hs].
  destruct Hs as [->|[]]. reflexivity.
Qed.

(** What a returning [initialize_endpoint] leaves in a healthy
    directory, for a new key and for a key that had a registration. *)
Lemma initialize_endpoint_installs nr rp w w' reg :
  healthy w -> initialize_endpoint nr rp w = (w', Ok reg) ->
  exists ep d tail new,
    healthy w'
    /\ installed w' (ep, d) tail reg
    /\ nth_error (objects w') reg = Some new
    /\ Reg.path new = entity_prefix ++ tail
    /\ Reg.links new = []
    /\ live new = true
    /\ q_get (Reg.registration_parameters new) "ep" = Some [Some ep]
    /\ q_get rp "ep" = Some [Some ep].
Proof.
  intros Hw H.
  destruct (healthy_initialize_endpoint _ _ _ _ _ Hw H) as (Hw' & _).
  destruct (pop_single_arg rp "ep") as [[[ep|] rp1]|e] eqn:Hep;
    try (unfold initialize_endpoint, bind, lift in H; rewrite Hep in H; discriminate).
  destruct (pop_single_arg rp1 "d") as [[d rp2]|e] eqn:Hd.
  2:{ unfold initialize_endpoint in H. unfold bind at 1 in H. unfold lift at 1 in H.
      rewrite Hep in H. unfold bind at 1 in H. unfold lift at 1 in H.
      rewrite Hd in H. discriminate. }
  assert (Fin : forall path w1,
             quiet w1 = true ->
             by_key_get w1 (ep, d) = None -> by_path_get w1 path = None ->
             healthy w1 ->
             install (ep_and_d_of rp) nr rp2 path (ep, d) w1 = (w', Ok reg) ->
             exists new,
               installed w' (ep, d) path reg
               /\ nth_error (objects w') reg = Some new
               /\ Reg.path new = entity_prefix ++ path
               /\ Reg.links new = []
               /\ live new = true
               /\ q_get (Reg.registration_parameters new) "ep" = Some [Some ep]).
  { intros path w1 Q1 Fk Fp Hw1 Hi.
    destruct (healthy_install_op _ _ _ _ _ _ _ _ Hw1 Fk Fp Hi) as (_ & Hinst).
    destruct (install_effect _ _ _ _ _ _ _ _ Q1 Hi)
      as (new & E1 & E2 & E3 & _ & E5 & E6 & _ & E8 & _).
    exists new. split; [apply Hinst; reflexivity|].
    split; [rewrite E2, E1; apply nth_error_snoc|].
    split; [exact E3|]. split; [exact E5|].
    split; [unfold live; rewrite E6; reflexivity|].
    rewrite E8. apply (ep_and_d_of_ep _ _ _ Hep). }
  pose proof Hw as (C & _ & _ & _ & _ & Q).
  destruct (by_key_get w (ep, d)) as [oldreg|] eqn:Ek.
  - destruct (proj1 C _ _ Ek) as (tail & I).
    pose proof I as (_ & _ & old & Hold & Hpath & _).
    rewrite (initialize_endpoint_old_key _ _ _ _ _ _ _ _ _ Hep Hd Ek Hold) in H.
    destruct (healthy_delete _ _ _ _ Hw I) as (w1 & Hdel & Hw1 & Fk & Fp & _).
    rewrite Hdel, Hpath in H. simpl skipn in H.
    destruct (Fin tail w1 (proj2 (proj2 (proj2 (proj2 (proj2 Hw1))))) Fk Fp Hw1 H)
      as (new & F).
    exists ep, d, tail, new. split; [exact Hw'|].
    repeat (split; [apply F|]). apply (pop_single_arg_value _ _ _ _ Hep).
  - rewrite (initialize_endpoint_new_key _ _ _ _ _ _ _ Hep Hd Ek) in H.
    destruct (Fin _ w Q Ek (_new_pathtail_fresh w) Hw H) as (new & F).
    exists ep, d, (_new_pathtail w), new. split; [exact Hw'|].
    repeat (split; [apply F|]). apply (pop_single_arg_value _ _ _ _ Hep).
Qed.

Section Directory.
Variable urljoin : string -> string -> string.
Variable decode : content_format -> string -> option (list Link.t).

(** Everything a [DirectoryResource.render_post] answered with [CREATED]
    has done, in a healthy directory. *)
Lemma created_effect request w w' loc :
  healthy w ->
  DirectoryResource_render_post decode request w = (w', Returned (CREATED loc)) ->
  exists ep d tail reg s links,
    link_format_from_message decode request = Returned links
    /\ loc = entity_prefix ++ tail
    /\ installed w' (ep, d) tail reg
    /\ nth_error (objects w') reg = Some s
    /\ Reg.path s = loc
    /\ Reg.links s = links
    /\ live s = true
    /\ q_get (Reg.registration_parameters s) "ep" = Some [Some ep]
    /\ q_get (query_split (Message.uri_query request)) "ep" = Some [Some ep]
    /\ healthy w'.
Proof.
  intros Hw. unfold DirectoryResource_render_post. unfold hbind at 1. unfold hlift.
  destruct (link_format_from_message decode request) as [links|e]; [|discriminate].
  unfold hbind at 1. unfold run at 1.
  destruct (initialize_endpoint _ _ w) as [w1 [reg|e]] eqn:Ei; [|discriminate].
  destruct (initialize_endpoint_installs _ _ _ _ _ Hw Ei)
    as (ep & d & tail & new & Hw1 & I & Hnew & Hpath & _ & Hl & Hp & Hq).
  unfold hbind at 1. unfold run at 1. unfold set_links, bind, put_obj.
  rewrite (get_obj_run _ _ _ Hnew).
  assert (S : same_tasks w1 (store reg (Reg.with_links new links) w1)).
  { apply (same_tasks_store _ new); auto. }
  assert (Hobj : nth_error (objects (store reg (Reg.with_links new links) w1)) reg
                 = Some (Reg.with_links new links)).
  { simpl. apply (nth_error_list_set_same _ _ _ _ Hnew). }
  unfold hbind, run, hret. rewrite (get_obj_run _ _ _ Hobj).
  intros [= <- <-].
  exists ep, d, tail, reg, (Reg.with_links new links), links.
  split; [reflexivity|]. split; [exact Hpath|].
  split; [apply (installed_extends _ _ _ _ _ (same_tasks_extends _ _ S) I)|].
  split; [exact Hobj|]. split; [reflexivity|]. split; [reflexivity|].
  split; [exact Hl|]. split; [exact Hp|]. split; [exact Hq|].
  apply (healthy_same_tasks _ _ S Hw1).
Qed.

(** X20: in a healthy directory, the location path of a registration
    answered with [CREATED] is the path of a registration that is in the
    directory from then on: the path without the entity prefix leads the
    registration site to it, it holds exactly the links decoded from the
    body of the request, its task is pending, and it is among the
    endpoints the lookups see. *)
Theorem created_location_resolves request w w' loc :
  healthy w ->
  DirectoryResource_render_post decode request w = (w', Returned (CREATED loc)) ->
  exists tail reg s links,
    loc = entity_prefix ++ tail
    /\ dispatch tail w' = (w', Ok reg)
    /\ nth_error (objects w') reg = Some s
    /\ Reg.path s = loc
    /\ link_format_from_message decode request = Returned links
    /\ Reg.links s = links
    /\ live s = true
    /\ In s (get_endpoints w')
    /\ healthy w'.
Proof.
  intros Hw H.
  destruct (created_effect _ _ _ _ Hw H)
    as (ep & d & tail & reg & s & links & E1 & E2 & I & E4 & E5 & E6 & E7 & _ & _ & E9).
  exists tail, reg, s, links. pose proof I as (Ik & Ip & _).
  split; [exact E2|].
  split; [unfold dispatch, bind, get_rd, ret; rewrite Ip; reflexivity|].
  split; [exact E4|]. split; [exact E5|]. split; [exact E1|]. split; [exact E6|].
  split; [exact E7|]. split; [apply (get_endpoints_In _ _ _ _ Ik E4)|exact E9].
Qed.

Lemma filter_all {A} (l : list A) : Py.filter (fun _ => Ok true) l = Ok l.
Proof. induction l as [|x l IH]; simpl; [reflexivity|]. rewrite IH. reflexivity. Qed.

Lemma map_exc_total {A B} (f : A -> exc B) (l : list A) :
  (forall x, In x l -> exists y, f x = Ok y) ->
  exists ys, map_exc f l = Ok ys /\ Forall2 (fun x y => f x = Ok y) l ys.
Proof.
  induction l as [|x l IH]; intros Hf; simpl.
  - exists []. split; [reflexivity|constructor].
  - destruct (Hf x (or_introl eq_refl)) as (y & Hy).
    destruct IH as (ys & Hys & HF); [intros z Hz; apply Hf; right; exact Hz|].
    exists (y :: ys). rewrite Hy, Hys. split; [reflexivity|].
    constructor; assumption.
Qed.

Lemma healthy_endpoints_have_a_base w s :
  healthy w -> In s (get_endpoints w) -> exists b, Reg.base s = Some b.
Proof.
  intros Hw Hin.
  destruct (get_endpoints_installed _ _ Hw Hin) as (key & tail & r & I & Hs).
  destruct I as (_ & _ & s0 & Hs0 & _ & _ & _ & Hb).
  rewrite Hs in Hs0. injection Hs0 as <-.
  destruct (Reg.base s) as [b|]; [eauto|congruence].
Qed.

Lemma healthy_endpoints_length w :
  healthy w -> List.length (get_endpoints w) = List.length (_by_key w).
Proof.
  intros Hw. unfold get_endpoints.
  rewrite (flat_map_constant_length (c:=1)).
  - unfold Dict.values. rewrite length_map. lia.
  - intros r Hr. pose proof (healthy_values_are_objects _ _ Hw Hr) as Hlt.
    apply nth_error_Some in Hlt.
    destruct (nth_error (objects w) r); [reflexivity|congruence].
Qed.

(** X21: in a healthy directory an endpoint lookup without query options
    never fails and lists every registration once: it returns the host
    links of the registrations of [_by_key], in the order of that
    dictionary. *)
Theorem unfiltered_endpoint_lookup_lists_every_registration w :
  healthy w ->
  exists ls,
    ep_lookup urljoin w (query_split []) = Ok ls
    /\ Forall2 (fun s l => get_host_link s = Ok l) (get_endpoints w) ls
    /\ List.length ls = List.length (_by_key w).
Proof.
  intros Hw.
  destruct (map_exc_total get_host_link (get_endpoints w)) as (ls & Hls & HF).
  { intros s Hs. destruct (healthy_endpoints_have_a_base _ _ Hw Hs) as (b & Hb).
    rewrite (get_host_link_spec _ _ Hb). eauto. }
  exists ls. split; [|split; [exact HF|]].
  - unfold ep_lookup, ep_filter. cbn [query_split fold_left filter_loop].
    change (Py.filter (passes (ep_condition urljoin frame0) []) (get_endpoints w))
      with (Py.filter (fun _ : Reg.t => Ok true) (get_endpoints w)).
    rewrite filter_all. cbn. exact Hls.
  - rewrite <- (Forall2_length HF). apply (healthy_endpoints_length _ Hw).
Qed.


End Directory.

Lemma created_location_resolves_witness :
  exists tail reg s links,
    ["reg"; "1"; ""] = entity_prefix ++ tail
    /\ dispatch tail Scenario.rd_a = (Scenario.rd_a, Ok reg)
    /\ nth_error (objects Scenario.rd_a) reg = Some s
    /\ Reg.path s = ["reg"; "1"; ""]
    /\ link_format_from_message Scenario.decode Scenario.register_a = Returned links
    /\ Reg.links s = links
    /\ live s = true
    /\ In s (get_endpoints Scenario.rd_a)
    /\ healthy Scenario.rd_a.
Proof.
  apply (created_location_resolves Scenario.decode Scenario.register_a
           CommonRD_init Scenario.rd_a ["reg"; "1"; ""]).
  - apply healthy_init.
  - vm_compute. reflexivity.
Defined.

Lemma unfiltered_endpoint_lookup_lists_every_registration_witness :
  exists ls,
    ep_lookup Sample.urljoin Scenario.rd_a (query_split []) = Ok ls
    /\ Forall2 (fun s l => get_host_link s = Ok l) (get_endpoints Scenario.rd_a) ls
    /\ List.length ls = List.length (_by_key Scenario.rd_a).
Proof.
  apply (unfiltered_endpoint_lookup_lists_every_registration
           Sample.urljoin Scenario.rd_a).
  apply healthy_rd_a.
Defined.


Lemma prefix_drop_last s : String.prefix (Py.drop_last s) s = true.
Proof.
  induction s as [|c s IH]; [reflexivity|].
  destruct s as [|c' s']; [reflexivity|].
  change (Py.drop_last (String c (String c' s')))
    with (String c (Py.drop_last (String c' s'))).
  cbn [String.prefix]. destruct (Ascii.ascii_dec c c) as [_|Hne]; [exact IH|].
  exfalso. apply Hne. reflexivity.
Qed.

(** A name matches itself as a search value, with or without a final
    [*]. *)
Lemma value_matchesb_refl s : value_matchesb s s = true.
Proof.
  unfold value_matchesb, Py.startswith.
  destruct (Py.endswith_star s); [apply prefix_drop_last|apply String.eqb_refl].
Qed.

Section FindByName.
Variable urljoin : string -> string -> string.
Variable decode : content_format -> string -> option (list Link.t).

(** X23: registering and looking up compose.  In a healthy directory,
    after a registration answered with [CREATED], the request had a
    single [ep] option with a value, and every endpoint lookup for
    [ep=<that value>] that returns has, among the registrations it
    found, the one at the location path of the answer. *)
Theorem registered_endpoint_is_found_by_its_name request w w' loc :
  healthy w ->
  DirectoryResource_render_post decode request w = (w', Returned (CREATED loc)) ->
  exists name,
    values_of "ep" (Message.uri_query request) = [Some name]
    /\ forall r,
        ep_filter urljoin w' (query_split [("ep=" ++ name)%string]) = Ok r ->
        exists s, In s r /\ Reg.path s = loc.
Proof.
  intros Hw H.
  destruct (created_effect decode _ _ _ _ Hw H)
    as (ep & d & tail & reg & s & links & _ & _ & I & Hs & Hpath & _ & _ & Hp & Hq & _).
  exists ep. split.
  - unfold query_split in Hq. rewrite query_split_from in Hq.
    change (q_get [] "ep") with (@None (list value)) in Hq. cbv iota in Hq.
    destruct (values_of "ep" (Message.uri_query request)); [discriminate|].
    injection Hq as -> ->. reflexivity.
  - intros r Hr. exists s. split; [|exact Hpath].
    change (query_split [("ep=" ++ ep)%string]) with [("ep", [Some ep])] in Hr.
    unfold ep_filter in Hr. rewrite (filter_loop_single "ep" ep eq_refl) in Hr.
    assert (Hin : In s (get_endpoints w'))
      by (destruct I as (Ik & _); apply (get_endpoints_In _ _ _ _ Ik Hs)).
    apply (filter_In _ _ _ Hr). split; [exact Hin|].
    destruct (filter_answers _ _ _ Hr s Hin) as [b Hb].
    cbn [passes] in Hb |- *.
    destruct (ep_condition urljoin _ _ s) as [[|]|e] eqn:E; try discriminate.
    + reflexivity.
    + exfalso.
      assert (M : endpoint_matches urljoin "ep" ep s).
      { unfold endpoint_matches. cbn [String.eqb Ascii.eqb Bool.eqb].
        left. exists [Some ep], ep. split; [exact Hp|]. split; [left; reflexivity|].
        unfold attribute_matchesb. cbn [in_names existsb String.eqb Ascii.eqb Bool.eqb orb].
        apply value_matchesb_refl. }
      apply (ep_condition_spec urljoin "ep" ep s false E) in M. discriminate.
Qed.

End FindByName.

Lemma registered_endpoint_is_found_by_its_name_witness :
  exists name,
    values_of "ep" (Message.uri_query Scenario.register_a) = [Some name]
    /\ forall r,
        ep_filter Sample.urljoin Scenario.rd_a (query_split [("ep=" ++ name)%string])
        = Ok r ->
        exists s, In s r /\ Reg.path s = ["reg"; "1"; ""].
Proof.
  apply (registered_endpoint_is_found_by_its_name
           Sample.urljoin Scenario.decode Scenario.register_a CommonRD_init
           Scenario.rd_a ["reg"; "1"; ""]).
  - apply healthy_init.
  - vm_compute. reflexivity.
Defined.

(** ** Utilities: [hostportjoin] *)

Lemma string_app_assoc (a b c : string) : ((a ++ b) ++ c = a ++ (b ++ c))%string.
Proof. induction a as [|x a IH]; simpl; [reflexivity|]. rewrite IH. reflexivity. Qed.

Lemma has_colon_app s t :
  Util.has_colon (s ++ t) = Util.has_colon s || Util.has_colon t.
Proof.
  induction s as [|c s IH]; simpl; [reflexivity|].
  rewrite IH, Bool.orb_assoc. reflexivity.
Qed.

Lemma every_char_app P s t :
  every_char P (s ++ t) = every_char P s && every_char P t.
Proof.
  induction s as [|c s IH]; simpl; [reflexivity|].
  rewrite IH, Bool.andb_assoc. reflexivity.
Qed.

Lemma every_char_no_colon P s :
  P ":"%char = false -> every_char P s = true -> Util.has_colon s = false.
Proof.
  intros HP. induction s as [|c s IH]; simpl; [reflexivity|].
  intros H. apply Bool.andb_true_iff in H. destruct H as [Hc Hs].
  rewrite (IH Hs), Bool.orb_false_r.
  destruct (Ascii.eqb c ":"%char) eqn:E; [|reflexivity].
  apply Ascii.eqb_eq in E. subst c. congruence.
Qed.

Lemma uint_chars d : every_char Py.isdigit (NilEmpty.string_of_uint d) = true.
Proof. induction d; simpl; try reflexivity; exact IHd. Qed.

Lemma format_d_chars n : every_char decimal_char (Util.format_d n) = true.
Proof.
  assert (H : forall d, every_char decimal_char (NilZero.string_of_uint d) = true).
  { intros d.
    assert (H' : every_char decimal_char (NilEmpty.string_of_uint d) = true).
    { pose proof (uint_chars d) as Hd. revert Hd.
      generalize (NilEmpty.string_of_uint d). intros s.
      induction s as [|c s IH]; simpl; [reflexivity|].
      intros H. apply Bool.andb_true_iff in H. destruct H as [Hc Hs].
      unfold decimal_char at 1. rewrite Hc, (IH Hs). reflexivity. }
    destruct d; exact H'. }
  unfold Util.format_d. destruct (Z.to_int n) as [d|d]; simpl; [apply H|].
  change (decimal_char "-"%char && every_char decimal_char (NilZero.string_of_uint d)
          = true).
  rewrite H. reflexivity.
Qed.

Lemma format_d_no_colon n : Util.has_colon (Util.format_d n) = false.
Proof. apply (every_char_no_colon decimal_char); [reflexivity|apply format_d_chars]. Qed.

Lemma format_d_inj a b : Util.format_d a = Util.format_d b -> a = b.
Proof.
  unfold Util.format_d. intros H. apply DecimalZ.to_int_inj.
  assert (Hnn : forall n, Z.to_int n <> Decimal.Pos Decimal.Nil
                          /\ Z.to_int n <> Decimal.Neg Decimal.Nil).
  { intros [|p|p]; simpl; split; try discriminate;
      intros [= E]; apply (DecimalPos.Unsigned.to_uint_nonnil p E). }
  pose proof (NilZero.isi (Z.to_int a) (proj1 (Hnn a)) (proj2 (Hnn a))) as Ha.
  pose proof (NilZero.isi (Z.to_int b) (proj1 (Hnn b)) (proj2 (Hnn b))) as Hb.
  rewrite H in Ha. congruence.
Qed.

(** A string is cut in one way only at its last colon. *)
Lemma split_last_colon x1 d1 x2 d2 :
  Util.has_colon d1 = false -> Util.has_colon d2 = false ->
  (x1 ++ ":" ++ d1 = x2 ++ ":" ++ d2)%string -> x1 = x2 /\ d1 = d2.
Proof.
  intros H1 H2. revert x2. induction x1 as [|c x1 IH]; intros [|c2 x2]; simpl.
  - intros [= ->]. auto.
  - intros [= <- ->]. rewrite has_colon_app in H1. simpl in H1.
    rewrite Bool.orb_true_r in H1. discriminate.
  - intros [= -> <-]. rewrite has_colon_app in H2. simpl in H2.
    rewrite Bool.orb_true_r in H2. discriminate.
  - intros [= -> H]. destruct (IH _ H) as [-> ->]. auto.
Qed.

Lemma last_colon_exists h :
  Util.has_colon h = true ->
  exists h1 h2, h = (h1 ++ ":" ++ h2)%string /\ Util.has_colon h2 = false.
Proof.
  induction h as [|c h IH]; simpl; [discriminate|].
  destruct (Util.has_colon h) eqn:E.
  - intros _. destruct (IH eq_refl) as (h1 & h2 & -> & H2).
    exists (String c h1), h2. auto.
  - rewrite Bool.orb_false_r. intros Hc. apply Ascii.eqb_eq in Hc. subst c.
    exists "", h. auto.
Qed.

(** X24: [hostportjoin] loses nothing: two pairs of a host and a port
    (or no port) that give the same string are the same pair.  The
    brackets put around a host with a colon keep the colons of the host
    apart from the colon before the port. *)
Theorem hostportjoin_is_injective host1 port1 host2 port2 :
  Util.hostportjoin host1 port1 = Util.hostportjoin host2 port2 ->
  host1 = host2 /\ port1 = port2.
Proof.
  assert (Bracket : forall h, Util.has_colon h = true ->
            exists x t, ("[" ++ h ++ "]")%string = (x ++ ":" ++ t)%string
                        /\ Util.has_colon t = false
                        /\ every_char decimal_char t = false
                        /\ Util.has_colon x = Util.has_colon ("[" ++ x)%string
                        /\ exists h1, x = ("[" ++ h1)%string).
  { intros h Hh. destruct (last_colon_exists _ Hh) as (h1 & h2 & -> & H2).
    exists ("[" ++ h1)%string, (h2 ++ "]")%string. repeat apply conj.
    - simpl. rewrite string_app_assoc. reflexivity.
    - rewrite has_colon_app, H2. reflexivity.
    - rewrite every_char_app. simpl. apply Bool.andb_false_r.
    - reflexivity.
    - eauto. }
  assert (Unbracket : forall a b, ("[" ++ a ++ "]" = "[" ++ b ++ "]")%string -> a = b).
  { intros a b [= H]. revert b H. induction a as [|c a IH]; intros [|c2 b]; simpl.
    - reflexivity.
    - intros [= <- H]. destruct b; discriminate.
    - intros [= -> H]. destruct a; discriminate.
    - intros [= -> H]. rewrite (IH _ H). reflexivity. }
  unfold Util.hostportjoin.
  destruct (Util.has_colon host1) eqn:C1, (Util.has_colon host2) eqn:C2,
           port1 as [p1|], port2 as [p2|]; intros H.
  (* both hosts with a colon *)
  - apply split_last_colon in H; try apply format_d_no_colon.
    destruct H as [Hh Hp]. split; [apply Unbracket; exact Hh|].
    rewrite (format_d_inj _ _ Hp). reflexivity.
  - exfalso. destruct (Bracket _ C2) as (x & t & E & Ht & Hd & _).
    rewrite E in H. apply split_last_colon in H; try assumption;
      try apply format_d_no_colon.
    destruct H as [_ <-]. rewrite format_d_chars in Hd. discriminate.
  - exfalso. destruct (Bracket _ C1) as (x & t & E & Ht & Hd & _).
    rewrite E in H. apply split_last_colon in H; try assumption;
      try apply format_d_no_colon.
    destruct H as [_ ->]. rewrite format_d_chars in Hd. discriminate.
  - split; [apply Unbracket; exact H|reflexivity].
  (* the first host with a colon, the second without *)
  - exfalso. apply split_last_colon in H; try apply format_d_no_colon.
    destruct H as [Hh _]. apply (f_equal Util.has_colon) in Hh.
    rewrite C2 in Hh. simpl in Hh. rewrite has_colon_app, C1 in Hh. discriminate.
  - exfalso. apply (f_equal Util.has_colon) in H. rewrite C2 in H.
    rewrite !has_colon_app in H. simpl in H.
    rewrite Bool.orb_true_r in H. discriminate.
  - exfalso. destruct (Bracket _ C1) as (x & t & E & Ht & Hd & _).
    rewrite E in H. apply split_last_colon in H; try assumption;
      try apply format_d_no_colon.
    destruct H as [_ ->]. rewrite format_d_chars in Hd. discriminate.
  - exfalso. apply (f_equal Util.has_colon) in H. rewrite C2 in H.
    simpl in H. rewrite has_colon_app, C1 in H. discriminate.
  (* the first host without a colon, the second with *)
  - exfalso. apply split_last_colon in H; try apply format_d_no_colon.
    destruct H as [Hh _]. apply (f_equal Util.has_colon) in Hh.
    rewrite C1 in Hh. simpl in Hh. rewrite has_colon_app, C2 in Hh. discriminate.
  - exfalso. destruct (Bracket _ C2) as (x & t & E & Ht & Hd & _).
    rewrite E in H. apply split_last_colon in H; try assumption;
      try apply format_d_no_colon.
    destruct H as [_ <-]. rewrite format_d_chars in Hd. discriminate.
  - exfalso. apply (f_equal Util.has_colon) in H. rewrite C1 in H.
    rewrite !has_colon_app in H. simpl in H.
    rewrite Bool.orb_true_r in H. discriminate.
  - exfalso. apply (f_equal Util.has_colon) in H. rewrite C1 in H.
    simpl in H. rewrite has_colon_app, C2 in H. discriminate.
  (* both hosts without a colon *)
  - apply split_last_colon in H; try apply format_d_no_colon.
    destruct H as [-> Hp]. rewrite (format_d_inj _ _ Hp). auto.
  - exfalso. apply (f_equal Util.has_colon) in H. rewrite C2 in H.
    rewrite !has_colon_app in H. simpl in H.
    rewrite Bool.orb_true_r in H. discriminate.
  - exfalso. apply (f_equal Util.has_colon) in H. rewrite C1 in H.
    rewrite !has_colon_app in H. simpl in H.
    rewrite Bool.orb_true_r in H. discriminate.
  - auto.
Qed.

Lemma hostportjoin_is_injective_witness :
  "::1%eth0" = "::1%eth0" /\ Some 56830%Z = Some 56830%Z.
Proof.
  apply (hostportjoin_is_injective "::1%eth0" (Some 56830%Z) "::1%eth0" (Some 56830%Z)).
  reflexivity.
Defined.

(** ** Utilities: [ExtensibleIntEnum] *)

Lemma interned_empty : interned (Util.mkEnum [] [] []).
Proof.
  split.
  - intros n m H. discriminate H.
  - intros [|m] i H; discriminate H.
Qed.

(** What a call of the class with an integer does. *)
Lemma __call___spec c n c1 m :
  interned c -> Util.__call__ c (Util.Int n) = (c1, m) ->
  interned c1
  /\ (exists i, nth_error (Util.members c1) m = Some i /\ Util.value_of i = n)
  /\ Dict.get Z.eqb (Util._value2member_map_ c1) n = Some m
  /\ Util.attributes c1 = Util.attributes c
  /\ (forall n' m', Dict.get Z.eqb (Util._value2member_map_ c) n' = Some m' ->
                    Dict.get Z.eqb (Util._value2member_map_ c1) n' = Some m')
  /\ (forall m' i, nth_error (Util.members c) m' = Some i ->
                   nth_error (Util.members c1) m' = Some i)
  /\ (forall m' i, nth_error (Util.members c1) m' = Some i -> m' <> m ->
                   nth_error (Util.members c) m' = Some i)
  /\ (Dict.get Z.eqb (Util._value2member_map_ c) n = None ->
      nth_error (Util.members c1) m = Some (Util.mkMember n None)).
Proof.
  intros (I1 & I2). unfold Util.__call__.
  destruct (Dict.get Z.eqb (Util._value2member_map_ c) n) as [m0|] eqn:E.
  - intros [= <- <-].
    split; [split; assumption|]. split; [apply (I1 _ _ E)|].
    split; [exact E|]. split; [reflexivity|].
    split; [auto|]. split; [auto|]. split; [auto|]. discriminate.
  - intros [= <- <-]. unfold interned.
    cbn [Util.members Util._value2member_map_ Util.attributes].
    assert (Hold : forall m' i, nth_error (Util.members c) m' = Some i ->
                                nth_error (Util.members c ++ [Util.mkMember n None]) m'
                                = Some i).
    { intros m' i H. rewrite nth_error_app1; [exact H|].
      apply nth_error_Some. congruence. }
    repeat apply conj.
    + intros n' m'. destruct (Z.eq_dec n n') as [<-|Hne].
      * rewrite (get_set_same _ _ _ Z.eqb_eq). intros [= <-].
        exists (Util.mkMember n None). split; [apply nth_error_snoc|reflexivity].
      * rewrite (get_set_other _ _ _ Z.eqb_eq) by exact Hne. intros H.
        destruct (I1 _ _ H) as (i & Hi & Hv). exists i. split; [|exact Hv].
        apply Hold. exact Hi.
    + intros m' i H.
      destruct (Nat.eq_dec m' (List.length (Util.members c))) as [->|Hne].
      * rewrite nth_error_snoc in H. injection H as <-. cbn [Util.value_of].
        apply (get_set_same _ _ _ Z.eqb_eq).
      * assert (Hlt : m' < List.length (Util.members c)).
        { assert (m' < List.length (Util.members c ++ [Util.mkMember n None]))
            by (apply nth_error_Some; congruence).
          rewrite length_app in *. simpl in *. lia. }
        rewrite nth_error_app1 in H by exact Hlt.
        rewrite (get_set_other _ _ _ Z.eqb_eq); [apply (I2 _ _ H)|].
        intros Heq. rewrite Heq, (I2 _ _ H) in E. discriminate.
    + exists (Util.mkMember n None). split; [apply nth_error_snoc|reflexivity].
    + apply (get_set_same _ _ _ Z.eqb_eq).
    + reflexivity.
    + intros n' m' H. rewrite (get_set_other _ _ _ Z.eqb_eq); [exact H|].
      intros <-. congruence.
    + exact Hold.
    + intros m' i H Hne.
      assert (Hlt : m' < List.length (Util.members c)).
      { assert (m' < List.length (Util.members c ++ [Util.mkMember n None]))
          by (apply nth_error_Some; congruence).
        rewrite length_app in *. simpl in *. lia. }
      rewrite nth_error_app1 in H by exact Hlt. exact H.
    + intros _. apply nth_error_snoc.
Qed.

(** X25: a call of the class interns.  In a class whose map and instances
    agree, [cls(n)] returns an instance with the value [n] and leaves
    such a class; there [cls(n)] returns the same instance again and
    changes nothing, as does the call on that instance; the instances
    there were keep answering for their values, and none of them is
    changed. *)
Theorem enum_call_interns c n c1 m :
  interned c -> Util.__call__ c (Util.Int n) = (c1, m) ->
  interned c1
  /\ (exists i, nth_error (Util.members c1) m = Some i /\ Util.value_of i = n)
  /\ Util.__call__ c1 (Util.Int n) = (c1, m)
  /\ Util.__call__ c1 (Util.Instance m) = (c1, m)
  /\ (forall n' m', Util.__call__ c (Util.Int n') = (c, m') ->
                    Util.__call__ c1 (Util.Int n') = (c1, m'))
  /\ (forall m' i, nth_error (Util.members c) m' = Some i ->
                   nth_error (Util.members c1) m' = Some i).
Proof.
  intros Hc H.
  destruct (__call___spec _ _ _ _ Hc H) as (H1 & H2 & H3 & _ & H5 & H6 & _).
  split; [exact H1|]. split; [exact H2|]. split; [|split; [reflexivity|split]].
  - unfold Util.__call__. rewrite H3. reflexivity.
  - intros n' m' Hn'. unfold Util.__call__ in Hn' |- *.
    destruct (Dict.get Z.eqb (Util._value2member_map_ c) n') as [m0|] eqn:E.
    + injection Hn' as <-. rewrite (H5 _ _ E). reflexivity.
    + exfalso. injection Hn' as Hc' _.
      apply (f_equal (fun x => List.length (Util.members x))) in Hc'.
      cbn [Util.members] in Hc'. rewrite length_app in Hc'. simpl in Hc'. lia.
  - exact H6.
Qed.

Lemma enum_call_interns_witness :
  interned (fst (Util.__call__ (Util.mkEnum [] [] []) (Util.Int 5683)))
  /\ (exists i, nth_error (Util.members
                             (fst (Util.__call__ (Util.mkEnum [] [] []) (Util.Int 5683))))
                          0 = Some i /\ Util.value_of i = 5683%Z)
  /\ Util.__call__ (fst (Util.__call__ (Util.mkEnum [] [] []) (Util.Int 5683)))
                   (Util.Int 5683)
     = (fst (Util.__call__ (Util.mkEnum [] [] []) (Util.Int 5683)), 0)
  /\ Util.__call__ (fst (Util.__call__ (Util.mkEnum [] [] []) (Util.Int 5683)))
                   (Util.Instance 0)
     = (fst (Util.__call__ (Util.mkEnum [] [] []) (Util.Int 5683)), 0)
  /\ (forall n' m', Util.__call__ (Util.mkEnum [] [] []) (Util.Int n')
                    = (Util.mkEnum [] [] [], m') ->
                    Util.__call__ (fst (Util.__call__ (Util.mkEnum [] [] [])
                                                      (Util.Int 5683)))
                                  (Util.Int n')
                    = (fst (Util.__call__ (Util.mkEnum [] [] []) (Util.Int 5683)), m'))
  /\ (forall m' i, nth_error (Util.members (Util.mkEnum [] [] [])) m' = Some i ->
                   nth_error (Util.members
                                (fst (Util.__call__ (Util.mkEnum [] [] [])
                                                    (Util.Int 5683)))) m' = Some i).
Proof.
  apply (enum_call_interns (Util.mkEnum [] [] []) 5683%Z).
  - apply interned_empty.
  - reflexivity.
Defined.

Lemma last_name_snoc dict k v n :
  last_name (dict ++ [(k, v)]) n
  = match v with
    | Util.Number n' =>
        if negb (Py.startswith k "_") && (n' =? n)%Z then Some k
        else last_name dict n
    | _ => last_name dict n
    end.
Proof. unfold last_name. rewrite fold_left_app. reflexivity. Qed.


Lemma __init___snoc dict kv :
  Util.__init__ (dict ++ [kv]) = Util.__init___round (Util.__init__ dict) kv.
Proof. unfold Util.__init__. rewrite fold_left_app. reflexivity. Qed.

(** What the loop of [ExtensibleEnumMeta.__init__] has established after
    each round. *)
Lemma __init___inv dict :
  NoDup (map fst dict) ->
  interned (Util.__init__ dict)
  /\ (forall k n,
        In (k, Util.Number n) dict -> Py.startswith k "_" = false ->
        exists m, Dict.get String.eqb (Util.attributes (Util.__init__ dict)) k = Some m
                  /\ Dict.get Z.eqb (Util._value2member_map_ (Util.__init__ dict)) n
                     = Some m)
  /\ (forall m i, nth_error (Util.members (Util.__init__ dict)) m = Some i ->
                  Util.name i = last_name dict (Util.value_of i)).
Proof.
  induction dict as [|[k v] dict IH] using rev_ind; intros Hnd.
  - split; [apply interned_empty|]. split; [intros k n []|].
    intros [|m] i H; discriminate H.
  - rewrite map_app in Hnd. cbn [map fst] in Hnd.
    assert (Hnd' : NoDup (map fst dict) /\ ~ In k (map fst dict)).
    { apply NoDup_remove in Hnd. rewrite app_nil_r in Hnd. exact Hnd. }
    destruct Hnd' as (Hnd' & Hfresh).
    destruct (IH Hnd') as (Ic & Hattr & Hname). clear IH.
    rewrite __init___snoc. set (c := Util.__init__ dict) in *.
    assert (Skip : Util.__init___round c (k, v) = c ->
                   (forall n, last_name (dict ++ [(k, v)]) n = last_name dict n) ->
                   (forall n, v = Util.Number n -> Py.startswith k "_" = true) ->
                   interned (Util.__init___round c (k, v))
                   /\ (forall k0 n,
                         In (k0, Util.Number n) (dict ++ [(k, v)]) ->
                         Py.startswith k0 "_" = false ->
                         exists m,
                           Dict.get String.eqb
                             (Util.attributes (Util.__init___round c (k, v))) k0 = Some m
                           /\ Dict.get Z.eqb
                                (Util._value2member_map_ (Util.__init___round c (k, v))) n
                              = Some m)
                   /\ (forall m i,
                         nth_error (Util.members (Util.__init___round c (k, v))) m = Some i ->
                         Util.name i = last_name (dict ++ [(k, v)]) (Util.value_of i))).
    { intros -> Hl Hv. split; [exact Ic|]. split.
      - intros k0 n Hin Hk0. apply in_app_or in Hin.
        destruct Hin as [Hin|[[= -> ->]|[]]]; [apply (Hattr _ _ Hin Hk0)|].
        rewrite (Hv n eq_refl) in Hk0. discriminate.
      - intros m i H. rewrite Hl. apply (Hname _ _ H). }
    destruct (Py.startswith k "_") eqn:Hk.
    { apply Skip.
      - unfold Util.__init___round. rewrite Hk. reflexivity.
      - intros n. rewrite last_name_snoc, Hk. destruct v; reflexivity.
      - auto. }
    destruct v as [| |n].
    { apply Skip.
      - unfold Util.__init___round. rewrite Hk. reflexivity.
      - intros n. rewrite last_name_snoc. reflexivity.
      - discriminate. }
    { apply Skip.
      - unfold Util.__init___round. rewrite Hk. reflexivity.
      - intros n. rewrite last_name_snoc. reflexivity.
      - discriminate. }
    clear Skip. unfold Util.__init___round. rewrite Hk.
    destruct (Util.__call__ c (Util.Int n)) as [c1 m] eqn:Ecall.
    destruct (__call___spec _ _ _ _ Ic Ecall)
      as ((J1 & J2) & (i & Hi & Hv) & Hget & Hat & Hmono & Hkeep & Hold & _).
    rewrite Hi. unfold interned.
    cbn [Util.members Util._value2member_map_ Util.attributes].
    set (i' := Util.mkMember (Util.value_of i) (Some k)).
    assert (Hm : nth_error (list_set (Util.members c1) m i') m = Some i')
      by apply (nth_error_list_set_same _ _ _ _ Hi).
    assert (Hother : forall m0, m0 <> m ->
                nth_error (list_set (Util.members c1) m i') m0
                = nth_error (Util.members c1) m0).
    { intros m0 Hne. apply nth_error_list_set_other. congruence. }
    split; [split|split].
    + intros n0 m0 H0. destruct (Nat.eq_dec m0 m) as [->|Hne].
      * exists i'. split; [exact Hm|]. cbn [i' Util.value_of].
        destruct (J1 _ _ H0) as (i0 & Hi0 & Hv0). congruence.
      * rewrite (Hother _ Hne). apply (J1 _ _ H0).
    + intros m0 i0 H0. destruct (Nat.eq_dec m0 m) as [->|Hne].
      * rewrite Hm in H0. injection H0 as <-. cbn [i' Util.value_of].
        apply (J2 _ _ Hi).
      * rewrite (Hother _ Hne) in H0. apply (J2 _ _ H0).
    + intros k0 n0 Hin Hk0. apply in_app_or in Hin.
      destruct Hin as [Hin|[[= -> ->]|[]]].
      * destruct (Hattr _ _ Hin Hk0) as (m0 & Ha & Hg). exists m0. split.
        -- rewrite Hat. rewrite (get_set_other _ _ _ String.eqb_eq); [exact Ha|].
           intros ->. apply Hfresh. apply in_map_iff. exists (k0, Util.Number n0). auto.
        -- apply (Hmono _ _ Hg).
      * exists m. split; [apply (get_set_same _ _ _ String.eqb_eq)|exact Hget].
    + intros m0 i0 H0. rewrite last_name_snoc, Hk. cbn [negb andb].
      destruct (Nat.eq_dec m0 m) as [->|Hne].
      * rewrite Hm in H0. injection H0 as <-. cbn [i' Util.value_of Util.name].
        rewrite Hv, Z.eqb_refl. reflexivity.
      * rewrite (Hother _ Hne) in H0.
        destruct (Z.eqb n (Util.value_of i0)) eqn:En.
        -- exfalso. apply Z.eqb_eq in En. apply Hne.
           pose proof (J2 _ _ H0) as G. rewrite <- En, Hget in G. congruence.
        -- apply (Hname m0). apply (Hold _ _ H0 Hne).
Qed.



(** X27: adding to an instance gives the interned instance of the sum.
    In a class whose map and instances agree, [m + 0] is [m] itself and
    changes nothing, and [(m + a) + b] is the instance whose value is the
    value of [m] plus [a] plus [b], the one that [m + (a + b)] returns
    from then on. *)
Theorem enum_add_is_interned c m i :
  interned c -> nth_error (Util.members c) m = Some i ->
  Util.__add__ c m 0 = Ok (c, m)
  /\ forall a b c1 x c2 y,
      Util.__add__ c m a = Ok (c1, x) -> Util.__add__ c1 x b = Ok (c2, y) ->
      (exists j, nth_error (Util.members c2) y = Some j
                 /\ Util.value_of j = (Util.value_of i + a + b)%Z)
      /\ Util.__add__ c2 m (a + b) = Ok (c2, y).
Proof.
  intros Ic Hi. split.
  - unfold Util.__add__, Util.__call__. rewrite Hi, Z.add_0_r, (proj2 Ic _ _ Hi).
    reflexivity.
  - intros a b c1 x c2 y H1 H2. unfold Util.__add__ in H1. rewrite Hi in H1.
    injection H1 as H1.
    destruct (__call___spec _ _ _ _ Ic H1) as (Ic1 & (ix & Hix & Hvx) & _ & _ & _ & K1 & _).
    unfold Util.__add__ in H2. rewrite Hix, Hvx in H2. injection H2 as H2.
    destruct (__call___spec _ _ _ _ Ic1 H2) as (Ic2 & Hy & Hg & _ & _ & K2 & _).
    split; [exact Hy|].
    unfold Util.__add__, Util.__call__. rewrite (K2 _ _ (K1 _ _ Hi)), Z.add_assoc, Hg.
    reflexivity.
Qed.

Lemma enum_add_is_interned_witness :
  Util.__add__ (Util.__init__ Scenario.numbers) 0 0 = Ok (Util.__init__ Scenario.numbers, 0)
  /\ forall a b c1 x c2 y,
      Util.__add__ (Util.__init__ Scenario.numbers) 0 a = Ok (c1, x) ->
      Util.__add__ c1 x b = Ok (c2, y) ->
      (exists j, nth_error (Util.members c2) y = Some j
                 /\ Util.value_of j = (1 + a + b)%Z)
      /\ Util.__add__ c2 0 (a + b) = Ok (c2, y).
Proof.
  apply (enum_add_is_interned (Util.__init__ Scenario.numbers) 0
           (Util.mkMember 1 (Some "IF_MATCH"))).
  - apply (__init___inv Scenario.numbers).
    repeat (apply NoDup_cons; [simpl; intuition discriminate|]). apply NoDup_nil.
  - reflexivity.
Defined.
